(** * FLYLOG statistics engine

    A shallow embedding of the statistics derivation of
    [src/scripts/www/App.tsx] (the [useMemo] block that computes
    [stats : FlightStats] from [logs]), of the data model of
    [src/scripts/www/types.ts], and of the parts of the JavaScript [Date]
    object, of arrays and of the date-fns library that the block calls.

    Conventions of the embedding.
    - A [Date] is its time value: milliseconds since the Unix epoch, in [Z].
      A log's [date] field (an ISO string in the source) is represented by
      the time value that [new Date(l.date)] yields; every date is taken to
      parse to a valid instant of the years 0000 to 9999.
    - The host time zone is a fixed offset [tz] in milliseconds (local wall
      clock = UTC + [tz]).  Zones with daylight-saving transitions are
      covered by [HostZone], for the figures of the engine that count
      whole days; [computeStats tz] is its case of a constant offset
      ([dayStats_fixed]).
    - The text "YYYY-MM-DD" of a day is represented by the number of that
      day (days since 1970-01-01).  The texts themselves, their order and
      their parsing are modelled next to it ([JsDate.isoDateText],
      [JsDate.parseIsoDate], [uniqueDayTexts]) and shown to agree with the
      day numbers ([uniqueDayTexts_model]).
    - JavaScript numbers that hold counts and day differences are integers
      and live in [Z]; durations ([flightTime]) are kept behind the class
      [JsNumber], with the binary64 instance (what the program runs on) and
      the exact rational instance.
    - The clock reading [new Date()] of the block is the argument [now].

    The same embedding carries the code around the engine: [handleSaveLog]
    of [App.tsx]; the calendar of [components/FlightList.tsx] (the grid of
    a month, the lists of a day, the month buttons, [formatDurationLog]);
    the recorder of [components/FlightRecorder.tsx] ([handleManualSave],
    [handleTimerSave], [formatTime]); and the widget list of the dashboard
    in [components/Navbar.tsx] (the migration of stored widgets, adding,
    removing, updating and dragging a widget, the detail view, the
    greeting and the incident card).  Conventions added for them:
    - [Date] setters follow MakeDay and MakeTime of ECMAScript; the
      functions of date-fns ([startOfMonth], [endOfMonth], [endOfWeek],
      [eachDayOfInterval], [addMonths], [subMonths]) are transcribed from
      the library, [eachDayOfInterval] for intervals given in order.
    - [hours.toFixed(4)] and [parseFloat] are computed on the exact value
      of the binary64 number; the text with four fraction digits is
      represented by its number of ten-thousandths.
    - Identifiers from [uuidv4()] and further clock readings are
      arguments.

    The file has three parts: the model, the vocabulary in which the
    properties are stated, and the lemmas and theorems.  The model and the
    vocabulary of the code around the engine close the second part, its
    lemmas and theorems the third. *)

From Stdlib Require Import ZArith List Bool Lia Permutation Sorted.
From Stdlib Require String DecimalString DecimalZ DecimalPos.
From Stdlib Require Import QArith.
From Stdlib Require Import Floats Uint63.
Import ListNotations.
Open Scope Z_scope.
Set Warnings "-inexact-float".

(** * Part I: the model *)

(** ** The JavaScript [Date] object, as far as the engine reads it *)

Module JsDate.

Definition MS_PER_DAY : Z := 86400000.

(** ECMAScript [Day(t)]: the UTC day number of a time value. *)
Definition Day (t : Z) : Z := t / MS_PER_DAY.

(** Proleptic Gregorian date of a day number, as (year, month 1..12, day
    of the month). *)
Definition civil_from_days (z : Z) : Z * Z * Z :=
  let z := z + 719468 in
  let era := z / 146097 in
  let doe := z - era * 146097 in
  let yoe := (doe - doe / 1460 + doe / 36524 - doe / 146096) / 365 in
  let y := yoe + era * 400 in
  let doy := doe - (365 * yoe + yoe / 4 - yoe / 100) in
  let mp := (5 * doy + 2) / 153 in
  let d := doy - (153 * mp + 2) / 5 + 1 in
  let m := if mp <? 10 then mp + 3 else mp - 9 in
  (if m <=? 2 then y + 1 else y, m, d).

(** Day number of a Gregorian date (month 1..12). *)
Definition days_from_civil (y m d : Z) : Z :=
  let y := if m <=? 2 then y - 1 else y in
  let era := y / 400 in
  let yoe := y - era * 400 in
  let doy := (153 * (if 2 <? m then m - 3 else m + 9) + 2) / 5 + d - 1 in
  let doe := yoe * 365 + yoe / 4 - yoe / 100 + doy in
  era * 146097 + doe - 719468.

(** [Date.UTC(year, monthIndex, day, hours, minutes)]; [monthIndex] is
    0-based as in JavaScript. *)
Definition UTC (year monthIndex day hours minutes : Z) : Z :=
  days_from_civil year (monthIndex + 1) day * MS_PER_DAY
  + hours * 3600000 + minutes * 60000.

Section LocalTime.
(** Offset of the host's wall clock from UTC, in milliseconds. *)
Variable tz : Z.

Definition localDay (t : Z) : Z := (t + tz) / MS_PER_DAY.
Definition localMsOfDay (t : Z) : Z := (t + tz) mod MS_PER_DAY.

Definition getFullYear (t : Z) : Z :=
  let '(y, _, _) := civil_from_days (localDay t) in y.

(** 0 = January. *)
Definition getMonth (t : Z) : Z :=
  let '(_, m, _) := civil_from_days (localDay t) in m - 1.

(** 0 = Sunday; day number 0 (1970-01-01) was a Thursday. *)
Definition getDay (t : Z) : Z := (localDay t + 4) mod 7.
End LocalTime.

(** [d.toISOString().split('T')[0]]: the text "YYYY-MM-DD" of the UTC
    calendar day of [d].  The text is represented by the day number it
    denotes; [isoDateText] below gives the text.  For years 0000 to 9999
    the lexicographic order of the texts is the order of the day numbers
    ([isoDateText_compare]), so that texts and day numbers determine each
    other, and [new Date("YYYY-MM-DD")] is that day's UTC midnight
    ([parseIsoDate_isoDateText]). *)
Definition toISODateString (t : Z) : Z := Day t.

(** [new Date("YYYY-MM-DD")]: a date-only string is read as UTC midnight. *)
Definition ofDateString (key : Z) : Z := key * MS_PER_DAY.

(** *** The texts themselves *)

Import Ascii String.

(** The decimal digit [n] (0..9) as a character. *)
Definition digit (n : Z) : ascii := ascii_of_N (48 + Z.to_N n).

Definition pad2 (n : Z) (rest : string) : string :=
  String (digit (n / 10)) (String (digit (n mod 10)) rest).

Definition pad4 (n : Z) (rest : string) : string :=
  pad2 (n / 100) (pad2 (n mod 100) rest).

(** The text "YYYY-MM-DD" of a date with a year from 0000 to 9999. *)
Definition dateText (c : Z * Z * Z) : string :=
  let '(y, m, d) := c in
  pad4 y (String "-" (pad2 m (String "-" (pad2 d EmptyString)))).

(** The text that [toISOString().split('T')[0]] yields for an instant of
    UTC day [day]. *)
Definition isoDateText (day : Z) : string := dateText (civil_from_days day).

Definition digitValue (c : ascii) : Z := Z.of_N (N_of_ascii c) - 48.

(** [new Date(text).getTime()] for a text "YYYY-MM-DD". *)
Definition parseIsoDate (text : string) : option Z :=
  match text with
  | String y3 (String y2 (String y1 (String y0 (String "-"
      (String m1 (String m0 (String "-"
        (String d1 (String d0 EmptyString))))))))) =>
      let y := 1000 * digitValue y3 + 100 * digitValue y2
               + 10 * digitValue y1 + digitValue y0 in
      let m := 10 * digitValue m1 + digitValue m0 in
      let d := 10 * digitValue d1 + digitValue d0 in
      Some (days_from_civil y m d * MS_PER_DAY)
  | _ => None
  end.

End JsDate.

(** ** date-fns *)

Module DateFns.
Import JsDate.

Section LocalTime.
Variable tz : Z.

(** [startOfDay]: the instant of local midnight of the date's day. *)
Definition startOfDay (t : Z) : Z := localDay tz t * MS_PER_DAY - tz.

Definition isSameDay (a b : Z) : bool := startOfDay a =? startOfDay b.

(** [startOfWeek(t, { weekStartsOn })]. *)
Definition startOfWeek (weekStartsOn : Z) (t : Z) : Z :=
  let day := getDay tz t in
  let diff := (if day <? weekStartsOn then 7 else 0) + day - weekStartsOn in
  (localDay tz t - diff) * MS_PER_DAY - tz.

Definition isSameWeek (weekStartsOn : Z) (a b : Z) : bool :=
  startOfWeek weekStartsOn a =? startOfWeek weekStartsOn b.

Definition isSameMonth (a b : Z) : bool :=
  (getFullYear tz a =? getFullYear tz b) && (getMonth tz a =? getMonth tz b).

(** [compareLocalAsc]: the sign of the first non-zero difference among
    the local year, month, date, hours, minutes, seconds, milliseconds;
    the first three are compared through the local day number and the
    last four through the millisecond of the day. *)
Definition compareLocalAsc (a b : Z) : Z :=
  let diff :=
    if localDay tz a - localDay tz b =? 0
    then localMsOfDay tz a - localMsOfDay tz b
    else localDay tz a - localDay tz b in
  if diff <? 0 then -1 else if 0 <? diff then 1 else diff.

Definition differenceInCalendarDays (a b : Z) : Z :=
  localDay tz a - localDay tz b.

(** [differenceInDays(dateLeft, dateRight)]: the number of full days
    between the two dates. *)
Definition differenceInDays (dateLeft dateRight : Z) : Z :=
  let sign := compareLocalAsc dateLeft dateRight in
  let difference := Z.abs (differenceInCalendarDays dateLeft dateRight) in
  (* dateLeft.setDate(dateLeft.getDate() - sign * difference) *)
  let dateLeft' := dateLeft - sign * difference * MS_PER_DAY in
  let isLastDayNotFull :=
    if compareLocalAsc dateLeft' dateRight =? - sign then 1 else 0 in
  sign * (difference - isLastDayNotFull).
End LocalTime.

End DateFns.

(** ** JavaScript arrays, [Set] and [Math], as far as the engine uses them *)

Module JsArray.

Section Sort.
Context {A : Type}.

(** [Array.prototype.sort(compareFn)] is stable: an element is placed before
    the first element that must come after it. *)
Fixpoint insert_by (compareFn : A -> A -> Z) (x : A) (l : list A) : list A :=
  match l with
  | [] => [x]
  | y :: ys =>
      if compareFn x y <=? 0 then x :: y :: ys
      else y :: insert_by compareFn x ys
  end.

Definition sort (compareFn : A -> A -> Z) (l : list A) : list A :=
  fold_right (insert_by compareFn) [] l.
End Sort.

(** [sort()] without a comparator orders date-only keys ascending. *)
Definition defaultCompare (a b : Z) : Z :=
  if a <? b then -1 else if b <? a then 1 else 0.

(** [sort()] without a comparator, on the texts themselves: by code units. *)
Definition defaultCompareText (a b : String.string) : Z :=
  match String.compare a b with Lt => -1 | Eq => 0 | Gt => 1 end.

Section SetOf.
Context {A : Type}.
(** Equality of set elements (strings, or the numbers that stand for
    them). *)
Variable sameValue : A -> A -> bool.

(** [Array.from(new Set(l))]: the distinct elements in order of first
    insertion. *)
Fixpoint setAdd (seen : list A) (l : list A) : list A :=
  match l with
  | [] => seen
  | x :: xs =>
      if existsb (sameValue x) seen then setAdd seen xs
      else setAdd (seen ++ [x]) xs
  end.

Definition fromSet (l : list A) : list A := setAdd [] l.
End SetOf.

(** [l.length] *)
Definition length {A : Type} (l : list A) : Z := Z.of_nat (List.length l).

(** [Math.max(...l)] and [Math.min(...l)] on a non-empty integer list
    [x :: xs]. *)
Definition Math_max (x : Z) (xs : list Z) : Z := fold_left Z.max xs x.
Definition Math_min (x : Z) (xs : list Z) : Z := fold_left Z.min xs x.

End JsArray.

(** ** Numbers that carry durations *)

(** The arithmetic the engine performs on [flightTime] values. *)
Class JsNumber (N : Type) : Type := {
  (** the literal [0] *)
  num_zero : N;
  (** [acc + curr.flightTime] *)
  num_add : N -> N -> N;
  (** [totalHours / validLogs.length] *)
  num_div_length : N -> Z -> N;
  (** one step of [Math.max] / [Math.min] *)
  num_max : N -> N -> N;
  num_min : N -> N -> N
}.

(** IEEE 754 binary64, the JavaScript number type. *)
Module Binary64.
Open Scope float_scope.

Definition ofLength (n : Z) : float := PrimFloat.of_uint63 (Uint63.of_Z n).

(** [Math.max] of two numbers: NaN is contagious and [+0] is above [-0]. *)
Definition max2 (a b : float) : float :=
  if is_nan a || is_nan b then nan
  else if a <? b then b
  else if b <? a then a
  else if get_sign a then b else a.

Definition min2 (a b : float) : float :=
  if is_nan a || is_nan b then nan
  else if a <? b then a
  else if b <? a then b
  else if get_sign a then a else b.

#[global] Instance number : JsNumber float := {
  num_zero := 0;
  num_add := PrimFloat.add;
  num_div_length := fun x n => x / ofLength n;
  num_max := max2;
  num_min := min2
}.
End Binary64.

(** Exact rational arithmetic: the same operations without rounding. *)
Module Exact.
Open Scope Q_scope.

Definition max2 (a b : Q) : Q := if Qle_bool a b then b else a.
Definition min2 (a b : Q) : Q := if Qle_bool a b then a else b.

#[global] Instance number : JsNumber Q := {
  num_zero := 0;
  num_add := Qplus;
  num_div_length := fun x n => x / inject_Z n;
  num_max := max2;
  num_min := min2
}.
End Exact.

(** ** Data model ([types.ts]) *)

Inductive FlightType : Type := single | multi | night.

Inductive MoodType : Type := tired | comfortable | normal | happy.

Record FlightRatings : Type := {
  preFlight : Z;
  inFlight : Z;
  postFlight : Z
}.

Record FlightLog (N : Type) : Type := {
  id : String.string;
  date : Z;
  type : FlightType;
  flightTime : N;
  ratings : FlightRatings;
  mood : option MoodType;
  notes : String.string;
  createdAt : Z;
  departure : option String.string;
  arrival : option String.string;
  aircraftType : option String.string
}.

Arguments id {N} _.
Arguments date {N} _.
Arguments type {N} _.
Arguments flightTime {N} _.
Arguments ratings {N} _.
Arguments mood {N} _.
Arguments notes {N} _.
Arguments createdAt {N} _.

Record FlightStats (N : Type) : Type := {
  flightsToday : Z;
  flightsThisWeek : Z;
  flightsThisYear : Z;
  flightsThisMonth : Z;
  hoursToday : N;
  hoursThisWeek : N;
  hoursThisMonth : N;
  hoursThisYear : N;
  soloFlightsToday : Z;
  soloFlightsThisWeek : Z;
  soloFlightsThisMonth : Z;
  soloFlightsThisYear : Z;
  multiFlightsToday : Z;
  multiFlightsThisWeek : Z;
  multiFlightsThisMonth : Z;
  multiFlightsThisYear : Z;
  daysSinceLastFlight : Z;
  consecutiveDays : Z;
  maxStreak : Z;
  minStreak : Z;
  streakBreaks : Z;
  maxRestStreak : Z;
  minRestStreak : Z;
  restBreaks : Z;
  totalFlights : Z;
  totalSoloFlights : Z;
  totalMultiFlights : Z;
  totalHours : N;
  avgDuration : N;
  maxDuration : N;
  minDuration : N;
  totalNightFlights : Z;
  daysSinceLastIncident : Z
}.

Arguments flightsToday {N} _.
Arguments flightsThisWeek {N} _.
Arguments flightsThisYear {N} _.
Arguments flightsThisMonth {N} _.
Arguments hoursToday {N} _.
Arguments hoursThisWeek {N} _.
Arguments hoursThisMonth {N} _.
Arguments hoursThisYear {N} _.
Arguments soloFlightsToday {N} _.
Arguments soloFlightsThisWeek {N} _.
Arguments soloFlightsThisMonth {N} _.
Arguments soloFlightsThisYear {N} _.
Arguments multiFlightsToday {N} _.
Arguments multiFlightsThisWeek {N} _.
Arguments multiFlightsThisMonth {N} _.
Arguments multiFlightsThisYear {N} _.
Arguments daysSinceLastFlight {N} _.
Arguments consecutiveDays {N} _.
Arguments maxStreak {N} _.
Arguments minStreak {N} _.
Arguments streakBreaks {N} _.
Arguments maxRestStreak {N} _.
Arguments minRestStreak {N} _.
Arguments restBreaks {N} _.
Arguments totalFlights {N} _.
Arguments totalSoloFlights {N} _.
Arguments totalMultiFlights {N} _.
Arguments totalHours {N} _.
Arguments avgDuration {N} _.
Arguments maxDuration {N} _.
Arguments minDuration {N} _.
Arguments totalNightFlights {N} _.
Arguments daysSinceLastIncident {N} _.


(** ** The statistics engine ([App.tsx], the [stats] memo) *)

Record Counts : Type := {
  today : Z;
  week : Z;
  month : Z;
  year : Z;
  total : Z
}.

Section Engine.
Import JsDate DateFns.

(** The host time zone and the number type of durations. *)
Variable tz : Z.
Context {N : Type} `{JsNumber N}.

(** [(a, b) => new Date(b.date).getTime() - new Date(a.date).getTime()] *)
Definition byDateDesc (a b : FlightLog N) : Z := date b - date a.

Definition isNight (l : FlightLog N) : bool :=
  match type l with night => true | _ => false end.
Definition isSingle (l : FlightLog N) : bool :=
  match type l with single => true | _ => false end.
Definition isMulti (l : FlightLog N) : bool :=
  match type l with multi => true | _ => false end.

(** [logs.filter(l => l.type !== 'night')] and
    [logs.filter(l => l.type === 'night')] *)
Definition validLogs (logs : list (FlightLog N)) : list (FlightLog N) :=
  filter (fun l => negb (isNight l)) logs.
Definition nightLogs (logs : list (FlightLog N)) : list (FlightLog N) :=
  filter isNight logs.

(** The four period tests of [getCounts], relative to [now]. *)
Definition inToday (now : Z) (l : FlightLog N) : bool :=
  isSameDay tz (date l) now.
Definition inWeek (now : Z) (l : FlightLog N) : bool :=
  isSameWeek tz 1 (date l) now.
Definition inMonth (now : Z) (l : FlightLog N) : bool :=
  isSameMonth tz (date l) now.
Definition inYear (now : Z) (l : FlightLog N) : bool :=
  let currentYear := getFullYear tz now in
  getFullYear tz (date l) =? currentYear.

Definition getCounts (now : Z) (dataset : list (FlightLog N)) : Counts :=
  {| today := JsArray.length (filter (inToday now) dataset);
     week := JsArray.length (filter (inWeek now) dataset);
     month := JsArray.length (filter (inMonth now) dataset);
     year := JsArray.length (filter (inYear now) dataset);
     total := JsArray.length dataset |}.

(** [logList.reduce((acc, curr) => acc + curr.flightTime, 0)] *)
Definition sumHours (logList : list (FlightLog N)) : N :=
  fold_left (fun acc curr => num_add acc (flightTime curr)) logList num_zero.

(** [Array.from(new Set(validLogs.map(l =>
      new Date(l.date).toISOString().split('T')[0]))).sort().reverse()] *)
Definition uniqueDayStrings (logs : list (FlightLog N)) : list Z :=
  rev (JsArray.sort JsArray.defaultCompare
         (JsArray.fromSet Z.eqb
            (map (fun l => toISODateString (date l)) (validLogs logs)))).

(** The same expression on the texts themselves. *)
Definition uniqueDayTexts (logs : list (FlightLog N)) : list String.string :=
  rev (JsArray.sort JsArray.defaultCompareText
         (JsArray.fromSet String.eqb
            (map (fun l => isoDateText (Day (date l))) (validLogs logs)))).

(** Body of the streak loop at index [i]; the state is
    [(streakLengths, currentStreakRun)].  The loop only reads indices
    inside the array. *)
Definition streakStep (uniqueDayStrings : list Z) (st : list Z * Z) (i : nat)
  : list Z * Z :=
  let '(streakLengths, currentStreakRun) := st in
  if currentStreakRun =? 0 then (streakLengths, 1)
  else
    let prevDate := ofDateString (nth (i - 1) uniqueDayStrings 0) in
    let currDate := ofDateString (nth i uniqueDayStrings 0) in
    let diff := differenceInDays tz prevDate currDate in
    if diff =? 1 then (streakLengths, currentStreakRun + 1)
    else (streakLengths ++ [currentStreakRun], 1).

(** The loop [for (i = 0; i < uniqueDayStrings.length; i++)] followed by
    [if (currentStreakRun > 0) streakLengths.push(currentStreakRun)]. *)
Definition streakLengthsOf (uniqueDayStrings : list Z) : list Z :=
  let '(streakLengths, currentStreakRun) :=
    fold_left (streakStep uniqueDayStrings)
      (seq 0 (List.length uniqueDayStrings)) ([], 0) in
  if 0 <? currentStreakRun then streakLengths ++ [currentStreakRun]
  else streakLengths.

(** Body of the rest-gap loop at index [i]. *)
Definition restStep (uniqueDayStrings : list Z) (restGaps : list Z) (i : nat)
  : list Z :=
  let newer := ofDateString (nth i uniqueDayStrings 0) in
  let older := ofDateString (nth (i + 1) uniqueDayStrings 0) in
  let diff := differenceInDays tz newer older in
  let gap := diff - 1 in
  if 0 <? gap then restGaps ++ [gap] else restGaps.

(** The loop [for (i = 0; i < uniqueDayStrings.length - 1; i++)]. *)
Definition restGapsOf (uniqueDayStrings : list Z) : list Z :=
  fold_left (restStep uniqueDayStrings)
    (seq 0 (List.length uniqueDayStrings - 1)) [].

(** The memo's body, with the clock reading [new Date()] as the argument
    [now]. *)
Definition computeStats (logs : list (FlightLog N)) (now : Z) : FlightStats N :=
  let validLogs := validLogs logs in
  let nightLogs := nightLogs logs in
  let sortedNightLogs := JsArray.sort byDateDesc nightLogs in
  let sortedLogs := JsArray.sort byDateDesc validLogs in
  let allCounts := getCounts now sortedLogs in
  let soloCounts := getCounts now (filter isSingle sortedLogs) in
  let multiCounts := getCounts now (filter isMulti sortedLogs) in
  let hoursToday := sumHours (filter (inToday now) sortedLogs) in
  let hoursThisWeek := sumHours (filter (inWeek now) sortedLogs) in
  let hoursThisMonth := sumHours (filter (inMonth now) sortedLogs) in
  let hoursThisYear := sumHours (filter (inYear now) sortedLogs) in
  let totalHours := sumHours validLogs in
  let avgDuration :=
    if 0 <? JsArray.length validLogs
    then num_div_length totalHours (JsArray.length validLogs)
    else num_zero in
  let durations := map flightTime validLogs in
  let maxDuration :=
    match durations with
    | d :: ds => fold_left num_max ds d
    | [] => num_zero
    end in
  let minDuration :=
    match durations with
    | d :: ds => fold_left num_min ds d
    | [] => num_zero
    end in
  let daysSinceLastFlight :=
    match sortedLogs with
    | l0 :: _ => differenceInDays tz now (date l0)
    | [] => 0
    end in
  let daysSinceLastIncident :=
    match sortedNightLogs with
    | l0 :: _ => differenceInDays tz now (date l0)
    | [] => -1
    end in
  let uniqueDayStrings := uniqueDayStrings logs in
  let streakLengths := streakLengthsOf uniqueDayStrings in
  let currentActiveStreak :=
    match uniqueDayStrings with
    | key0 :: _ =>
        let lastFlightDate := ofDateString key0 in
        let diffFromNow := differenceInDays tz now lastFlightDate in
        if diffFromNow <=? 1 then
          match streakLengths with
          | s0 :: _ => s0
          | [] => 0
          end
        else 0
    | [] => 0
    end in
  let maxStreak :=
    match streakLengths with
    | s :: ss => JsArray.Math_max s ss
    | [] => 0
    end in
  let validStreaks := filter (fun s => 0 <? s) streakLengths in
  let minStreak :=
    match validStreaks with
    | s :: ss => JsArray.Math_min s ss
    | [] => 0
    end in
  let streakBreaks := Z.max 0 (JsArray.length validStreaks - 1) in
  let restGaps := restGapsOf uniqueDayStrings in
  let maxRestStreak :=
    match restGaps with
    | g :: gs => JsArray.Math_max g gs
    | [] => 0
    end in
  let minRestStreak :=
    match restGaps with
    | g :: gs => JsArray.Math_min g gs
    | [] => 0
    end in
  let restBreaks := JsArray.length streakLengths in
  {| flightsToday := today allCounts;
     flightsThisWeek := week allCounts;
     flightsThisYear := year allCounts;
     flightsThisMonth := month allCounts;
     hoursToday := hoursToday;
     hoursThisWeek := hoursThisWeek;
     hoursThisMonth := hoursThisMonth;
     hoursThisYear := hoursThisYear;
     soloFlightsToday := today soloCounts;
     soloFlightsThisWeek := week soloCounts;
     soloFlightsThisMonth := month soloCounts;
     soloFlightsThisYear := year soloCounts;
     multiFlightsToday := today multiCounts;
     multiFlightsThisWeek := week multiCounts;
     multiFlightsThisMonth := month multiCounts;
     multiFlightsThisYear := year multiCounts;
     daysSinceLastFlight := daysSinceLastFlight;
     consecutiveDays := currentActiveStreak;
     maxStreak := maxStreak;
     minStreak := minStreak;
     streakBreaks := streakBreaks;
     maxRestStreak := maxRestStreak;
     minRestStreak := minRestStreak;
     restBreaks := restBreaks;
     totalFlights := total allCounts;
     totalSoloFlights := total soloCounts;
     totalMultiFlights := total multiCounts;
     totalHours := totalHours;
     avgDuration := avgDuration;
     maxDuration := maxDuration;
     minDuration := minDuration;
     totalNightFlights := JsArray.length nightLogs;
     daysSinceLastIncident := daysSinceLastIncident |}.

End Engine.

(** * Part II: the vocabulary of the properties *)

(** ** Day keys, runs and rest gaps *)

(** Strictly descending order of a key list. *)
Definition descending (l : list Z) : Prop := StronglySorted Z.gt l.

Section StreakVocabulary.
Import JsDate DateFns.
Variable tz : Z.

(** Whole-day difference between two day keys. *)
Definition wholeDayDiff (newer older : Z) : Z :=
  differenceInDays tz (ofDateString newer) (ofDateString older).

(** The runs of a key list: a difference of exactly 1 to the next key
    continues the run, any other difference closes it. *)
Fixpoint groupRuns (days : list Z) : list (list Z) :=
  match days with
  | [] => []
  | d :: rest =>
      match groupRuns rest with
      | r :: rs =>
          if wholeDayDiff d (hd 0 rest) =? 1 then (d :: r) :: rs
          else [d] :: r :: rs
      | [] => [[d]]
      end
  end.

(** A run: non-empty, each key exactly one day after the next one. *)
Inductive ConsecutiveRun : list Z -> Prop :=
| run_single (d : Z) : ConsecutiveRun [d]
| run_step (d e : Z) (r : list Z) :
    wholeDayDiff d e = 1 -> ConsecutiveRun (e :: r) ->
    ConsecutiveRun (d :: e :: r).

(** Maximality: between the last key of a run and the first key of the next
    run lies a difference larger than 1. *)
Inductive Separated : list (list Z) -> Prop :=
| sep_none : Separated []
| sep_last (r : list Z) : Separated [r]
| sep_step (r1 r2 : list Z) (rs : list (list Z)) :
    1 < wholeDayDiff (last r1 0) (hd 0 r2) ->
    Separated (r2 :: rs) -> Separated (r1 :: r2 :: rs).

(** [runs] splits [days], in order, into maximal runs. *)
Definition RunPartition (days : list Z) (runs : list (list Z)) : Prop :=
  List.concat runs = days /\ Forall ConsecutiveRun runs /\ Separated runs.

(** Adjacent pairs (newer, older) of a key list. *)
Definition adjacentPairs (days : list Z) : list (Z * Z) :=
  combine days (tl days).

(** The rest gaps: over adjacent pairs, the difference minus one where
    that is positive. *)
Definition restGapsSpec (days : list Z) : list Z :=
  filter (fun gap => 0 <? gap)
    (map (fun p => wholeDayDiff (fst p) (snd p) - 1) (adjacentPairs days)).

(** The streak loop from a position on, by recursion on the keys left;
    the state is [(streakLengths, currentStreakRun)]. *)
Fixpoint walk (prev : Z) (rest : list Z) (st : list Z * Z) : list Z * Z :=
  match rest with
  | [] => st
  | d :: rest' =>
      walk d rest'
        (if wholeDayDiff prev d =? 1 then (fst st, snd st + 1)
         else (fst st ++ [snd st], 1))
  end.
End StreakVocabulary.

(** Adding [k] days to the first run length. *)
Definition bump (k : Z) (lens : list Z) : list Z :=
  match lens with
  | n :: ns => (n + k) :: ns
  | [] => []
  end.

(** [m] is the maximum (minimum) of [l], or 0 when [l] is empty. *)
Definition MaxOrZero (l : list Z) (m : Z) : Prop :=
  match l with
  | [] => m = 0
  | _ => In m l /\ forall x, In x l -> x <= m
  end.

Definition MinOrZero (l : list Z) (m : Z) : Prop :=
  match l with
  | [] => m = 0
  | _ => In m l /\ forall x, In x l -> m <= x
  end.

(** ** Periods *)

Section PeriodVocabulary.
Import JsDate DateFns.
Variable tz : Z.

(** The local calendar date (year, month 1..12, day) of an instant. *)
Definition localDate (t : Z) : Z * Z * Z := civil_from_days (localDay tz t).

Definition SameCalendarDay (a b : Z) : Prop := localDate a = localDate b.

Definition SameCalendarMonth (a b : Z) : Prop :=
  fst (fst (localDate a)) = fst (fst (localDate b))
  /\ snd (fst (localDate a)) = snd (fst (localDate b)).

Definition SameCalendarYear (a b : Z) : Prop :=
  fst (fst (localDate a)) = fst (fst (localDate b)).

(** Day number [monday] is a Monday (day 0 was a Thursday). *)
Definition IsMonday (monday : Z) : Prop := (monday + 4) mod 7 = 1.

(** Both instants fall into the same block of seven local days that starts
    on a Monday. *)
Definition SameWeekFromMonday (a b : Z) : Prop :=
  exists monday,
    IsMonday monday
    /\ monday <= localDay tz a < monday + 7
    /\ monday <= localDay tz b < monday + 7.
End PeriodVocabulary.

(** The Monday on or before a day. *)
Definition mondayOf (day : Z) : Z :=
  day - ((if (day + 4) mod 7 <? 1 then 7 else 0) + (day + 4) mod 7 - 1).

(** Number of entries of [dataset] that pass the test [p]. *)
Definition countIn {A : Type} (p : A -> bool) (dataset : list A) : Z :=
  JsArray.length (filter p dataset).

(** ** The calendar *)

(** Year of a day number. *)
Definition yearOf (day : Z) : Z := fst (fst (JsDate.civil_from_days day)).

(** Day numbers whose year has four digits. *)
Definition fourDigitYear (day : Z) : Prop := 0 <= yearOf day <= 9999.

(** Lexicographic order of dates: the order of their texts "YYYY-MM-DD". *)
Definition date_lt (a b : Z * Z * Z) : Prop :=
  let '(y1, m1, d1) := a in
  let '(y2, m2, d2) := b in
  y1 < y2 \/ (y1 = y2 /\ (m1 < m2 \/ (m1 = m2 /\ d1 < d2))).

(** The steps of [civil_from_days] on the day of the era [doe] and the day
    of the year [doy] (years start on 1 March). *)
Definition yoe_of (doe : Z) : Z :=
  (doe - doe / 1460 + doe / 36524 - doe / 146096) / 365.
Definition doy_of (doe : Z) : Z :=
  doe - (365 * yoe_of doe + yoe_of doe / 4 - yoe_of doe / 100).
Definition mp_of (doy : Z) : Z := (5 * doy + 2) / 153.
Definition dom_of (doy : Z) : Z := doy - (153 * mp_of doy + 2) / 5 + 1.

(** The date of era [era], year of era [yoe], month [mp] counted from March
    and day of the month [d]. *)
Definition assemble (era yoe mp d : Z) : Z * Z * Z :=
  let m := if mp <? 10 then mp + 3 else mp - 9 in
  (if m <=? 2 then yoe + era * 400 + 1 else yoe + era * 400, m, d).

(** ** Results *)

(** [s] with its two incident fields replaced. *)
Definition withIncidentFields {N : Type} (s : FlightStats N)
  (count daysSince : Z) : FlightStats N :=
  {| flightsToday := flightsToday s;
     flightsThisWeek := flightsThisWeek s;
     flightsThisYear := flightsThisYear s;
     flightsThisMonth := flightsThisMonth s;
     hoursToday := hoursToday s;
     hoursThisWeek := hoursThisWeek s;
     hoursThisMonth := hoursThisMonth s;
     hoursThisYear := hoursThisYear s;
     soloFlightsToday := soloFlightsToday s;
     soloFlightsThisWeek := soloFlightsThisWeek s;
     soloFlightsThisMonth := soloFlightsThisMonth s;
     soloFlightsThisYear := soloFlightsThisYear s;
     multiFlightsToday := multiFlightsToday s;
     multiFlightsThisWeek := multiFlightsThisWeek s;
     multiFlightsThisMonth := multiFlightsThisMonth s;
     multiFlightsThisYear := multiFlightsThisYear s;
     daysSinceLastFlight := daysSinceLastFlight s;
     consecutiveDays := consecutiveDays s;
     maxStreak := maxStreak s;
     minStreak := minStreak s;
     streakBreaks := streakBreaks s;
     maxRestStreak := maxRestStreak s;
     minRestStreak := minRestStreak s;
     restBreaks := restBreaks s;
     totalFlights := totalFlights s;
     totalSoloFlights := totalSoloFlights s;
     totalMultiFlights := totalMultiFlights s;
     totalHours := totalHours s;
     avgDuration := avgDuration s;
     maxDuration := maxDuration s;
     minDuration := minDuration s;
     totalNightFlights := count;
     daysSinceLastIncident := daysSince |}.

(** ** Orders on durations *)

(** An order [le] under which adding non-negative durations is monotone.
    Exact addition is ([Qle_monotone] below), and so is binary64 addition
    ([float_le_monotone]). *)
Record MonotoneAddition {N : Type} `{JsNumber N} (le : N -> N -> Prop)
  : Prop := {
  zero_le_zero : le num_zero num_zero;
  le_transitive : forall a b c, le a b -> le b c -> le a c;
  le_add_nonneg :
    forall a x, le num_zero a -> le num_zero x -> le a (num_add a x);
  add_le_mono :
    forall a b x, le num_zero a -> le a b -> le num_zero x ->
                  le (num_add a x) (num_add b x)
}.

(** The order [<=] of binary64 numbers; it holds of no pair with a NaN. *)
Definition float_le (a b : float) : Prop := PrimFloat.leb a b = true.

(** The sum of a list of rationals. *)
Fixpoint qsum (l : list Q) : Q :=
  match l with
  | [] => 0%Q
  | x :: xs => (x + qsum xs)%Q
  end.

(** ** Sample inputs *)

(** A log entry with the fields the engine does not read left blank. *)
Definition entry {N : Type} (ty : FlightType) (d : Z) (h : N) : FlightLog N :=
  {| id := String.EmptyString; date := d; type := ty; flightTime := h;
     ratings := {| preFlight := 0; inFlight := 0; postFlight := 0 |};
     mood := None; notes := String.EmptyString; createdAt := d;
     departure := None; arrival := None; aircraftType := None |}.

(** UTC+8 (Asia/Shanghai), in milliseconds. *)
Definition UTC_plus_8 : Z := 28800000.

(** One solo entry of half an hour at 12:00 UTC of each given day of
    January 2024 (20:00 local time in UTC+8). *)
Definition january_2024 (days : list Z) : list (FlightLog float) :=
  map (fun day => entry single (JsDate.UTC 2024 0 day 12 0) 0.5%float) days.

(** Three solo entries of 0.3 h, 0.2 h and 0.1 h, recorded for 1, 2 and 3
    January 2024 (12:00 UTC) and stored oldest first. *)
Definition rounding_logs : list (FlightLog float) :=
  [ entry single (JsDate.UTC 2024 0 1 12 0) 0.3%float;
    entry single (JsDate.UTC 2024 0 2 12 0) 0.2%float;
    entry single (JsDate.UTC 2024 0 3 12 0) 0.1%float ].

(** The same entries with exact durations. *)
Definition exact_logs : list (FlightLog Q) :=
  [ entry single (JsDate.UTC 2024 0 1 12 0) (3 # 10)%Q;
    entry single (JsDate.UTC 2024 0 2 12 0) (2 # 10)%Q;
    entry single (JsDate.UTC 2024 0 3 12 0) (1 # 10)%Q ].

(** Ten solo entries of 0.1 h each, one per day from 1 to 10 January 2024
    (12:00 UTC), most recent first. *)
Definition tenth_logs : list (FlightLog float) :=
  map (fun day => entry single (JsDate.UTC 2024 0 day 12 0) 0.1%float)
      [10; 9; 8; 7; 6; 5; 4; 3; 2; 1].

(** The same entries with exact durations. *)
Definition exact_tenth_logs : list (FlightLog Q) :=
  map (fun day => entry single (JsDate.UTC 2024 0 day 12 0) (1 # 10)%Q)
      [10; 9; 8; 7; 6; 5; 4; 3; 2; 1].

(** Two solo entries recorded in UTC+8 on 2 January 2024, at 09:00 and at
    07:00 local time (2024-01-02T01:00Z and 2024-01-01T23:00Z). *)
Definition same_local_day_logs : list (FlightLog float) :=
  [ entry single (JsDate.UTC 2024 0 2 1 0) 0.5%float;
    entry single (JsDate.UTC 2024 0 1 23 0) 0.5%float ].

(** One solo entry recorded in UTC+8 on 2 January 2024 at 07:00 local
    time. *)
Definition early_morning_log : list (FlightLog float) :=
  [ entry single (JsDate.UTC 2024 0 1 23 0) 0.5%float ].

(** A solo entry, a shared entry and an incident. *)
Definition mixed_logs : list (FlightLog float) :=
  [ entry single (JsDate.UTC 2024 0 3 12 0) 1.5%float;
    entry night (JsDate.UTC 2024 0 2 18 0) 0%float;
    entry multi (JsDate.UTC 2024 0 1 12 0) 0.75%float ].

(** * The code around the engine: calendar, recorder and dashboard *)

(** ** Writing to a [Date] *)

Module JsDateFields.
Import JsDate.

(** ECMAScript [MakeDay(year, month, date)]: the day number of day [date]
    of the month with 0-based index [month] of [year]; a month index
    outside 0..11 carries into the year, a day outside the month into the
    neighbouring months. *)
Definition MakeDay (year month date : Z) : Z :=
  days_from_civil (year + month / 12) (month mod 12 + 1) 1 + date - 1.

(** ECMAScript [MakeTime(hour, min, sec, ms)]. *)
Definition MakeTime (hour min sec ms : Z) : Z :=
  hour * 3600000 + min * 60000 + sec * 1000 + ms.

Section LocalTime.
Variable tz : Z.

(** Day of the month, 1..31. *)
Definition getDate (t : Z) : Z :=
  let '(_, _, d) := civil_from_days (localDay tz t) in d.

Definition getHours (t : Z) : Z := localMsOfDay tz t / 3600000.
Definition getMinutes (t : Z) : Z := localMsOfDay tz t / 60000 mod 60.
Definition getSeconds (t : Z) : Z := localMsOfDay tz t / 1000 mod 60.
Definition getMilliseconds (t : Z) : Z := localMsOfDay tz t mod 1000.

(** [t.setDate(date)]: the time within the day is kept. *)
Definition setDate (t date : Z) : Z :=
  MakeDay (getFullYear tz t) (getMonth tz t) date * MS_PER_DAY
  + localMsOfDay tz t - tz.

(** [t.setMonth(month, date)] *)
Definition setMonth (t month date : Z) : Z :=
  MakeDay (getFullYear tz t) month date * MS_PER_DAY + localMsOfDay tz t - tz.

(** [t.setFullYear(year, month, date)] *)
Definition setFullYear (t year month date : Z) : Z :=
  MakeDay year month date * MS_PER_DAY + localMsOfDay tz t - tz.

(** [t.setHours(hour, min, sec, ms)]: the day is kept. *)
Definition setHours (t hour min sec ms : Z) : Z :=
  localDay tz t * MS_PER_DAY + MakeTime hour min sec ms - tz.

(** [t.toDateString()], e.g. "Tue Jan 02 2024": the text is represented by
    the weekday and the local calendar date it spells out. *)
Definition toDateString (t : Z) : Z * (Z * Z * Z) :=
  (getDay tz t, civil_from_days (localDay tz t)).
End LocalTime.

End JsDateFields.

(** ** date-fns: months, weeks and intervals *)

Module DateFnsCalendar.
Import JsDate JsDateFields DateFns.

Section LocalTime.
Variable tz : Z.

Definition startOfMonth (t : Z) : Z :=
  setHours tz (setDate tz t 1) 0 0 0 0.

Definition endOfMonth (t : Z) : Z :=
  let month := getMonth tz t in
  setHours tz (setFullYear tz t (getFullYear tz t) (month + 1) 0) 23 59 59 999.

(** [endOfWeek(t, { weekStartsOn })] *)
Definition endOfWeek (weekStartsOn : Z) (t : Z) : Z :=
  let day := getDay tz t in
  let diff := (if day <? weekStartsOn then -7 else 0)
              + 6 - (day - weekStartsOn) in
  setHours tz (setDate tz t (getDate tz t + diff)) 23 59 59 999.

(** The loop of [eachDayOfInterval]:
    [while (+currentDate <= endTime) { dates.push(toDate(currentDate));
       currentDate.setDate(currentDate.getDate() + 1);
       currentDate.setHours(0, 0, 0, 0) }].
    [fuel] bounds the number of tests of the condition; [None] means that
    the bound was too small. *)
Fixpoint eachDayLoop (fuel : nat) (currentDate endTime : Z) (dates : list Z)
  : option (list Z) :=
  match fuel with
  | O => None
  | S fuel' =>
      if currentDate <=? endTime then
        eachDayLoop fuel'
          (setHours tz (setDate tz currentDate (getDate tz currentDate + 1))
             0 0 0 0)
          endTime (dates ++ [currentDate])
      else Some dates
  end.

(** [eachDayOfInterval({ start, end })] for an interval in order (as both
    call sites pass it): the local midnights of the days from [start] to
    [end].  The loop is given one test per day of the interval and one
    more. *)
Definition eachDayOfInterval (start end_ : Z) : option (list Z) :=
  let endTime := end_ in
  let currentDate := setHours tz start 0 0 0 0 in
  eachDayLoop (S (Z.to_nat ((endTime - currentDate) / MS_PER_DAY + 1)))
    currentDate endTime [].

(** [addMonths(t, amount)]: the day of the month is kept where the target
    month has it, and is the last day of the target month otherwise. *)
Definition addMonths (t amount : Z) : Z :=
  if amount =? 0 then t
  else
    let dayOfMonth := getDate tz t in
    let endOfDesiredMonth := setMonth tz t (getMonth tz t + amount + 1) 0 in
    let daysInMonth := getDate tz endOfDesiredMonth in
    if daysInMonth <=? dayOfMonth then endOfDesiredMonth
    else setFullYear tz t (getFullYear tz endOfDesiredMonth)
           (getMonth tz endOfDesiredMonth) dayOfMonth.

Definition subMonths (t amount : Z) : Z := addMonths t (- amount).
End LocalTime.

End DateFnsCalendar.

(** ** The calendar view ([components/FlightList.tsx]) *)

Section FlightList.
Import JsDate DateFns DateFnsCalendar.
Variable tz : Z.
Context {N : Type}.

(** The [calendarDays] memo; the date picker of
    [components/FlightRecorder.tsx] computes its grid by the same
    expression. *)
Definition calendarDays (currentMonth : Z) : option (list Z) :=
  let start := startOfWeek tz 1 (startOfMonth tz currentMonth) in
  let end_ := endOfWeek tz 1 (endOfMonth tz currentMonth) in
  eachDayOfInterval tz start end_.

(** [logs.filter(log => isSameDay(new Date(log.date), date))] *)
Definition getLogsForDate (logs : list (FlightLog N)) (date_ : Z)
  : list (FlightLog N) :=
  filter (fun log => isSameDay tz (date log) date_) logs.

(** The [selectedDateLogs] memo. *)
Definition selectedDateLogs (logs : list (FlightLog N)) (selectedDate : Z)
  : list (FlightLog N) :=
  JsArray.sort byDateDesc
    (filter (fun log => isSameDay tz (date log) selectedDate) logs).

Definition nextMonth (currentMonth : Z) : Z := addMonths tz currentMonth 1.
Definition prevMonth (currentMonth : Z) : Z := subMonths tz currentMonth 1.
End FlightList.

(** Vocabulary *)

(** The (year, month 1..12) of a day number. *)
Definition monthOf (day : Z) : Z * Z := fst (JsDate.civil_from_days day).

(** Day number of the first day of a month. *)
Definition monthStart (ym : Z * Z) : Z :=
  JsDate.days_from_civil (fst ym) (snd ym) 1.

(** The month after a month. *)
Definition monthAfter (ym : Z * Z) : Z * Z :=
  if snd ym =? 12 then (fst ym + 1, 1) else (fst ym, snd ym + 1).

(** The month before a month. *)
Definition monthBefore (ym : Z * Z) : Z * Z :=
  if snd ym =? 1 then (fst ym - 1, 12) else (fst ym, snd ym - 1).

(** Number of days of a month. *)
Definition monthLength (ym : Z * Z) : Z :=
  monthStart (monthAfter ym) - monthStart ym.

(** The grid of a month: the day number of its first cell (the Monday on
    or before the first day of the month), the number of leading cells that
    belong to the month before, and the number of cells (up to the Sunday
    on or after the last day of the month). *)
Definition gridFirst (ym : Z * Z) : Z := mondayOf (monthStart ym).
Definition gridLead (ym : Z * Z) : Z := monthStart ym - gridFirst ym.
Definition gridCells (ym : Z * Z) : Z :=
  mondayOf (monthStart (monthAfter ym) - 1) + 7 - gridFirst ym.

(** The local midnight of day number [day]. *)
Definition midnightOf (tz day : Z) : Z := day * JsDate.MS_PER_DAY - tz.

(** The month [k] months after a month ([k] may be negative). *)
Definition monthShift (ym : Z * Z) (k : Z) : Z * Z :=
  (fst ym + (snd ym - 1 + k) / 12, (snd ym - 1 + k) mod 12 + 1).

(** ** Saving an entry ([App.tsx], [handleSaveLog]) *)

(** [const updatedLogs = [log, ...logs]]: the list that becomes the state
    and is written to the storage. *)
Definition handleSaveLog {N : Type} (log : FlightLog N)
  (logs : list (FlightLog N)) : list (FlightLog N) :=
  log :: logs.

(** ** The recorder ([components/FlightRecorder.tsx]) *)

Section FlightRecorder.
Import JsDate JsDateFields.
Variable tz : Z.

(** Equality of two [toDateString()] texts. *)
Definition sameDateString (a b : Z * (Z * Z * Z)) : bool :=
  let '(wa, (ya, ma, da)) := a in
  let '(wb, (yb, mb, db)) := b in
  (wa =? wb) && (ya =? yb) && (ma =? mb) && (da =? db).

(** The timestamp that [handleManualSave] gives the entry: the selected
    day, at the current time of the day when the selected day is today
    and at noon otherwise.  [now] and [now'] are the two readings of the
    clock ([new Date()]) of the function, in this order. *)
Definition manualEntryDate (manualDate now now' : Z) : Z :=
  let date_ := manualDate in
  if sameDateString (toDateString tz now) (toDateString tz date_)
  then setHours tz date_ (getHours tz now') (getMinutes tz now')
         (getSeconds tz now') (getMilliseconds tz date_)
  else setHours tz date_ 12 0 0 0.
End FlightRecorder.

(** ** Rounding and printing binary64 numbers *)

Module Binary64Math.

(** The exact value of a finite number: [(m, e)] stands for [m * 2 ^ e].
    NaN and the infinities have none. *)
Definition exactValue (x : float) : option (Z * Z) :=
  match Prim2SF x with
  | S754_zero _ => Some (0, 0)
  | S754_finite s m e => Some (if s then Z.neg m else Z.pos m, e)
  | S754_infinity _ => None
  | S754_nan => None
  end.

(** [floor (m * 2 ^ e * scale + 1/2)]: the integer nearest to the scaled
    value, the larger one of two nearest. *)
Definition roundHalfUp (scale : Z) (v : Z * Z) : Z :=
  let '(m, e) := v in
  if 0 <=? e then Z.shiftl (m * scale) e
  else Z.shiftr (2 * m * scale + Z.shiftl 1 (- e)) (1 - e).

(** [Math.round(x)] of a finite number, as an integer. *)
Definition Math_round (x : float) : option Z :=
  option_map (roundHalfUp 1) (exactValue x).

(** The integer [n] as a number; exact for [0 <= n < 2 ^ 53]. *)
Definition ofInteger (n : Z) : float := PrimFloat.of_uint63 (Uint63.of_Z n).

(** [x.toFixed(4)] for a finite [x >= 0]: the decimal text with four
    fraction digits whose value [n / 10 ^ 4] is nearest to [x] (the larger
    [n] of two nearest).  The text is represented by [n]; texts from
    [2 ^ 53 / 10 ^ 4] on (and those of negative numbers, NaN and the
    infinities) are not modelled. *)
Definition toFixed4 (x : float) : option Z :=
  match exactValue x with
  | Some v =>
      let n := roundHalfUp 10000 v in
      if (0 <=? fst v) && (n <? 2 ^ 53) then Some n else None
  | None => None
  end.

(** [parseFloat(text)] for the text of [n / 10 ^ 4]: the number nearest to
    that value.  The division of the two integers is rounded once, to the
    nearest number. *)
Definition parseFixed4 (n : Z) : float :=
  (ofInteger n / ofInteger 10000)%float.

End Binary64Math.

(** [flightTime: parseFloat(hours.toFixed(4))] with
    [hours = seconds / 3600], as [handleTimerSave] and [handleManualSave]
    store the duration of a recording of [seconds] seconds. *)
Definition flightTimeOfSeconds (seconds : Z) : option float :=
  let hours :=
    (Binary64Math.ofInteger seconds / Binary64Math.ofInteger 3600)%float in
  option_map Binary64Math.parseFixed4 (Binary64Math.toFixed4 hours).

(** [Math.round(hours * 3600)], the seconds that [formatDurationLog]
    prints. *)
Definition shownSeconds (hours : float) : option Z :=
  Binary64Math.Math_round (hours * Binary64Math.ofInteger 3600)%float.

Fixpoint holdsFrom (p : Z -> bool) (first : Z) (count : nat) : bool :=
  match count with
  | O => true
  | S count' => p first && holdsFrom p (first + 1) count'
  end.

Definition roundTripAt (seconds : Z) : bool :=
  match flightTimeOfSeconds seconds with
  | Some flightTime =>
      match shownSeconds flightTime with
      | Some shown => shown =? seconds
      | None => false
      end
  | None => false
  end.

(** ** Printing integers *)

(** [n.toString()] for an integer [n]: its decimal digits, after a minus
    sign when it is negative. *)
Definition Number_toString (n : Z) : String.string :=
  DecimalString.NilZero.string_of_int (Z.to_int n).

Section Formats.
Import String.
Local Open Scope string_scope.
Local Open Scope Z_scope.

(** [s.padStart(2, '0')] *)
Definition padStart2 (s : string) : string :=
  match String.length s with
  | O => "00"
  | S O => "0" ++ s
  | _ => s
  end.

(** [formatTime] of [components/FlightRecorder.tsx], on a whole number of
    seconds (the timer counts them): "MM:SS" below one hour and
    "H:MM:SS" from one hour on. *)
Definition formatTime (totalSeconds : Z) : string :=
  let m := totalSeconds / 60 in
  let s := Z.rem totalSeconds 60 in
  if 60 <=? m then
    let h := m / 60 in
    let remM := Z.rem m 60 in
    Number_toString h ++ ":" ++ padStart2 (Number_toString remM) ++ ":"
    ++ padStart2 (Number_toString s)
  else
    padStart2 (Number_toString m) ++ ":" ++ padStart2 (Number_toString s).

(** [formatDurationLog] of [components/FlightList.tsx]: minutes and
    seconds of the duration rounded to whole seconds; [None] when the
    number of hours is NaN or infinite.  The two characters after the
    numbers stand for "minutes" and "seconds"; the text is held in
    UTF-8. *)
Definition formatDurationLog (hours : float) : option string :=
  match shownSeconds hours with
  | Some totalSeconds =>
      let m := totalSeconds / 60 in
      let s := Z.rem totalSeconds 60 in
      Some (Number_toString m ++ "分" ++ padStart2 (Number_toString s)
            ++ "秒")
  | None => None
  end.
(** [padStart2] of the digits of [n] gives the two digits of [n]; checked
    for the numbers below 100. *)
Definition twoDigitsAt (n : Z) : bool :=
  String.eqb (padStart2 (Number_toString n)) (JsDate.pad2 n "").

End Formats.

(** ** Saving a recording ([components/FlightRecorder.tsx]) *)

Section Recorder.
Import String.
Local Open Scope string_scope.
Local Open Scope Z_scope.
Variable tz : Z.

(** [handleManualSave]; [uuid] is the identifier that [uuidv4()] returns,
    [now] and [now'] are the two clock readings [new Date()] and
    [createdAt] the reading [Date.now()].  The result is the entry passed
    to [onSave]; [None] when the duration is outside the modelled range
    of [toFixed]. *)
Definition handleManualSave (flightType : FlightType)
  (manualDate manualMinutes manualSeconds : Z)
  (ratings : FlightRatings) (mood : option MoodType) (notes : string)
  (uuid : string) (now now' createdAt : Z) : option (FlightLog float) :=
  let totalSeconds :=
    match flightType with
    | night => 0
    | _ => manualMinutes * 60 + manualSeconds
    end in
  let date_ := manualEntryDate tz manualDate now now' in
  match flightTimeOfSeconds totalSeconds with
  | Some hours =>
      Some {| id := uuid; date := date_; type := flightType;
              flightTime := hours; ratings := ratings; mood := mood;
              notes := notes; createdAt := createdAt;
              departure := Some "FLY"; arrival := Some "LAND";
              aircraftType := Some "AUTO" |}
  | None => None
  end.

(** [startTime || Date.now()] *)
Definition startTimeOr (startTime : option Z) (now : Z) : Z :=
  match startTime with
  | Some t => if t =? 0 then now else t
  | None => now
  end.

(** [handleTimerSave]; [now] and [createdAt] are the two readings of
    [Date.now()]. *)
Definition handleTimerSave (flightType : FlightType)
  (startTime : option Z) (elapsedSeconds : Z)
  (ratings : FlightRatings) (mood : option MoodType) (notes : string)
  (uuid : string) (now createdAt : Z) : option (FlightLog float) :=
  match flightTimeOfSeconds elapsedSeconds with
  | Some hours =>
      Some {| id := uuid; date := startTimeOr startTime now;
              type := flightType;
              flightTime := hours; ratings := ratings; mood := mood;
              notes := notes; createdAt := createdAt;
              departure := Some "FLY"; arrival := Some "LAND";
              aircraftType := Some "AUTO" |}
  | None => None
  end.
End Recorder.

(** The sum of a list of integers. *)
Definition zsum (l : list Z) : Z := fold_right Z.add 0 l.

(** The integer fields of a result, in the order of [FlightStats]. *)
Definition integerFields {N : Type} (s : FlightStats N) : list Z :=
  [ flightsToday s; flightsThisWeek s; flightsThisYear s; flightsThisMonth s;
    soloFlightsToday s; soloFlightsThisWeek s; soloFlightsThisMonth s;
    soloFlightsThisYear s;
    multiFlightsToday s; multiFlightsThisWeek s; multiFlightsThisMonth s;
    multiFlightsThisYear s;
    daysSinceLastFlight s;
    consecutiveDays s; maxStreak s; minStreak s; streakBreaks s;
    maxRestStreak s; minRestStreak s; restBreaks s;
    totalFlights s; totalSoloFlights s; totalMultiFlights s;
    totalNightFlights s; daysSinceLastIncident s ].

(** ** The dashboard ([components/Navbar.tsx], from [Dashboard] on) *)

Module Dashboard.
Import String.
Local Open Scope string_scope.
Local Open Scope list_scope.
Local Open Scope Z_scope.

(** A widget; [type] is one of the strings of [WidgetType], [customHue]
    is absent ([undefined]) or a hue. *)
Record Widget : Type := {
  id : string;
  type : string;
  customHue : option Z
}.

(** The strings of the union type [WidgetType], in the order of its
    declaration. *)
Definition WidgetType : list string :=
  [ "flightsToday"; "flightsWeek"; "flightsYear"; "flightsMonth";
    "totalFlights";
    "hoursToday"; "hoursWeek"; "hoursMonth"; "hoursYear"; "totalHours";
    "avgDuration"; "maxDuration"; "minDuration";
    "soloFlightsToday"; "soloFlightsWeek"; "soloFlightsMonth";
    "soloFlightsYear"; "totalSoloFlights";
    "multiFlightsToday"; "multiFlightsWeek"; "multiFlightsMonth";
    "multiFlightsYear"; "totalMultiFlights";
    "currentStreak"; "maxStreak"; "minStreak"; "streakBreaks";
    "currentRest"; "maxRest"; "minRest"; "restBreaks";
    "nightCount"; "daysSinceLastIncident";
    "streak"; "soloCount"; "multiCount" ].

Definition DEFAULT_WIDGETS : list Widget :=
  [ {| id := "1"; type := "flightsWeek"; customHue := None |};
    {| id := "2"; type := "currentStreak"; customHue := None |};
    {| id := "3"; type := "currentRest"; customHue := None |} ].

(** [array.includes(x)] on strings. *)
Definition includes (array : list string) (x : string) : bool :=
  existsb (String.eqb x) array.

(** The migration of one widget, applied to each stored widget when the
    state is initialised. *)
Definition migrate (w : Widget) : Widget :=
  if String.eqb (type w) "soloCount"
  then {| id := id w; type := "totalSoloFlights"; customHue := customHue w |}
  else if String.eqb (type w) "multiCount"
  then {| id := id w; type := "totalMultiFlights"; customHue := customHue w |}
  else if String.eqb (type w) "streak"
  then {| id := id w; type := "currentStreak"; customHue := customHue w |}
  else w.

(** The initial state, from the widgets read from the storage ([None]:
    nothing was stored). *)
Definition initialWidgets (saved : option (list Widget)) : list Widget :=
  let parsed := match saved with Some ws => ws | None => DEFAULT_WIDGETS end in
  map migrate parsed.

(** [addWidget]; [uuid] is the identifier that [uuidv4()] returns. *)
Definition addWidget (widgets : list Widget) (uuid : string)
  (type_ : string) : list Widget :=
  widgets ++ [ {| id := uuid; type := type_; customHue := None |} ].

Definition removeWidget (widgets : list Widget) (id_ : string) : list Widget :=
  filter (fun w => negb (String.eqb (id w) id_)) widgets.

Definition updateWidgetType (widgets : list Widget) (id_ newType : string)
  : list Widget :=
  map (fun w => if String.eqb (id w) id_
                then {| id := id w; type := newType;
                        customHue := customHue w |}
                else w) widgets.

Definition updateWidgetHue (widgets : list Widget) (id_ : string)
  (hue : option Z) : list Widget :=
  map (fun w => if String.eqb (id w) id_
                then {| id := id w; type := type w; customHue := hue |}
                else w) widgets.

(** [array.findIndex(p)]: the first index whose element passes, or -1. *)
Fixpoint findIndex {A : Type} (p : A -> bool) (array : list A) : Z :=
  match array with
  | [] => -1
  | x :: xs =>
      if p x then 0
      else let i := findIndex p xs in if i <? 0 then -1 else i + 1
  end.

(** [array.splice(start, 1)] for an index of the array: the array
    without the element, and the removed elements. *)
Definition spliceOut {A : Type} (array : list A) (start : Z)
  : list A * list A :=
  (firstn (Z.to_nat start) array ++ skipn (S (Z.to_nat start)) array,
   firstn 1 (skipn (Z.to_nat start) array)).

(** [array.splice(start, 0, item)] for [0 <= start]: the item is inserted
    before index [start], or at the end when the array is shorter. *)
Definition spliceIn {A : Type} (array : list A) (start : Z) (item : A)
  : list A :=
  firstn (Z.to_nat start) array ++ item :: skipn (Z.to_nat start) array.

(** [handleDragOver]: the widget list that is set, or [None] when the
    handler returns without setting one.  [draggedId] is [None] when no
    widget is dragged. *)
Definition handleDragOver (widgets : list Widget)
  (draggedId : option string) (targetId : string) : option (list Widget) :=
  match draggedId with
  | None => None
  | Some draggedId =>
      if String.eqb draggedId "" || String.eqb draggedId targetId then None
      else
        let draggedIndex :=
          findIndex (fun w => String.eqb (id w) draggedId) widgets in
        let targetIndex :=
          findIndex (fun w => String.eqb (id w) targetId) widgets in
        if (draggedIndex =? -1) || (targetIndex =? -1) then None
        else
          let '(newWidgets, removed) := spliceOut widgets draggedIndex in
          match removed with
          | draggedItem :: _ =>
              Some (spliceIn newWidgets targetIndex draggedItem)
          | [] => None
          end
  end.

Definition flightCountTypes : list string :=
  ["flightsYear"; "flightsMonth"; "flightsWeek"; "flightsToday";
   "totalFlights"].
Definition flightDurationTypes : list string :=
  ["hoursYear"; "hoursMonth"; "hoursWeek"; "hoursToday"; "totalHours"].
Definition soloTypes : list string :=
  ["soloFlightsToday"; "soloFlightsWeek"; "soloFlightsMonth";
   "soloFlightsYear"; "totalSoloFlights"].
Definition multiTypes : list string :=
  ["multiFlightsToday"; "multiFlightsWeek"; "multiFlightsMonth";
   "multiFlightsYear"; "totalMultiFlights"].
Definition streakTypes : list string :=
  ["currentStreak"; "maxStreak"; "minStreak"; "streakBreaks"; "streak"].
Definition restTypes : list string :=
  ["currentRest"; "maxRest"; "minRest"; "restBreaks"].
Definition efficiencyTypes : list string :=
  ["avgDuration"; "maxDuration"; "minDuration"].
Definition accidentTypes : list string :=
  ["nightCount"; "daysSinceLastIncident"].

Definition interactiveTypes : list string :=
  flightCountTypes ++ flightDurationTypes ++ soloTypes ++ multiTypes
  ++ streakTypes ++ restTypes ++ efficiencyTypes ++ accidentTypes.

(** [handleWidgetClick]: the widget whose detail view is opened
    ([setConfigWidgetId]), if any. *)
Definition handleWidgetClick (isEditMode : bool) (widget : Widget)
  : option string :=
  if isEditMode then None
  else if includes interactiveTypes (type widget) then Some (id widget)
  else None.

(** The titles of the detail view, in the order of [getModalHeader]; the
    last one is the fallback. *)
Inductive ModalTitle : Type :=
| FlightCountDetails | DurationDetails | SoloDetails | MultiDetails
| StreakDetails | RestDetails | EfficiencyDetails | AccidentDetails
| Details.

(** [getModalHeader] for the type of the configured widget. *)
Definition getModalHeader (currentConfigType : string) : ModalTitle :=
  if includes ["flightsToday"; "flightsWeek"; "flightsMonth"; "flightsYear";
               "totalFlights"] currentConfigType
  then FlightCountDetails
  else if includes ["hoursToday"; "hoursWeek"; "hoursMonth"; "hoursYear";
                    "totalHours"] currentConfigType
  then DurationDetails
  else if includes ["soloFlightsToday"; "soloFlightsWeek"; "soloFlightsMonth";
                    "soloFlightsYear"; "totalSoloFlights"; "soloCount"]
            currentConfigType
  then SoloDetails
  else if includes ["multiFlightsToday"; "multiFlightsWeek";
                    "multiFlightsMonth"; "multiFlightsYear";
                    "totalMultiFlights"; "multiCount"] currentConfigType
  then MultiDetails
  else if includes ["currentStreak"; "maxStreak"; "minStreak"; "streakBreaks";
                    "streak"] currentConfigType
  then StreakDetails
  else if includes ["currentRest"; "maxRest"; "minRest"; "restBreaks"]
            currentConfigType
  then RestDetails
  else if includes ["avgDuration"; "maxDuration"; "minDuration"]
            currentConfigType
  then EfficiencyDetails
  else if includes ["nightCount"; "daysSinceLastIncident"] currentConfigType
  then AccidentDetails
  else Details.

(** The greeting of the hero card: "welcome back" when
    [stats.daysSinceLastFlight === 0], "ready for take-off?" otherwise. *)
Inductive Greeting : Type := WelcomeBack | ReadyForTakeoff.

Definition greeting {N : Type} (stats : FlightStats N) : Greeting :=
  if daysSinceLastFlight stats =? 0 then WelcomeBack else ReadyForTakeoff.

(** The value of the card "days since the last incident":
    [stats.totalNightFlights > 0 ? stats.daysSinceLastIncident : placeholder];
    [None] stands for the placeholder text. *)
Definition incidentVal {N : Type} (stats : FlightStats N) : option Z :=
  if 0 <? totalNightFlights stats then Some (daysSinceLastIncident stats)
  else None.

End Dashboard.

(** ** The fields the engine reads *)

(** Two entries that agree in the three fields the engine reads. *)
Definition sameReadFields {N : Type} (a b : FlightLog N) : Prop :=
  date a = date b /\ type a = type b /\ flightTime a = flightTime b.

(** The entry reduced to the fields the engine reads. *)
Definition readFields {N : Type} (l : FlightLog N) : FlightLog N :=
  entry (type l) (date l) (flightTime l).

Section SampleEntries.
Import String.
Local Open Scope string_scope.

(** The entry of [early_morning_log] under another identifier and with
    notes, ratings and a mood. *)
Definition annotated_morning_log : list (FlightLog float) :=
  [ {| id := "b"; date := JsDate.UTC 2024 0 1 23 0; type := single;
       flightTime := 0.5%float;
       ratings := {| preFlight := 4; inFlight := 5; postFlight := 3 |};
       mood := Some happy; notes := "n";
       createdAt := JsDate.UTC 2024 0 1 23 30;
       departure := Some "FLY"; arrival := Some "LAND";
       aircraftType := Some "AUTO" |} ].
End SampleEntries.

(** ** Host zones with clock changes *)

(** The engine once more, as far as it counts whole days
    ([App.tsx], lines 70-149), for a host zone whose offset from UTC
    depends on the instant (daylight saving).  [computeStats tz] is the
    case of a zone with the constant offset [tz] ([dayStats_fixed]). *)
Module HostZone.
Import JsDate JsDateFields.

(** ECMAScript's [LocalTZA(t, isUTC)] of the host: [offsetAt t] is the
    offset of local time from UTC at the instant [t] ([isUTC] true);
    [offsetOfLocal t] is the offset with which the local time value [t] is
    read ([isUTC] false). *)
Record Zone : Type := {
  offsetAt : Z -> Z;
  offsetOfLocal : Z -> Z
}.

(** A zone without clock changes. *)
Definition fixed (tz : Z) : Zone :=
  {| offsetAt := fun _ => tz; offsetOfLocal := fun _ => tz |}.

(** America/New_York in 2024: UTC-5, and UTC-4 from 10 March, 07:00 UTC, to
    3 November, 06:00 UTC.  A local time that the change of March skips is
    read with the offset before the change, and so is a local time that
    the change of November repeats, as ECMAScript prescribes. *)
Definition America_New_York_2024 : Zone :=
  {| offsetAt := fun t =>
       if (UTC 2024 2 10 7 0 <=? t) && (t <? UTC 2024 10 3 6 0)
       then -14400000 else -18000000;
     offsetOfLocal := fun t =>
       if (UTC 2024 2 10 3 0 <=? t) && (t <? UTC 2024 10 3 2 0)
       then -14400000 else -18000000 |}.

Section InZone.
Variable zone : Zone.

(** ECMAScript [LocalTime(t)] and [UTC(t)]. *)
Definition LocalTime (t : Z) : Z := t + offsetAt zone t.
Definition toUTC (t : Z) : Z := t - offsetOfLocal zone t.

Definition localDay (t : Z) : Z := Day (LocalTime t).
Definition localMsOfDay (t : Z) : Z := LocalTime t mod MS_PER_DAY.

Definition getFullYear (t : Z) : Z :=
  let '(y, _, _) := civil_from_days (localDay t) in y.
Definition getMonth (t : Z) : Z :=
  let '(_, m, _) := civil_from_days (localDay t) in m - 1.
Definition getDate (t : Z) : Z :=
  let '(_, _, d) := civil_from_days (localDay t) in d.

(** [t.setDate(date)] *)
Definition setDate (t date : Z) : Z :=
  toUTC (MakeDay (getFullYear t) (getMonth t) date * MS_PER_DAY
         + localMsOfDay t).

(** [t.setHours(hour, min, sec, ms)] *)
Definition setHours (t hour min sec ms : Z) : Z :=
  toUTC (localDay t * MS_PER_DAY + MakeTime hour min sec ms).

(** date-fns [startOfDay]: [date.setHours(0, 0, 0, 0)]. *)
Definition startOfDay (t : Z) : Z := setHours t 0 0 0 0.

(** date-fns [getTimezoneOffsetInMilliseconds]: the instant minus the
    instant whose UTC fields are the local fields of [t]. *)
Definition getTimezoneOffsetInMilliseconds (t : Z) : Z := t - LocalTime t.

(** [Math.round(x / d)] for integers [x] and [d > 0]: the nearest
    integer, the larger one of two nearest.  (The quotient of the two
    numbers is computed in binary64; for time values of the years 0000 to
    9999 its rounding does not reach the next half.) *)
Definition roundDiv (x d : Z) : Z := (2 * x + d) / (2 * d).

(** date-fns [differenceInCalendarDays]. *)
Definition differenceInCalendarDays (dateLeft dateRight : Z) : Z :=
  let startOfDayLeft := startOfDay dateLeft in
  let startOfDayRight := startOfDay dateRight in
  let timestampLeft :=
    startOfDayLeft - getTimezoneOffsetInMilliseconds startOfDayLeft in
  let timestampRight :=
    startOfDayRight - getTimezoneOffsetInMilliseconds startOfDayRight in
  roundDiv (timestampLeft - timestampRight) MS_PER_DAY.

(** date-fns [compareLocalAsc], as in [DateFns.compareLocalAsc]. *)
Definition compareLocalAsc (a b : Z) : Z :=
  let diff :=
    if localDay a - localDay b =? 0
    then localMsOfDay a - localMsOfDay b
    else localDay a - localDay b in
  if diff <? 0 then -1 else if 0 <? diff then 1 else diff.

(** date-fns [differenceInDays]. *)
Definition differenceInDays (dateLeft dateRight : Z) : Z :=
  let sign := compareLocalAsc dateLeft dateRight in
  let difference := Z.abs (differenceInCalendarDays dateLeft dateRight) in
  let dateLeft' := setDate dateLeft (getDate dateLeft - sign * difference) in
  let isLastDayNotFull :=
    if compareLocalAsc dateLeft' dateRight =? - sign then 1 else 0 in
  sign * (difference - isLastDayNotFull).

(** The figures of the engine that count whole days. *)
Record DayStats : Type := {
  daysSinceLastFlight : Z;
  daysSinceLastIncident : Z;
  consecutiveDays : Z;
  maxStreak : Z;
  minStreak : Z;
  streakBreaks : Z;
  maxRestStreak : Z;
  minRestStreak : Z;
  restBreaks : Z
}.

Context {N : Type} `{JsNumber N}.

(** Body of the streak loop, as [streakStep]. *)
Definition streakStep (uniqueDayStrings : list Z) (st : list Z * Z) (i : nat)
  : list Z * Z :=
  let '(streakLengths, currentStreakRun) := st in
  if currentStreakRun =? 0 then (streakLengths, 1)
  else
    let prevDate := ofDateString (nth (i - 1) uniqueDayStrings 0) in
    let currDate := ofDateString (nth i uniqueDayStrings 0) in
    let diff := differenceInDays prevDate currDate in
    if diff =? 1 then (streakLengths, currentStreakRun + 1)
    else (streakLengths ++ [currentStreakRun], 1).

Definition streakLengthsOf (uniqueDayStrings : list Z) : list Z :=
  let '(streakLengths, currentStreakRun) :=
    fold_left (streakStep uniqueDayStrings)
      (seq 0 (List.length uniqueDayStrings)) ([], 0) in
  if 0 <? currentStreakRun then streakLengths ++ [currentStreakRun]
  else streakLengths.

(** Body of the rest-gap loop, as [restStep]. *)
Definition restStep (uniqueDayStrings : list Z) (restGaps : list Z) (i : nat)
  : list Z :=
  let newer := ofDateString (nth i uniqueDayStrings 0) in
  let older := ofDateString (nth (i + 1) uniqueDayStrings 0) in
  let diff := differenceInDays newer older in
  let gap := diff - 1 in
  if 0 <? gap then restGaps ++ [gap] else restGaps.

Definition restGapsOf (uniqueDayStrings : list Z) : list Z :=
  fold_left (restStep uniqueDayStrings)
    (seq 0 (List.length uniqueDayStrings - 1)) [].

(** The part of the memo's body that computes the day figures. *)
Definition dayStats (logs : list (FlightLog N)) (now : Z) : DayStats :=
  let validLogs := validLogs logs in
  let nightLogs := nightLogs logs in
  let sortedNightLogs := JsArray.sort byDateDesc nightLogs in
  let sortedLogs := JsArray.sort byDateDesc validLogs in
  let daysSinceLastFlight :=
    match sortedLogs with
    | l0 :: _ => differenceInDays now (date l0)
    | [] => 0
    end in
  let daysSinceLastIncident :=
    match sortedNightLogs with
    | l0 :: _ => differenceInDays now (date l0)
    | [] => -1
    end in
  let uniqueDayStrings := uniqueDayStrings logs in
  let streakLengths := streakLengthsOf uniqueDayStrings in
  let currentActiveStreak :=
    match uniqueDayStrings with
    | key0 :: _ =>
        let lastFlightDate := ofDateString key0 in
        let diffFromNow := differenceInDays now lastFlightDate in
        if diffFromNow <=? 1 then
          match streakLengths with
          | s0 :: _ => s0
          | [] => 0
          end
        else 0
    | [] => 0
    end in
  let maxStreak :=
    match streakLengths with
    | s :: ss => JsArray.Math_max s ss
    | [] => 0
    end in
  let validStreaks := filter (fun s => 0 <? s) streakLengths in
  let minStreak :=
    match validStreaks with
    | s :: ss => JsArray.Math_min s ss
    | [] => 0
    end in
  let streakBreaks := Z.max 0 (JsArray.length validStreaks - 1) in
  let restGaps := restGapsOf uniqueDayStrings in
  let maxRestStreak :=
    match restGaps with
    | g :: gs => JsArray.Math_max g gs
    | [] => 0
    end in
  let minRestStreak :=
    match restGaps with
    | g :: gs => JsArray.Math_min g gs
    | [] => 0
    end in
  let restBreaks := JsArray.length streakLengths in
  {| daysSinceLastFlight := daysSinceLastFlight;
     daysSinceLastIncident := daysSinceLastIncident;
     consecutiveDays := currentActiveStreak;
     maxStreak := maxStreak;
     minStreak := minStreak;
     streakBreaks := streakBreaks;
     maxRestStreak := maxRestStreak;
     minRestStreak := minRestStreak;
     restBreaks := restBreaks |}.

(** The local calendar date of an instant. *)
Definition localDate (t : Z) : Z * Z * Z := civil_from_days (localDay t).
End InZone.

End HostZone.

(** The day figures of a result of the engine. *)
Definition dayStatsOf {N : Type} (s : FlightStats N) : HostZone.DayStats :=
  {| HostZone.daysSinceLastFlight := daysSinceLastFlight s;
     HostZone.daysSinceLastIncident := daysSinceLastIncident s;
     HostZone.consecutiveDays := consecutiveDays s;
     HostZone.maxStreak := maxStreak s;
     HostZone.minStreak := minStreak s;
     HostZone.streakBreaks := streakBreaks s;
     HostZone.maxRestStreak := maxRestStreak s;
     HostZone.minRestStreak := minRestStreak s;
     HostZone.restBreaks := restBreaks s |}.

(** A solo entry of half an hour. *)
Definition solo_at (t : Z) : FlightLog float := entry single t 0.5%float.

(** New York, 2 to 4 November 2024: one solo entry at noon local time of
    each of the three days (the clocks go back on 3 November), most recent
    first. *)
Definition new_york_three_days : list (FlightLog float) :=
  [ solo_at (JsDate.UTC 2024 10 4 17 0);
    solo_at (JsDate.UTC 2024 10 3 17 0);
    solo_at (JsDate.UTC 2024 10 2 16 0) ].

(** New York: solo entries at noon local time of 2 and of 5 November
    2024. *)
Definition new_york_two_days : list (FlightLog float) :=
  [ solo_at (JsDate.UTC 2024 10 5 17 0);
    solo_at (JsDate.UTC 2024 10 2 16 0) ].

(** UTC+8, 1 to 4 January 2024: a solo entry at 07:00 local time of the
    first day (2023-12-31T23:00Z) and one at 20:00 local time of each of
    the next three days. *)
Definition early_start_four_days : list (FlightLog float) :=
  [ solo_at (JsDate.UTC 2024 0 4 12 0);
    solo_at (JsDate.UTC 2024 0 3 12 0);
    solo_at (JsDate.UTC 2024 0 2 12 0);
    solo_at (JsDate.UTC 2023 11 31 23 0) ].

(** UTC+8: a solo entry at 20:00 local time of 1 January 2024 and one at
    07:00 local time of 4 January (2024-01-03T23:00Z). *)
Definition early_second_day : list (FlightLog float) :=
  [ solo_at (JsDate.UTC 2024 0 3 23 0);
    solo_at (JsDate.UTC 2024 0 1 12 0) ].

(** New York: a solo entry at noon local time of 9 March 2024, the day
    before the clocks go forward. *)
Definition new_york_march : list (FlightLog float) :=
  [ solo_at (JsDate.UTC 2024 2 9 17 0) ].

(** ** The order of binary64 sums *)

Module Binary64Units.

(** Non-negative numbers: the zeros, the positive finite numbers and
    [+Infinity]. *)
Definition nonNegative (x : spec_float) : bool :=
  match x with
  | S754_zero _ => true
  | S754_finite s _ _ => negb s
  | S754_infinity s => negb s
  | S754_nan => false
  end.

(** The value above every finite number, in units of [2 ^ -1074]. *)
Definition TOP : Z := 2 ^ 2098.

(** The value of a non-negative number in units of [2 ^ -1074], the
    smallest positive number; [+Infinity] counts as [TOP]. *)
Definition units (x : spec_float) : Z :=
  match x with
  | S754_zero _ => 0
  | S754_finite _ m e => Z.pos m * 2 ^ (e + 1074)
  | S754_infinity _ => TOP
  | S754_nan => 0
  end.

(** [n / 2 ^ k] rounded to the nearest integer, a tie to the even one. *)
Definition nearestEven (n k : Z) : Z :=
  let q := n / 2 ^ k in
  let r := n mod 2 ^ k in
  let h := 2 ^ (k - 1) in
  if (h <? r) || ((r =? h) && Z.odd q) then q + 1 else q.

(** A number of units rounded to 53 significant bits. *)
Definition round53 (n : Z) : Z :=
  let d := Z.log2 n + 1 in
  if d <=? 53 then n else nearestEven n (d - 53) * 2 ^ (d - 53).

(** The binary64 number nearest to [n] units, in units. *)
Definition roundUnits (n : Z) : Z :=
  if TOP <=? n then TOP else Z.min TOP (round53 n).

End Binary64Units.

(** * Part III: lemmas and theorems *)

(** ** The calendar *)

Example civil_epoch : JsDate.civil_from_days 0 = (1970, 1, 1).
Proof. reflexivity. Qed.

Example civil_leap_day : JsDate.civil_from_days 19782 = (2024, 2, 29).
Proof. reflexivity. Qed.

Example days_2024_01_01 : JsDate.days_from_civil 2024 1 1 = 19723.
Proof. reflexivity. Qed.

(** 1900 was no leap year, 2000 was one. *)
Example last_of_february_1900 :
  JsDate.civil_from_days (JsDate.days_from_civil 1900 3 1 - 1) = (1900, 2, 28).
Proof. reflexivity. Qed.

Example last_of_february_2000 :
  JsDate.civil_from_days (JsDate.days_from_civil 2000 3 1 - 1) = (2000, 2, 29).
Proof. reflexivity. Qed.

(** 2024-01-01 was a Monday ([getDay] = 1). *)
Example monday_2024_01_01 : JsDate.getDay 0 (JsDate.UTC 2024 0 1 12 0) = 1.
Proof. reflexivity. Qed.

Section Calendar.
Import JsDate.

Lemma civil_from_days_steps (z : Z) :
  civil_from_days z =
  let era := (z + 719468) / 146097 in
  let doe := z + 719468 - era * 146097 in
  assemble era (yoe_of doe) (mp_of (doy_of doe)) (dom_of (doy_of doe)).
Proof. reflexivity. Qed.

Lemma doe_range (z : Z) :
  0 <= z + 719468 - (z + 719468) / 146097 * 146097 < 146097.
Proof. Z.div_mod_to_equations. lia. Qed.

Lemma yoe_range (doe : Z) : 0 <= doe < 146097 -> 0 <= yoe_of doe <= 399.
Proof. intros H. unfold yoe_of. Z.div_mod_to_equations. lia. Qed.

Lemma doy_range (doe : Z) : 0 <= doe < 146097 -> 0 <= doy_of doe <= 365.
Proof. intros H. unfold doy_of, yoe_of. Z.div_mod_to_equations. lia. Qed.

Lemma mp_range (doy : Z) : 0 <= doy <= 365 -> 0 <= mp_of doy <= 11.
Proof. intros H. unfold mp_of. Z.div_mod_to_equations. lia. Qed.

Lemma dom_range (doy : Z) : 0 <= doy <= 365 -> 1 <= dom_of doy <= 31.
Proof. intros H. unfold dom_of, mp_of. Z.div_mod_to_equations. lia. Qed.

Lemma yoe_mono (doe1 doe2 : Z) :
  0 <= doe1 -> doe1 <= doe2 -> doe2 < 146097 -> yoe_of doe1 <= yoe_of doe2.
Proof. intros H1 H2 H3. unfold yoe_of. Z.div_mod_to_equations. lia. Qed.

Lemma mp_mono (doy1 doy2 : Z) : doy1 <= doy2 -> mp_of doy1 <= mp_of doy2.
Proof. intros H. unfold mp_of. Z.div_mod_to_equations. lia. Qed.

(** A date leads back to its day number, and its month and day are in
    range. *)
Theorem civil_roundtrip (z : Z) :
  let '(y, m, d) := civil_from_days z in
  days_from_civil y m d = z /\ 1 <= m <= 12 /\ 1 <= d <= 31.
Proof.
  rewrite civil_from_days_steps. cbv zeta.
  pose proof (doe_range z) as Hdoe.
  set (era := (z + 719468) / 146097) in *.
  set (doe := z + 719468 - era * 146097) in *.
  pose proof (yoe_range doe Hdoe) as Hyoe.
  pose proof (doy_range doe Hdoe) as Hdoy.
  pose proof (mp_range _ Hdoy) as Hmp.
  pose proof (dom_range _ Hdoy) as Hd.
  assert (Edoy : doy_of doe
                 = (153 * mp_of (doy_of doe) + 2) / 5 + dom_of (doy_of doe) - 1)
    by (unfold dom_of; lia).
  assert (Edoe : doe = yoe_of doe * 365 + yoe_of doe / 4 - yoe_of doe / 100
                       + doy_of doe)
    by (unfold doy_of; lia).
  set (yoe := yoe_of doe) in *. set (mp := mp_of (doy_of doe)) in *.
  set (d := dom_of (doy_of doe)) in *. set (doy := doy_of doe) in *.
  unfold assemble, days_from_civil. cbv zeta.
  set (m := if mp <? 10 then mp + 3 else mp - 9).
  assert (Hm : 1 <= m <= 12 /\ (if 2 <? m then m - 3 else m + 9) = mp).
  { unfold m. destruct (Z.ltb_spec mp 10).
    - destruct (Z.ltb_spec 2 (mp + 3)); lia.
    - destruct (Z.ltb_spec 2 (mp - 9)); lia. }
  destruct Hm as [Hm Hmp'].
  rewrite Hmp'.
  replace (if m <=? 2
           then (if m <=? 2 then yoe + era * 400 + 1 else yoe + era * 400) - 1
           else if m <=? 2 then yoe + era * 400 + 1 else yoe + era * 400)
    with (yoe + era * 400) by (destruct (m <=? 2); lia).
  assert (Hera : (yoe + era * 400) / 400 = era).
  { rewrite Z.div_add by discriminate. rewrite Z.div_small by lia. lia. }
  rewrite Hera.
  replace (yoe + era * 400 - era * 400) with yoe by lia.
  split; [| split; assumption].
  unfold doe in Edoe. lia.
Qed.

Corollary civil_injective (z1 z2 : Z) :
  civil_from_days z1 = civil_from_days z2 -> z1 = z2.
Proof.
  intros E.
  pose proof (civil_roundtrip z1) as H1. pose proof (civil_roundtrip z2) as H2.
  rewrite E in H1. destruct (civil_from_days z2) as [[y m] d]. lia.
Qed.

(** The order of dates follows the order of era, year of the era, month
    from March and day. *)
Lemma assemble_order (era1 yoe1 mp1 d1 era2 yoe2 mp2 d2 : Z) :
  0 <= yoe1 <= 399 -> 0 <= yoe2 <= 399 ->
  0 <= mp1 <= 11 -> 0 <= mp2 <= 11 ->
  era1 < era2
  \/ (era1 = era2
      /\ (yoe1 < yoe2
          \/ (yoe1 = yoe2 /\ (mp1 < mp2 \/ (mp1 = mp2 /\ d1 < d2))))) ->
  date_lt (assemble era1 yoe1 mp1 d1) (assemble era2 yoe2 mp2 d2).
Proof.
  intros Hy1 Hy2 Hm1 Hm2 Hlt. unfold assemble, date_lt. cbv zeta.
  destruct (Z.ltb_spec mp1 10), (Z.ltb_spec mp2 10);
    repeat match goal with
           | |- context [?a <=? ?b] => destruct (Z.leb_spec a b)
           end;
    lia.
Qed.

(** Later days have later dates: the texts "YYYY-MM-DD" of the days are
    ordered as the day numbers are. *)
Theorem civil_monotone (z1 z2 : Z) :
  z1 < z2 -> date_lt (civil_from_days z1) (civil_from_days z2).
Proof.
  intros Hlt. rewrite !civil_from_days_steps. cbv zeta.
  pose proof (doe_range z1) as Hdoe1. pose proof (doe_range z2) as Hdoe2.
  assert (Hera : (z1 + 719468) / 146097 <= (z2 + 719468) / 146097)
    by (apply Z.div_le_mono; lia).
  set (era1 := (z1 + 719468) / 146097) in *.
  set (era2 := (z2 + 719468) / 146097) in *.
  set (doe1 := z1 + 719468 - era1 * 146097) in *.
  set (doe2 := z2 + 719468 - era2 * 146097) in *.
  pose proof (doy_range doe1 Hdoe1) as Hdoy1.
  pose proof (doy_range doe2 Hdoe2) as Hdoy2.
  apply assemble_order;
    try (apply yoe_range; assumption); try (apply mp_range; assumption).
  destruct (Z.eq_dec era1 era2) as [Eera | Nera]; [right | left; lia].
  split; [exact Eera |].
  assert (Hdoe : doe1 < doe2) by (unfold doe1, doe2; lia).
  pose proof (yoe_mono doe1 doe2 ltac:(lia) ltac:(lia) ltac:(lia)) as Hyoe.
  destruct (Z.eq_dec (yoe_of doe1) (yoe_of doe2)) as [Eyoe | Nyoe];
    [right | left; lia].
  split; [exact Eyoe |].
  assert (Hdoy : doy_of doe1 < doy_of doe2)
    by (unfold doy_of; rewrite Eyoe; lia).
  pose proof (mp_mono (doy_of doe1) (doy_of doe2) ltac:(lia)) as Hmp.
  destruct (Z.eq_dec (mp_of (doy_of doe1)) (mp_of (doy_of doe2)))
    as [Emp | Nmp]; [right | left; lia].
  split; [exact Emp |]. unfold dom_of. rewrite Emp. lia.
Qed.
End Calendar.

(** ** The text of a day *)

Section DayText.
Import JsDate.
Import Ascii String.

Example text_2024_02_29 : isoDateText 19782 = "2024-02-29"%string.
Proof. reflexivity. Qed.

Example parse_2024_02_29 :
  parseIsoDate "2024-02-29" = Some (19782 * MS_PER_DAY).
Proof. reflexivity. Qed.

Lemma digitValue_digit (n : Z) : 0 <= n <= 9 -> digitValue (digit n) = n.
Proof.
  intros H. unfold digitValue, digit.
  rewrite N_ascii_embedding by lia. lia.
Qed.

Lemma digit_compare (a b : Z) :
  0 <= a <= 9 -> 0 <= b <= 9 -> Ascii.compare (digit a) (digit b) = (a ?= b).
Proof.
  intros Ha Hb. unfold Ascii.compare, digit.
  rewrite !N_ascii_embedding by lia.
  rewrite <- N2Z.inj_compare, !N2Z.inj_add, !Z2N.id by lia.
  change (Z.of_N 48) with 48. apply Z.add_compare_mono_l.
Qed.

Lemma pad2_compare (a b : Z) (r1 r2 : string) :
  0 <= a <= 99 -> 0 <= b <= 99 ->
  String.compare (pad2 a r1) (pad2 b r2)
  = match a ?= b with Eq => String.compare r1 r2 | ne => ne end.
Proof.
  intros Ha Hb. unfold pad2. cbn [String.compare].
  rewrite !digit_compare by (Z.div_mod_to_equations; lia).
  destruct (Z.compare_spec (a / 10) (b / 10)),
           (Z.compare_spec (a mod 10) (b mod 10)),
           (Z.compare_spec a b);
    try reflexivity; exfalso; Z.div_mod_to_equations; lia.
Qed.

Lemma pad4_compare (a b : Z) (r1 r2 : string) :
  0 <= a <= 9999 -> 0 <= b <= 9999 ->
  String.compare (pad4 a r1) (pad4 b r2)
  = match a ?= b with Eq => String.compare r1 r2 | ne => ne end.
Proof.
  intros Ha Hb. unfold pad4.
  rewrite !pad2_compare by (Z.div_mod_to_equations; lia).
  destruct (Z.compare_spec (a / 100) (b / 100)),
           (Z.compare_spec (a mod 100) (b mod 100)),
           (Z.compare_spec a b);
    try reflexivity; exfalso; Z.div_mod_to_equations; lia.
Qed.

(** For years 0000 to 9999 the texts of two days compare as the day
    numbers do. *)
Theorem isoDateText_compare (z1 z2 : Z) :
  0 <= yearOf z1 <= 9999 -> 0 <= yearOf z2 <= 9999 ->
  String.compare (isoDateText z1) (isoDateText z2) = (z1 ?= z2).
Proof.
  unfold yearOf, isoDateText. intros Hy1 Hy2.
  pose proof (civil_roundtrip z1) as R1. pose proof (civil_roundtrip z2) as R2.
  assert (M : date_lt (civil_from_days z1) (civil_from_days z2) /\ z1 < z2
              \/ civil_from_days z1 = civil_from_days z2 /\ z1 = z2
              \/ date_lt (civil_from_days z2) (civil_from_days z1) /\ z2 < z1).
  { destruct (Z.lt_trichotomy z1 z2) as [L | [E | G]].
    - left. split; [now apply civil_monotone | exact L].
    - right; left. split; [now rewrite E | exact E].
    - right; right. split; [now apply civil_monotone | exact G]. }
  destruct (civil_from_days z1) as [[y1 m1] d1].
  destruct (civil_from_days z2) as [[y2 m2] d2].
  cbn [fst] in Hy1, Hy2. unfold dateText, date_lt in *.
  rewrite pad4_compare by assumption. cbn [String.compare].
  rewrite pad2_compare by lia. cbn [String.compare].
  rewrite pad2_compare by lia. cbn [String.compare].
  replace (Ascii.compare "-" "-") with Eq by reflexivity.
  destruct M as [[M L] | [[M E] | [M G]]].
  - rewrite (proj2 (Z.compare_lt_iff z1 z2) L).
    destruct (Z.compare_spec y1 y2), (Z.compare_spec m1 m2),
      (Z.compare_spec d1 d2); try reflexivity; lia.
  - injection M as -> -> ->. subst z2. rewrite !Z.compare_refl. reflexivity.
  - rewrite (proj2 (Z.compare_gt_iff z1 z2) ltac:(lia)).
    destruct (Z.compare_spec y1 y2), (Z.compare_spec m1 m2),
      (Z.compare_spec d1 d2); try reflexivity; lia.
Qed.

(** For years 0000 to 9999 the text of a day is read back as the UTC
    midnight of that day. *)
Theorem parseIsoDate_isoDateText (z : Z) :
  0 <= yearOf z <= 9999 ->
  parseIsoDate (isoDateText z) = Some (ofDateString z).
Proof.
  unfold yearOf, isoDateText, ofDateString. intros Hy.
  pose proof (civil_roundtrip z) as R.
  destruct (civil_from_days z) as [[y m] d]. cbn [fst] in Hy.
  destruct R as [R [Hm Hd]].
  unfold dateText, pad4, pad2, parseIsoDate.
  rewrite !digitValue_digit by (Z.div_mod_to_equations; lia).
  do 2 f_equal. rewrite <- R. f_equal; Z.div_mod_to_equations; lia.
Qed.
End DayText.

(** ** Facts about the date model *)

Section DateFacts.
Import JsDate DateFns.
Variable tz : Z.

Lemma MS_PER_DAY_pos : 0 < MS_PER_DAY.
Proof. reflexivity. Qed.

Lemma local_decompose (t : Z) :
  t + tz = localDay tz t * MS_PER_DAY + localMsOfDay tz t
  /\ 0 <= localMsOfDay tz t < MS_PER_DAY.
Proof.
  unfold localDay, localMsOfDay. split.
  - rewrite Z.mul_comm. apply Z.div_mod. discriminate.
  - apply Z.mod_pos_bound. reflexivity.
Qed.

(** Under a fixed offset, comparing local fields is comparing instants. *)
Lemma compareLocalAsc_sgn (a b : Z) : compareLocalAsc tz a b = Z.sgn (a - b).
Proof.
  unfold compareLocalAsc.
  destruct (local_decompose a) as [Ea Ba], (local_decompose b) as [Eb Bb].
  pose proof MS_PER_DAY_pos as HM.
  destruct (Z.eqb_spec (localDay tz a - localDay tz b) 0) as [E|E].
  - assert (a - b = localMsOfDay tz a - localMsOfDay tz b) by nia.
    rewrite H.
    destruct (Z.ltb_spec (localMsOfDay tz a - localMsOfDay tz b) 0);
      [ | destruct (Z.ltb_spec 0 (localMsOfDay tz a - localMsOfDay tz b)) ];
      lia.
  - destruct (Z.ltb_spec (localDay tz a - localDay tz b) 0);
      [ | destruct (Z.ltb_spec 0 (localDay tz a - localDay tz b)) ];
      try lia.
    + assert (a - b < 0) by nia. lia.
    + assert (0 < a - b) by nia. lia.
Qed.

(** [differenceInDays] truncates the elapsed time to whole days. *)
Lemma differenceInDays_quot (a b : Z) :
  differenceInDays tz a b = Z.quot (a - b) MS_PER_DAY.
Proof.
  unfold differenceInDays, differenceInCalendarDays.
  rewrite !compareLocalAsc_sgn.
  destruct (local_decompose a) as [Ea Ba], (local_decompose b) as [Eb Bb].
  pose proof MS_PER_DAY_pos as HM.
  set (da := localDay tz a) in *. set (db := localDay tz b) in *.
  set (ma := localMsOfDay tz a) in *. set (mb := localMsOfDay tz b) in *.
  assert (Hab : a - b = (da - db) * MS_PER_DAY + (ma - mb)) by lia.
  destruct (Z.lt_trichotomy (a - b) 0) as [Hlt | [Heq | Hgt]].
  - (* dateLeft is earlier *)
    assert (Hd : da - db <= 0) by nia.
    rewrite (Z.sgn_neg (a - b)) by assumption.
    rewrite Z.abs_neq by assumption.
    replace (a - -1 * - (da - db) * MS_PER_DAY - b) with (ma - mb) by lia.
    replace (a - b) with (- (b - a)) by lia.
    rewrite Z.quot_opp_l by lia.
    rewrite Z.quot_div_nonneg by lia.
    destruct (Z.eqb_spec (Z.sgn (ma - mb)) (- -1)) as [E|E].
    + assert (0 < ma - mb) by lia.
      assert ((b - a) / MS_PER_DAY = (db - da) - 1).
      { symmetry.
        apply (Z.div_unique (b - a) MS_PER_DAY _ (MS_PER_DAY - (ma - mb)));
          lia. }
      lia.
    + assert (ma - mb <= 0) by lia.
      assert ((b - a) / MS_PER_DAY = db - da).
      { symmetry. apply (Z.div_unique (b - a) MS_PER_DAY _ (mb - ma)); lia. }
      lia.
  - rewrite Heq. simpl. reflexivity.
  - assert (Hd : 0 <= da - db) by nia.
    rewrite (Z.sgn_pos (a - b)) by assumption.
    rewrite Z.abs_eq by assumption.
    replace (a - 1 * (da - db) * MS_PER_DAY - b) with (ma - mb) by lia.
    rewrite Z.quot_div_nonneg by lia.
    destruct (Z.eqb_spec (Z.sgn (ma - mb)) (- (1))) as [E|E].
    + assert (ma - mb < 0) by lia.
      assert ((a - b) / MS_PER_DAY = (da - db) - 1).
      { symmetry.
        apply (Z.div_unique (a - b) MS_PER_DAY _ (MS_PER_DAY + (ma - mb)));
          lia. }
      lia.
    + assert (0 <= ma - mb) by lia.
      assert ((a - b) / MS_PER_DAY = da - db).
      { symmetry. apply (Z.div_unique (a - b) MS_PER_DAY _ (ma - mb)); lia. }
      lia.
Qed.

(** Two date-only keys are apart by the difference of their day numbers. *)
Lemma differenceInDays_keys (k1 k2 : Z) :
  differenceInDays tz (ofDateString k1) (ofDateString k2) = k1 - k2.
Proof.
  rewrite differenceInDays_quot. unfold ofDateString.
  replace (k1 * MS_PER_DAY - k2 * MS_PER_DAY) with ((k1 - k2) * MS_PER_DAY)
    by lia.
  apply Z.quot_mul. discriminate.
Qed.
End DateFacts.

(** ** Facts about arrays *)

Section ArrayFacts.
Context {A : Type}.
Variable compareFn : A -> A -> Z.

Lemma insert_by_perm (x : A) (l : list A) :
  Permutation (JsArray.insert_by compareFn x l) (x :: l).
Proof.
  induction l as [| y ys IH]; simpl.
  - reflexivity.
  - destruct (compareFn x y <=? 0).
    + reflexivity.
    + rewrite IH. apply perm_swap.
Qed.

Lemma sort_perm (l : list A) : Permutation (JsArray.sort compareFn l) l.
Proof.
  induction l as [| x xs IH]; simpl.
  - reflexivity.
  - rewrite insert_by_perm. now constructor.
Qed.

Lemma sort_length (l : list A) :
  JsArray.length (JsArray.sort compareFn l) = JsArray.length l.
Proof.
  unfold JsArray.length. f_equal. apply Permutation_length, sort_perm.
Qed.

Lemma sort_nil_inv (l : list A) : JsArray.sort compareFn l = [] -> l = [].
Proof.
  intros E. apply Permutation_nil. rewrite <- E. apply sort_perm.
Qed.
End ArrayFacts.

Lemma filter_perm_length {A : Type} (p : A -> bool) (l l' : list A) :
  Permutation l l' ->
  JsArray.length (filter p l) = JsArray.length (filter p l').
Proof.
  intros P. unfold JsArray.length. f_equal.
  induction P as [| x l l' _ IH | x y l | l l' l'' _ IH1 _ IH2]; simpl.
  - reflexivity.
  - destruct (p x); simpl; congruence.
  - destruct (p x), (p y); reflexivity.
  - congruence.
Qed.

(** A filtered array is no longer than the array, and filtering by a
    stronger test keeps fewer elements. *)
Lemma filter_length_le {A : Type} (p : A -> bool) (l : list A) :
  JsArray.length (filter p l) <= JsArray.length l.
Proof.
  unfold JsArray.length. apply Nat2Z.inj_le, filter_length_le.
Qed.

Lemma filter_length_mono {A : Type} (p q : A -> bool) (l : list A) :
  (forall x, p x = true -> q x = true) ->
  JsArray.length (filter p l) <= JsArray.length (filter q l).
Proof.
  intros Hpq. unfold JsArray.length. apply Nat2Z.inj_le.
  induction l as [| x xs IH]; simpl; [lia |].
  destruct (p x) eqn:Ep.
  - rewrite (Hpq x Ep). simpl. lia.
  - destruct (q x); simpl; lia.
Qed.

(** ** Totals *)

Section Totals.
Variable tz : Z.
Context {N : Type} `{JsNumber N}.

Lemma type_split (logs : list (FlightLog N)) :
  JsArray.length (filter isSingle (validLogs logs))
  + JsArray.length (filter isMulti (validLogs logs))
  = JsArray.length (validLogs logs)
  /\ JsArray.length (validLogs logs) + JsArray.length (nightLogs logs)
     = JsArray.length logs.
Proof.
  unfold JsArray.length, validLogs, nightLogs.
  induction logs as [| l ls [IH1 IH2]]; [split; reflexivity |].
  assert (Hty : (isNight l, isSingle l, isMulti l) = (false, true, false)
                \/ (isNight l, isSingle l, isMulti l) = (false, false, true)
                \/ (isNight l, isSingle l, isMulti l) = (true, false, false)).
  { unfold isNight, isSingle, isMulti. destruct (type l); auto. }
  cbn [filter].
  destruct Hty as [E | [E | E]]; injection E as En Es Em;
    rewrite En; cbn [negb filter]; rewrite ?Es, ?Em; cbn [List.length];
    split; lia.
Qed.

Lemma filtered_sorted_length (p : FlightLog N -> bool)
      (logs : list (FlightLog N)) :
  JsArray.length (filter p (JsArray.sort byDateDesc (validLogs logs)))
  = JsArray.length (filter p (validLogs logs)).
Proof. apply filter_perm_length, sort_perm. Qed.
End Totals.

(** C9: the totals partition the input: every non-incident entry is either
    solo or shared, and every entry is either non-incident or an incident. *)
Theorem C9_totals_partition :
  forall (tz : Z) (N : Type) (num : JsNumber N)
         (logs : list (FlightLog N)) (now : Z),
    let s := computeStats tz logs now in
    totalFlights s = totalSoloFlights s + totalMultiFlights s
    /\ totalFlights s + totalNightFlights s = JsArray.length logs.
Proof.
  intros tz N num logs now s.
  destruct (type_split logs) as [E1 E2].
  subst s. simpl.
  rewrite sort_length, !filtered_sorted_length. lia.
Qed.

(** ** Empty input *)

(** C3: on the empty log list the engine returns the all-zero record, with
    the sentinel -1 for the days since the last incident, whatever the
    reference instant (and time zone and number type) is. *)
Theorem C3_empty_log :
  forall (tz : Z) (N : Type) (num : JsNumber N) (now : Z),
    computeStats tz (@nil (FlightLog N)) now =
    {| flightsToday := 0; flightsThisWeek := 0; flightsThisYear := 0;
       flightsThisMonth := 0;
       hoursToday := num_zero; hoursThisWeek := num_zero;
       hoursThisMonth := num_zero; hoursThisYear := num_zero;
       soloFlightsToday := 0; soloFlightsThisWeek := 0;
       soloFlightsThisMonth := 0; soloFlightsThisYear := 0;
       multiFlightsToday := 0; multiFlightsThisWeek := 0;
       multiFlightsThisMonth := 0; multiFlightsThisYear := 0;
       daysSinceLastFlight := 0;
       consecutiveDays := 0; maxStreak := 0; minStreak := 0;
       streakBreaks := 0;
       maxRestStreak := 0; minRestStreak := 0; restBreaks := 0;
       totalFlights := 0; totalSoloFlights := 0; totalMultiFlights := 0;
       totalHours := num_zero; avgDuration := num_zero;
       maxDuration := num_zero; minDuration := num_zero;
       totalNightFlights := 0;
       daysSinceLastIncident := -1 |}.
Proof. intros tz N num now. reflexivity. Qed.

(** ** Order produced by [sort] *)

Section SortOrder.
Context {A : Type}.
Variable compareFn : A -> A -> Z.
(** The comparator orders by an integer key. *)
Variable key : A -> Z.
Hypothesis compare_key :
  forall x y, (compareFn x y <=? 0) = (key x <=? key y).

Let ordered (a b : A) : Prop := key a <= key b.

Lemma insert_by_sorted (x : A) (l : list A) :
  StronglySorted ordered l ->
  StronglySorted ordered (JsArray.insert_by compareFn x l).
Proof.
  induction 1 as [| y ys Hs IH Hall]; simpl.
  - repeat constructor.
  - rewrite compare_key. destruct (Z.leb_spec (key x) (key y)) as [Hle | Hgt].
    + constructor; [now constructor |].
      constructor; [exact Hle |].
      eapply Forall_impl; [| exact Hall]. unfold ordered. intros; lia.
    + constructor; [exact IH |].
      rewrite (insert_by_perm compareFn x ys).
      constructor; [unfold ordered; lia | exact Hall].
Qed.

Lemma sort_sorted (l : list A) :
  StronglySorted ordered (JsArray.sort compareFn l).
Proof.
  induction l as [| x xs IH]; simpl.
  - constructor.
  - now apply insert_by_sorted.
Qed.
End SortOrder.

Lemma defaultCompare_key (x y : Z) :
  (JsArray.defaultCompare x y <=? 0) = (x <=? y).
Proof.
  unfold JsArray.defaultCompare.
  destruct (Z.ltb_spec x y), (Z.ltb_spec y x), (Z.leb_spec x y);
    simpl; lia || reflexivity.
Qed.

Lemma byDateDesc_key {N : Type} (a b : FlightLog N) :
  (byDateDesc a b <=? 0) = (- date a <=? - date b).
Proof.
  unfold byDateDesc.
  destruct (Z.leb_spec (date b - date a) 0), (Z.leb_spec (- date a) (- date b));
    lia || reflexivity.
Qed.

(** The first element of the date-sorted array is a most recent entry. *)
Lemma sorted_head_latest {N : Type} (l : list (FlightLog N)) (l0 : FlightLog N)
      (rest : list (FlightLog N)) :
  JsArray.sort byDateDesc l = l0 :: rest ->
  In l0 l /\ forall x, In x l -> date x <= date l0.
Proof.
  intros E.
  pose proof (sort_sorted byDateDesc (fun x => - date x) byDateDesc_key l) as S.
  pose proof (sort_perm byDateDesc l) as P.
  rewrite E in S, P. split.
  - eapply Permutation_in; [exact P | now left].
  - intros x Hx.
    apply (Permutation_in _ (Permutation_sym P)) in Hx.
    inversion S as [| ? ? _ Hall]; subst.
    destruct Hx as [-> | Hx]; [lia |].
    rewrite Forall_forall in Hall. specialize (Hall x Hx). simpl in Hall. lia.
Qed.

(** ** The [Set] of day keys *)

Lemma setAdd_In (seen l : list Z) (x : Z) :
  In x (JsArray.setAdd Z.eqb seen l) <-> In x seen \/ In x l.
Proof.
  revert seen. induction l as [| y ys IH]; intros seen; simpl.
  - tauto.
  - destruct (existsb (Z.eqb y) seen) eqn:E; rewrite IH.
    + apply existsb_exists in E. destruct E as [z [Hz Ez]].
      apply Z.eqb_eq in Ez. subst z.
      split; [tauto |]. intros [? | [<- | ?]]; auto.
    + rewrite in_app_iff. simpl. tauto.
Qed.

Lemma setAdd_NoDup (seen l : list Z) :
  NoDup seen -> NoDup (JsArray.setAdd Z.eqb seen l).
Proof.
  revert seen. induction l as [| y ys IH]; intros seen Hs; simpl.
  - exact Hs.
  - destruct (existsb (Z.eqb y) seen) eqn:E.
    + now apply IH.
    + apply IH.
      apply NoDup_app; [exact Hs | repeat constructor; simpl; tauto |].
      intros z Hz [<- | []].
      assert (Hex : existsb (Z.eqb y) seen = true); [| congruence].
      apply existsb_exists. exists y. split; [exact Hz | apply Z.eqb_refl].
Qed.

Lemma sorted_nodup_strict (l : list Z) :
  StronglySorted Z.le l -> NoDup l -> StronglySorted Z.lt l.
Proof.
  induction 1 as [| x xs Hs IH Hall]; intros Hnd.
  - constructor.
  - inversion Hnd as [| ? ? Hnotin Hnd']; subst.
    constructor; [now apply IH |].
    rewrite Forall_forall in *. intros y Hy.
    specialize (Hall y Hy).
    assert (x <> y) by (intros ->; contradiction). lia.
Qed.

Lemma rev_strict_descending (l : list Z) :
  StronglySorted Z.lt l -> descending (rev l).
Proof.
  unfold descending.
  induction 1 as [| x xs Hs IH Hall]; simpl.
  - constructor.
  - assert (G : forall l', StronglySorted Z.gt l' ->
                Forall (fun y => y > x) l' -> StronglySorted Z.gt (l' ++ [x])).
    { induction 1 as [| z zs Hz IHz Hallz]; intros Hgt; simpl.
      - repeat constructor.
      - inversion Hgt; subst. constructor; [now apply IHz |].
        apply Forall_app. split; [exact Hallz | now repeat constructor]. }
    apply G; [exact IH |].
    rewrite Forall_forall in *. intros y Hy. apply in_rev in Hy.
    specialize (Hall y Hy). lia.
Qed.

(** The day keys of the engine: the UTC days of the non-incident entries,
    without repetition, most recent first. *)
Lemma uniqueDayStrings_spec {N : Type} (logs : list (FlightLog N)) :
  descending (uniqueDayStrings logs)
  /\ forall k, In k (uniqueDayStrings logs) <->
               exists l, In l logs /\ isNight l = false
                         /\ JsDate.toISODateString (date l) = k.
Proof.
  unfold uniqueDayStrings.
  set (keys := map (fun l => JsDate.toISODateString (date l)) (validLogs logs)).
  pose proof (sort_perm JsArray.defaultCompare (JsArray.fromSet Z.eqb keys))
    as P.
  split.
  - apply rev_strict_descending, sorted_nodup_strict.
    + apply (sort_sorted JsArray.defaultCompare (fun x => x)
               defaultCompare_key).
    + apply (Permutation_NoDup (Permutation_sym P)).
      apply setAdd_NoDup. constructor.
  - intros k. rewrite <- in_rev.
    transitivity (In k keys).
    + split; intros Hk.
      * apply (Permutation_in _ P) in Hk. apply setAdd_In in Hk.
        destruct Hk as [[] | Hk]. exact Hk.
      * apply (Permutation_in _ (Permutation_sym P)).
        apply setAdd_In. now right.
    + unfold keys, validLogs. rewrite in_map_iff.
      split; intros [l Hl]; exists l.
      * destruct Hl as [E Hin]. apply filter_In in Hin.
        destruct Hin as [Hin Hn]. apply negb_true_iff in Hn. tauto.
      * destruct Hl as [Hin [Hn E]]. split; [exact E |].
        apply filter_In. split; [exact Hin | now rewrite Hn].
Qed.

(** ** Texts and day numbers *)

Section Transport.
Context {A B : Type}.
Variable f : A -> B.

Lemma existsb_map (eqA : A -> A -> bool) (eqB : B -> B -> bool)
      (x : A) (seen : list A) :
  (forall y, In y seen -> eqB (f x) (f y) = eqA x y) ->
  existsb (eqB (f x)) (map f seen) = existsb (eqA x) seen.
Proof.
  induction seen as [| y ys IH]; intros H; simpl; [reflexivity |].
  rewrite (H y (or_introl eq_refl)), IH; [reflexivity |].
  intros z Hz. apply H. now right.
Qed.

Lemma setAdd_map (eqA : A -> A -> bool) (eqB : B -> B -> bool)
      (l seen : list A) :
  (forall x y, In x (seen ++ l) -> In y (seen ++ l) ->
               eqB (f x) (f y) = eqA x y) ->
  JsArray.setAdd eqB (map f seen) (map f l)
  = map f (JsArray.setAdd eqA seen l).
Proof.
  revert seen. induction l as [| x xs IH]; intros seen H; simpl.
  - reflexivity.
  - rewrite (existsb_map eqA eqB x seen).
    + destruct (existsb (eqA x) seen).
      * apply IH. intros a b Ha Hb. apply H; rewrite in_app_iff in *;
          simpl; tauto.
      * rewrite <- IH.
        -- now rewrite map_app.
        -- intros a b Ha Hb.
           apply H; rewrite !in_app_iff in *; simpl in *; tauto.
    + intros y Hy. apply H; rewrite in_app_iff; simpl; tauto.
Qed.

Lemma insert_by_map (cmpA : A -> A -> Z) (cmpB : B -> B -> Z)
      (x : A) (l : list A) :
  (forall y, In y l -> (cmpB (f x) (f y) <=? 0) = (cmpA x y <=? 0)) ->
  JsArray.insert_by cmpB (f x) (map f l) = map f (JsArray.insert_by cmpA x l).
Proof.
  induction l as [| y ys IH]; intros H; simpl; [reflexivity |].
  rewrite (H y (or_introl eq_refl)).
  destruct (cmpA x y <=? 0); [reflexivity |].
  simpl. f_equal. apply IH. intros z Hz. apply H. now right.
Qed.

Lemma sort_map (cmpA : A -> A -> Z) (cmpB : B -> B -> Z) (l : list A) :
  (forall x y, In x l -> In y l ->
               (cmpB (f x) (f y) <=? 0) = (cmpA x y <=? 0)) ->
  JsArray.sort cmpB (map f l) = map f (JsArray.sort cmpA l).
Proof.
  induction l as [| x xs IH]; intros H; simpl; [reflexivity |].
  rewrite IH by (intros a b Ha Hb; apply H; now right).
  apply insert_by_map. intros y Hy. apply H; [now left |].
  right. apply (Permutation_in _ (sort_perm cmpA xs)). exact Hy.
Qed.
End Transport.

Section DayTextFacts.
Import JsDate.

Lemma text_eqb (z1 z2 : Z) :
  fourDigitYear z1 -> fourDigitYear z2 ->
  String.eqb (isoDateText z1) (isoDateText z2) = (z1 =? z2).
Proof.
  intros H1 H2.
  pose proof (isoDateText_compare z1 z2 H1 H2) as C.
  destruct (Z.eqb_spec z1 z2) as [-> | Hne].
  - apply String.eqb_refl.
  - apply String.eqb_neq. intros E. rewrite E in C.
    rewrite (isoDateText_compare z2 z2 H2 H2), Z.compare_refl in C.
    symmetry in C. apply Z.compare_eq in C. contradiction.
Qed.

Lemma text_compare_key (z1 z2 : Z) :
  fourDigitYear z1 -> fourDigitYear z2 ->
  (JsArray.defaultCompareText (isoDateText z1) (isoDateText z2) <=? 0)
  = (JsArray.defaultCompare z1 z2 <=? 0).
Proof.
  intros H1 H2. unfold JsArray.defaultCompareText.
  rewrite (isoDateText_compare z1 z2 H1 H2), defaultCompare_key.
  destruct (Z.compare_spec z1 z2), (Z.leb_spec z1 z2);
    reflexivity || lia.
Qed.

(** For logs of the years 0000 to 9999, the texts that the program handles
    are the texts of the day numbers of the model, in the same order, and
    each is read back as the UTC midnight of its day. *)
Theorem uniqueDayTexts_model {N : Type} (logs : list (FlightLog N)) :
  (forall l, In l logs -> fourDigitYear (Day (date l))) ->
  uniqueDayTexts logs = map isoDateText (uniqueDayStrings logs)
  /\ map parseIsoDate (uniqueDayTexts logs)
     = map (fun key => Some (ofDateString key)) (uniqueDayStrings logs).
Proof.
  intros Hyears.
  set (keys := map (fun l => toISODateString (date l)) (validLogs logs)).
  assert (Hkeys : forall k, In k keys -> fourDigitYear k).
  { intros k Hk. unfold keys in Hk. apply in_map_iff in Hk.
    destruct Hk as [l [<- Hl]]. apply filter_In in Hl. apply Hyears, Hl. }
  assert (Hset : forall k,
            In k (JsArray.fromSet Z.eqb keys) -> fourDigitYear k).
  { intros k Hk. apply setAdd_In in Hk. destruct Hk as [[] | Hk].
    now apply Hkeys. }
  assert (E : uniqueDayTexts logs = map isoDateText (uniqueDayStrings logs)).
  { unfold uniqueDayTexts, uniqueDayStrings. fold keys.
    rewrite map_rev. f_equal.
    replace (map (fun l => isoDateText (Day (date l))) (validLogs logs))
      with (map isoDateText keys) by (unfold keys; now rewrite map_map).
    unfold JsArray.fromSet.
    pose proof (setAdd_map isoDateText Z.eqb String.eqb keys []) as S.
    cbn [map app] in S. rewrite S.
    - apply sort_map. intros x y Hx Hy. apply text_compare_key; now apply Hset.
    - intros x y Hx Hy. apply text_eqb; now apply Hkeys. }
  split; [exact E |].
  rewrite E, map_map. apply map_ext_in. intros k Hk.
  apply parseIsoDate_isoDateText.
  apply Hset. unfold uniqueDayStrings in Hk. apply in_rev in Hk.
  apply (Permutation_in _ (sort_perm _ _)) in Hk. exact Hk.
Qed.
End DayTextFacts.

(** ** Runs of day keys *)

Section StreakSpec.
Import JsDate DateFns.
Variable tz : Z.

Lemma wholeDayDiff_sub (a b : Z) : wholeDayDiff tz a b = a - b.
Proof. apply differenceInDays_keys. Qed.

Lemma groupRuns_nonempty (d : Z) (rest : list Z) :
  exists r rs, groupRuns tz (d :: rest) = (d :: r) :: rs.
Proof.
  cbn [groupRuns].
  destruct (groupRuns tz rest) as [| r rs]; [now exists [], [] |].
  destruct (wholeDayDiff tz d (hd 0 rest) =? 1);
    [now exists r, rs | now exists [], (r :: rs)].
Qed.

Lemma groupRuns_partition (days : list Z) :
  descending days -> RunPartition tz days (groupRuns tz days).
Proof.
  unfold RunPartition.
  induction days as [| d rest IH]; intros Hd.
  - simpl. repeat split; constructor.
  - inversion Hd as [| ? ? Hrest Hall]; subst.
    specialize (IH Hrest). destruct IH as [Hc [Hr Hs]].
    destruct rest as [| e rest'].
    + simpl. repeat split; repeat constructor.
    + destruct (groupRuns_nonempty e rest') as [r [rs E]].
      change (groupRuns tz (d :: e :: rest')) with
        (match groupRuns tz (e :: rest') with
         | r :: rs =>
             if wholeDayDiff tz d (hd 0 (e :: rest')) =? 1 then (d :: r) :: rs
             else [d] :: r :: rs
         | [] => [[d]]
         end).
      rewrite E in *. cbn [hd].
      inversion Hr as [| ? ? Hr1 Hr2]; subst.
      destruct (Z.eqb_spec (wholeDayDiff tz d e) 1) as [E1 | E1].
      * repeat split.
        -- simpl in *. now rewrite Hc.
        -- constructor; [now constructor | exact Hr2].
        -- inversion Hs; subst; constructor; assumption.
      * repeat split.
        -- simpl in *. now rewrite Hc.
        -- constructor; [constructor | exact Hr].
        -- constructor; [| exact Hs]. simpl.
           rewrite wholeDayDiff_sub in *.
           inversion Hall; subst. lia.
Qed.

Lemma Math_max_spec (x : Z) (xs : list Z) :
  MaxOrZero (x :: xs) (JsArray.Math_max x xs).
Proof.
  unfold JsArray.Math_max, MaxOrZero.
  revert x. induction xs as [| y ys IH]; intros x.
  - simpl. split; [now left |]. intros z [-> | []]. lia.
  - cbn [fold_left]. destruct (IH (Z.max x y)) as [Hin Hle]. split.
    + destruct Hin as [E | Hin]; [| now right; right].
      rewrite <- E. destruct (Z.max_spec x y) as [[_ ->] | [_ ->]];
        [right; now left | now left].
    + intros z Hz.
      assert (Z.max x y <= fold_left Z.max ys (Z.max x y))
        by (apply Hle; now left).
      destruct Hz as [<- | [<- | Hz]]; [lia | lia |].
      apply Hle. now right.
Qed.

Lemma Math_min_spec (x : Z) (xs : list Z) :
  MinOrZero (x :: xs) (JsArray.Math_min x xs).
Proof.
  unfold JsArray.Math_min, MinOrZero.
  revert x. induction xs as [| y ys IH]; intros x.
  - simpl. split; [now left |]. intros z [-> | []]. lia.
  - cbn [fold_left]. destruct (IH (Z.min x y)) as [Hin Hle]. split.
    + destruct Hin as [E | Hin]; [| now right; right].
      rewrite <- E. destruct (Z.min_spec x y) as [[_ ->] | [_ ->]];
        [now left | right; now left].
    + intros z Hz.
      assert (fold_left Z.min ys (Z.min x y) <= Z.min x y)
        by (apply Hle; now left).
      destruct Hz as [<- | [<- | Hz]]; [lia | lia |].
      apply Hle. now right.
Qed.
End StreakSpec.

(** ** The two loops compute the runs and the rest gaps *)

Section Loops.
Import JsDate DateFns.
Variable tz : Z.

Lemma nth_after_middle (pre : list Z) (p d : Z) (rest : list Z) :
  nth (S (List.length pre)) (pre ++ p :: d :: rest) 0 = d.
Proof.
  replace (pre ++ p :: d :: rest) with ((pre ++ [p]) ++ d :: rest)
    by (rewrite <- app_assoc; reflexivity).
  replace (S (List.length pre)) with (List.length (pre ++ [p]))
    by (rewrite length_app; simpl; lia).
  apply nth_middle.
Qed.

Lemma streak_loop_walk (rest pre : list Z) (p : Z) (acc : list Z) (cur : Z) :
  0 < cur ->
  fold_left (streakStep tz (pre ++ p :: rest))
    (seq (S (List.length pre)) (List.length rest)) (acc, cur)
  = walk tz p rest (acc, cur).
Proof.
  revert pre p acc cur.
  induction rest as [| d rest' IH]; intros pre p acc cur Hcur.
  - reflexivity.
  - cbn [List.length seq fold_left walk fst snd].
    unfold streakStep at 2.
    destruct (Z.eqb_spec cur 0) as [E | _]; [lia |].
    replace (S (List.length pre) - 1)%nat with (List.length pre) by lia.
    rewrite nth_middle, nth_after_middle.
    fold (wholeDayDiff tz p d).
    specialize (IH (pre ++ [p]) d).
    rewrite <- app_assoc, length_app in IH. cbn [app List.length] in IH.
    replace (List.length pre + 1)%nat with (S (List.length pre)) in IH by lia.
    destruct (wholeDayDiff tz p d =? 1); apply IH; lia.
Qed.

Lemma walk_runs (rest : list Z) (p : Z) (acc : list Z) (cur : Z) :
  0 < cur ->
  0 < snd (walk tz p rest (acc, cur))
  /\ fst (walk tz p rest (acc, cur)) ++ [snd (walk tz p rest (acc, cur))]
     = acc ++ bump (cur - 1) (map JsArray.length (groupRuns tz (p :: rest))).
Proof.
  revert p acc cur.
  induction rest as [| d rest' IH]; intros p acc cur Hcur.
  - cbn [walk fst snd groupRuns map bump]. split; [exact Hcur |].
    unfold JsArray.length. cbn [List.length Z.of_nat Pos.of_succ_nat].
    do 2 f_equal. lia.
  - cbn [walk fst snd].
    destruct (groupRuns_nonempty tz d rest') as [r [rs E]].
    change (groupRuns tz (p :: d :: rest')) with
      (match groupRuns tz (d :: rest') with
       | r :: rs =>
           if wholeDayDiff tz p (hd 0 (d :: rest')) =? 1 then (p :: r) :: rs
           else [p] :: r :: rs
       | [] => [[p]]
       end).
    cbn [hd].
    destruct (wholeDayDiff tz p d =? 1).
    + destruct (IH d acc (cur + 1) ltac:(lia)) as [Hpos Heq].
      split; [exact Hpos |]. rewrite Heq, E. cbn [map bump].
      do 2 f_equal. unfold JsArray.length. cbn [List.length]. lia.
    + destruct (IH d (acc ++ [cur]) 1 ltac:(lia)) as [Hpos Heq].
      split; [exact Hpos |]. rewrite Heq, E. cbn [map bump].
      rewrite <- app_assoc. cbn [app]. f_equal.
      replace (JsArray.length [p]) with 1 by reflexivity.
      repeat (f_equal; try lia).
Qed.

(** The streak loop yields the lengths of the runs, most recent run first. *)
Lemma streakLengthsOf_runs (days : list Z) :
  streakLengthsOf tz days = map JsArray.length (groupRuns tz days).
Proof.
  unfold streakLengthsOf.
  destruct days as [| d rest]; [reflexivity |].
  cbn [List.length seq fold_left].
  unfold streakStep at 2. cbn [Z.eqb].
  pose proof (streak_loop_walk rest [] d [] 1 ltac:(lia)) as L.
  cbn [app List.length] in L. rewrite L.
  destruct (walk_runs rest d [] 1 ltac:(lia)) as [Hpos Heq].
  destruct (walk tz d rest ([], 1)) as [acc cur]. cbn [fst snd] in *.
  destruct (Z.ltb_spec 0 cur); [| lia].
  rewrite Heq. cbn [app].
  destruct (map JsArray.length (groupRuns tz (d :: rest))) as [| n ns];
    [reflexivity |].
  cbn [bump]. f_equal. lia.
Qed.

Lemma rest_loop_spec (rest pre acc : list Z) :
  fold_left (restStep tz (pre ++ rest))
    (seq (List.length pre) (List.length rest - 1)) acc
  = acc ++ restGapsSpec tz rest.
Proof.
  revert pre acc.
  induction rest as [| newer rest' IH]; intros pre acc.
  - simpl. now rewrite app_nil_r.
  - destruct rest' as [| older rest''].
    + simpl. now rewrite app_nil_r.
    + replace (List.length (newer :: older :: rest'') - 1)%nat
        with (S (List.length (older :: rest'') - 1))
        by (cbn [List.length]; lia).
      cbn [seq fold_left].
      unfold restStep at 2.
      replace (List.length pre + 1)%nat with (S (List.length pre)) by lia.
      rewrite nth_middle, nth_after_middle.
      fold (wholeDayDiff tz newer older).
      specialize (IH (pre ++ [newer])).
      rewrite <- app_assoc, length_app in IH. cbn [app List.length] in IH.
      replace (List.length pre + 1)%nat with (S (List.length pre)) in IH by lia.
      rewrite IH.
      unfold restGapsSpec, adjacentPairs.
      cbn [tl combine map filter fst snd].
      destruct (0 <? wholeDayDiff tz newer older - 1).
      * rewrite <- app_assoc. reflexivity.
      * reflexivity.
Qed.

(** The rest loop yields the positive gaps between adjacent keys. *)
Lemma restGapsOf_spec (days : list Z) :
  restGapsOf tz days = restGapsSpec tz days.
Proof.
  unfold restGapsOf. apply (rest_loop_spec days [] []).
Qed.
End Loops.

(** ** The streak fields of the result *)

Section StreakFields.
Import JsDate DateFns.
Variable tz : Z.
Context {N : Type} `{JsNumber N}.
Variables (logs : list (FlightLog N)) (now : Z).

Let s := computeStats tz logs now.
Let days := uniqueDayStrings logs.
Let lens := map JsArray.length (groupRuns tz days).

Lemma maxStreak_eq :
  maxStreak s = match lens with n :: ns => JsArray.Math_max n ns | [] => 0 end.
Proof.
  unfold lens, days. rewrite <- streakLengthsOf_runs. reflexivity.
Qed.

Lemma minStreak_eq :
  minStreak s = match filter (fun n => 0 <? n) lens with
                | n :: ns => JsArray.Math_min n ns
                | [] => 0
                end.
Proof.
  unfold lens, days. rewrite <- streakLengthsOf_runs. reflexivity.
Qed.

Lemma streakBreaks_eq :
  streakBreaks s
  = Z.max 0 (JsArray.length (filter (fun n => 0 <? n) lens) - 1).
Proof.
  unfold lens, days. rewrite <- streakLengthsOf_runs. reflexivity.
Qed.

Lemma restBreaks_eq : restBreaks s = JsArray.length lens.
Proof.
  unfold lens, days. rewrite <- streakLengthsOf_runs. reflexivity.
Qed.

Lemma consecutiveDays_eq :
  consecutiveDays s =
  match days with
  | key0 :: _ =>
      if differenceInDays tz now (ofDateString key0) <=? 1
      then match lens with n :: _ => n | [] => 0 end
      else 0
  | [] => 0
  end.
Proof.
  unfold lens, days. rewrite <- streakLengthsOf_runs. reflexivity.
Qed.

Lemma maxRestStreak_eq :
  maxRestStreak s = match restGapsSpec tz days with
                    | g :: gs => JsArray.Math_max g gs
                    | [] => 0
                    end.
Proof.
  unfold days. rewrite <- restGapsOf_spec. reflexivity.
Qed.

Lemma minRestStreak_eq :
  minRestStreak s = match restGapsSpec tz days with
                    | g :: gs => JsArray.Math_min g gs
                    | [] => 0
                    end.
Proof.
  unfold days. rewrite <- restGapsOf_spec. reflexivity.
Qed.
End StreakFields.

Lemma MaxOrZero_of_match (l : list Z) :
  MaxOrZero l (match l with n :: ns => JsArray.Math_max n ns | [] => 0 end).
Proof. destruct l; [reflexivity | apply Math_max_spec]. Qed.

Lemma MinOrZero_of_match (l : list Z) :
  MinOrZero l (match l with n :: ns => JsArray.Math_min n ns | [] => 0 end).
Proof. destruct l; [reflexivity | apply Math_min_spec]. Qed.

(** Four consecutive days form one run of length 4. *)
Lemma groupRuns_four (tz d : Z) :
  groupRuns tz [d; d - 1; d - 2; d - 3] = [[d; d - 1; d - 2; d - 3]].
Proof.
  cbn [groupRuns hd]. rewrite !wholeDayDiff_sub.
  replace (d - 2 - (d - 3)) with 1 by lia.
  replace (d - 1 - (d - 2)) with 1 by lia.
  replace (d - (d - 1)) with 1 by lia.
  reflexivity.
Qed.

(** Two days with two empty days in between form two runs of length 1. *)
Lemma groupRuns_gap (tz d : Z) : groupRuns tz [d + 3; d] = [[d + 3]; [d]].
Proof.
  cbn [groupRuns hd]. rewrite wholeDayDiff_sub.
  replace (d + 3 - d) with 3 by lia. reflexivity.
Qed.

Lemma restGapsSpec_gap (tz d : Z) : restGapsSpec tz [d + 3; d] = [2].
Proof.
  unfold restGapsSpec, adjacentPairs. cbn [tl combine map fst snd].
  rewrite wholeDayDiff_sub. replace (d + 3 - d - 1) with 2 by lia.
  reflexivity.
Qed.

(** *** The streak scenarios on sample logs (host zone UTC+8) *)

(** A single entry today. *)
Example single_entry_today :
  let s := computeStats UTC_plus_8 (january_2024 [5])
             (JsDate.UTC 2024 0 5 13 0) in
  flightsToday s = 1 /\ consecutiveDays s = 1 /\ maxStreak s = 1
  /\ streakBreaks s = 0 /\ daysSinceLastFlight s = 0.
Proof. vm_compute. repeat split. Qed.

(** Three consecutive days, read on the third. *)
Example three_consecutive_days :
  let s := computeStats UTC_plus_8 (january_2024 [1; 2; 3])
             (JsDate.UTC 2024 0 3 13 0) in
  uniqueDayStrings (january_2024 [1; 2; 3]) = [19725; 19724; 19723]
  /\ consecutiveDays s = 3 /\ maxStreak s = 3 /\ minStreak s = 3
  /\ streakBreaks s = 0 /\ maxRestStreak s = 0.
Proof. vm_compute. repeat split. Qed.

(** Entries on 1 and 4 January: two empty days in between. *)
Example gap_breaks_streak :
  let s := computeStats UTC_plus_8 (january_2024 [1; 4])
             (JsDate.UTC 2024 0 4 13 0) in
  maxStreak s = 1 /\ streakBreaks s = 1
  /\ maxRestStreak s = 2 /\ minRestStreak s = 2 /\ restBreaks s = 2.
Proof. vm_compute. repeat split. Qed.

(** A run of four days that ended five days before the reading. *)
Example lapsed_streak :
  let now := JsDate.UTC 2024 0 9 13 0 in
  let s := computeStats UTC_plus_8 (january_2024 [1; 2; 3; 4]) now in
  DateFns.differenceInDays UTC_plus_8 now (JsDate.ofDateString 19726) = 5
  /\ maxStreak s = 4 /\ consecutiveDays s = 0.
Proof. vm_compute. repeat split. Qed.

(** ** Incidents *)

Section Incidents.
Variable tz : Z.
Context {N : Type} `{JsNumber N}.

Lemma validLogs_idem (logs : list (FlightLog N)) :
  validLogs (validLogs logs) = validLogs logs.
Proof.
  unfold validLogs. induction logs as [| l ls IH]; simpl; [reflexivity |].
  destruct (isNight l) eqn:E; simpl; [exact IH |].
  rewrite E. simpl. now rewrite IH.
Qed.

Lemma nightLogs_validLogs (logs : list (FlightLog N)) :
  nightLogs (validLogs logs) = [].
Proof.
  unfold nightLogs, validLogs. induction logs as [| l ls IH]; simpl;
    [reflexivity |].
  destruct (isNight l) eqn:E; simpl; [exact IH |].
  rewrite E. exact IH.
Qed.

Lemma isNight_type (l : FlightLog N) : isNight l = true <-> type l = night.
Proof. unfold isNight. destruct (type l); split; congruence. Qed.

(** Removing the incidents from the input changes only the two incident
    fields of the result. *)
Lemma incidents_isolated (logs : list (FlightLog N)) (now : Z) :
  computeStats tz logs now
  = withIncidentFields (computeStats tz (validLogs logs) now)
      (totalNightFlights (computeStats tz logs now))
      (daysSinceLastIncident (computeStats tz logs now)).
Proof.
  unfold computeStats, withIncidentFields, uniqueDayStrings. cbv zeta.
  cbn [flightsToday flightsThisWeek flightsThisYear flightsThisMonth
       hoursToday hoursThisWeek hoursThisMonth hoursThisYear
       soloFlightsToday soloFlightsThisWeek soloFlightsThisMonth
       soloFlightsThisYear multiFlightsToday multiFlightsThisWeek
       multiFlightsThisMonth multiFlightsThisYear daysSinceLastFlight
       consecutiveDays maxStreak minStreak streakBreaks maxRestStreak
       minRestStreak restBreaks totalFlights totalSoloFlights
       totalMultiFlights totalHours avgDuration maxDuration minDuration
       totalNightFlights daysSinceLastIncident].
  rewrite !validLogs_idem. reflexivity.
Qed.

Lemma daysSinceLastIncident_cases (logs : list (FlightLog N)) (now : Z) :
  let s := computeStats tz logs now in
  ((forall l, In l logs -> type l <> night) /\ daysSinceLastIncident s = -1)
  \/ (exists l0,
         In l0 logs /\ type l0 = night
         /\ (forall l, In l logs -> type l = night -> date l <= date l0)
         /\ daysSinceLastIncident s
            = DateFns.differenceInDays tz now (date l0)).
Proof.
  intros s.
  assert (E : daysSinceLastIncident s =
              match JsArray.sort byDateDesc (nightLogs logs) with
              | l0 :: _ => DateFns.differenceInDays tz now (date l0)
              | [] => -1
              end) by reflexivity.
  destruct (JsArray.sort byDateDesc (nightLogs logs)) as [| l0 rest] eqn:Es.
  - left. split; [| exact E].
    apply sort_nil_inv in Es. intros l Hin Hty.
    assert (Hl : In l (nightLogs logs))
      by (apply filter_In; split; [exact Hin | now apply isNight_type]).
    rewrite Es in Hl. destruct Hl.
  - right. exists l0.
    destruct (sorted_head_latest _ _ _ Es) as [Hin Hmax].
    apply filter_In in Hin. destruct Hin as [Hin Hn].
    split; [exact Hin |]. split; [now apply isNight_type |].
    split; [| exact E].
    intros l Hl Hty. apply Hmax. apply filter_In.
    split; [exact Hl | now apply isNight_type].
Qed.
End Incidents.


(** ** Periods *)

Section Periods.
Import JsDate DateFns.
Variable tz : Z.

Lemma mondayOf_spec (day : Z) :
  IsMonday (mondayOf day) /\ mondayOf day <= day < mondayOf day + 7.
Proof.
  unfold IsMonday, mondayOf.
  destruct (Z.ltb_spec ((day + 4) mod 7) 1);
    Z.div_mod_to_equations; lia.
Qed.

Lemma mondayOf_unique (day monday : Z) :
  IsMonday monday -> monday <= day < monday + 7 -> mondayOf day = monday.
Proof.
  unfold IsMonday, mondayOf. intros Hm Hr.
  destruct (Z.ltb_spec ((day + 4) mod 7) 1);
    Z.div_mod_to_equations; lia.
Qed.

Lemma startOfWeek_monday (t : Z) :
  startOfWeek tz 1 t = mondayOf (localDay tz t) * MS_PER_DAY - tz.
Proof. reflexivity. Qed.

Lemma isSameWeek_iff (a b : Z) :
  isSameWeek tz 1 a b = true <-> SameWeekFromMonday tz a b.
Proof.
  unfold isSameWeek. rewrite Z.eqb_eq, !startOfWeek_monday.
  pose proof MS_PER_DAY_pos as HM.
  split.
  - intros E.
    assert (E' : mondayOf (localDay tz a) = mondayOf (localDay tz b)) by nia.
    exists (mondayOf (localDay tz a)).
    destruct (mondayOf_spec (localDay tz a)) as [H1 H2].
    destruct (mondayOf_spec (localDay tz b)) as [_ H3].
    rewrite <- E' in H3. auto.
  - intros [monday [Hm [Ha Hb]]].
    rewrite (mondayOf_unique _ _ Hm Ha), (mondayOf_unique _ _ Hm Hb).
    reflexivity.
Qed.

Lemma isSameDay_localDay (a b : Z) :
  isSameDay tz a b = true <-> localDay tz a = localDay tz b.
Proof.
  unfold isSameDay, startOfDay. rewrite Z.eqb_eq.
  pose proof MS_PER_DAY_pos. split; intros; nia.
Qed.

Lemma isSameDay_iff (a b : Z) :
  isSameDay tz a b = true <-> SameCalendarDay tz a b.
Proof.
  rewrite isSameDay_localDay. unfold SameCalendarDay, localDate.
  split; [intros ->; reflexivity | apply civil_injective].
Qed.

Lemma isSameMonth_iff (a b : Z) :
  isSameMonth tz a b = true <-> SameCalendarMonth tz a b.
Proof.
  unfold isSameMonth, SameCalendarMonth, getFullYear, getMonth, localDate.
  destruct (civil_from_days (localDay tz a)) as [[y1 m1] d1].
  destruct (civil_from_days (localDay tz b)) as [[y2 m2] d2].
  cbn [fst snd]. rewrite andb_true_iff, !Z.eqb_eq. intuition lia.
Qed.

Lemma sameYear_iff (a b : Z) :
  (getFullYear tz a =? getFullYear tz b) = true <-> SameCalendarYear tz a b.
Proof.
  unfold SameCalendarYear, getFullYear, localDate.
  destruct (civil_from_days (localDay tz a)) as [[y1 m1] d1].
  destruct (civil_from_days (localDay tz b)) as [[y2 m2] d2].
  cbn [fst snd]. apply Z.eqb_eq.
Qed.

(** Containment of the periods: a day lies in one week, one month and one
    year. *)
Lemma sameDay_sameWeek (a b : Z) :
  isSameDay tz a b = true -> isSameWeek tz 1 a b = true.
Proof.
  rewrite isSameDay_localDay. intros E.
  unfold isSameWeek. rewrite !startOfWeek_monday, E. apply Z.eqb_refl.
Qed.

Lemma sameDay_sameMonth (a b : Z) :
  isSameDay tz a b = true -> isSameMonth tz a b = true.
Proof.
  rewrite isSameDay_localDay. intros E.
  unfold isSameMonth, getFullYear, getMonth. rewrite E.
  rewrite !Z.eqb_refl. reflexivity.
Qed.

Lemma sameMonth_sameYear (a b : Z) :
  isSameMonth tz a b = true -> (getFullYear tz a =? getFullYear tz b) = true.
Proof.
  unfold isSameMonth. rewrite andb_true_iff. tauto.
Qed.
End Periods.

Lemma filter_Permutation {A : Type} (p : A -> bool) (l l' : list A) :
  Permutation l l' -> Permutation (filter p l) (filter p l').
Proof.
  induction 1 as [| x l l' _ IH | x y l | l l' l'' _ IH1 _ IH2]; simpl.
  - constructor.
  - destruct (p x); [now constructor | exact IH].
  - destruct (p x), (p y); try reflexivity. apply perm_swap.
  - now transitivity (filter p l').
Qed.

Section PeriodCounts.
Variable tz : Z.
Context {N : Type} `{JsNumber N}.
Variables (logs : list (FlightLog N)) (now : Z).

Lemma getCounts_sorted (q : FlightLog N -> bool) (p : FlightLog N -> bool) :
  JsArray.length
    (filter p (filter q (JsArray.sort byDateDesc (validLogs logs))))
  = countIn p (filter q (validLogs logs)).
Proof.
  unfold countIn. apply filter_perm_length, filter_Permutation, sort_perm.
Qed.

Lemma allCounts_sorted (p : FlightLog N -> bool) :
  JsArray.length (filter p (JsArray.sort byDateDesc (validLogs logs)))
  = countIn p (validLogs logs).
Proof. unfold countIn. apply filter_perm_length, sort_perm. Qed.
End PeriodCounts.

(** C6: the period tests.  An entry counts for today exactly when it falls
    on the local calendar day of [now], for this week exactly when it falls
    into the Monday-to-Sunday week of [now], for this month and this year
    exactly when its local calendar month and year are those of [now]; each
    period count is the number of non-incident entries (all, solo-only,
    shared-only) that pass the test. *)
Theorem C6_period_classification :
  forall (tz : Z) (N : Type) (num : JsNumber N)
         (logs : list (FlightLog N)) (now : Z),
    let s := computeStats tz logs now in
    let all := validLogs logs in
    let solo := filter isSingle (validLogs logs) in
    let shared := filter isMulti (validLogs logs) in
    (forall l : FlightLog N,
        (inToday tz now l = true <-> SameCalendarDay tz (date l) now)
        /\ (inWeek tz now l = true <-> SameWeekFromMonday tz (date l) now)
        /\ (inMonth tz now l = true <-> SameCalendarMonth tz (date l) now)
        /\ (inYear tz now l = true <-> SameCalendarYear tz (date l) now))
    /\ flightsToday s = countIn (inToday tz now) all
    /\ flightsThisWeek s = countIn (inWeek tz now) all
    /\ flightsThisMonth s = countIn (inMonth tz now) all
    /\ flightsThisYear s = countIn (inYear tz now) all
    /\ soloFlightsToday s = countIn (inToday tz now) solo
    /\ soloFlightsThisWeek s = countIn (inWeek tz now) solo
    /\ soloFlightsThisMonth s = countIn (inMonth tz now) solo
    /\ soloFlightsThisYear s = countIn (inYear tz now) solo
    /\ multiFlightsToday s = countIn (inToday tz now) shared
    /\ multiFlightsThisWeek s = countIn (inWeek tz now) shared
    /\ multiFlightsThisMonth s = countIn (inMonth tz now) shared
    /\ multiFlightsThisYear s = countIn (inYear tz now) shared.
Proof.
  intros tz N num logs now s all solo shared.
  split.
  - intros l. unfold inToday, inWeek, inMonth, inYear.
    split; [apply isSameDay_iff |].
    split; [apply isSameWeek_iff |].
    split; [apply isSameMonth_iff | apply sameYear_iff].
  - subst s all solo shared.
    cbn [computeStats getCounts today week month year
         flightsToday flightsThisWeek flightsThisMonth flightsThisYear
         soloFlightsToday soloFlightsThisWeek soloFlightsThisMonth
         soloFlightsThisYear multiFlightsToday multiFlightsThisWeek
         multiFlightsThisMonth multiFlightsThisYear].
    rewrite !allCounts_sorted, !getCounts_sorted.
    repeat split.
Qed.

(** ** Durations in exact arithmetic *)

Section ExactDurations.
Local Open Scope Q_scope.

Lemma fold_left_qsum (logList : list (FlightLog Q)) (acc : Q) :
  fold_left (fun a curr => a + flightTime curr) logList acc
  == acc + qsum (map flightTime logList).
Proof.
  revert acc. induction logList as [| l ls IH]; intros acc; simpl.
  - ring.
  - rewrite IH. ring.
Qed.

Lemma sumHours_qsum (logList : list (FlightLog Q)) :
  sumHours logList == qsum (map flightTime logList).
Proof.
  unfold sumHours. cbn [num_add num_zero Exact.number].
  rewrite fold_left_qsum. ring.
Qed.

Lemma qsum_perm (l l' : list Q) : Permutation l l' -> qsum l == qsum l'.
Proof.
  induction 1 as [| x l l' _ IH | x y l | l l' l'' _ IH1 _ IH2]; simpl.
  - reflexivity.
  - now rewrite IH.
  - ring.
  - now rewrite IH1.
Qed.

Lemma qsum_filter_mono (p q : FlightLog Q -> bool)
      (logList : list (FlightLog Q)) :
  (forall l, p l = true -> q l = true) ->
  (forall l, In l logList -> 0 <= flightTime l) ->
  qsum (map flightTime (filter p logList))
  <= qsum (map flightTime (filter q logList)).
Proof.
  intros Hpq. induction logList as [| l ls IH]; intros Hpos; simpl.
  - apply Qle_refl.
  - assert (IH' := IH (fun x Hx => Hpos x (or_intror Hx))).
    assert (H0 := Hpos l (or_introl eq_refl)).
    destruct (p l) eqn:Ep.
    + rewrite (Hpq l Ep). simpl.
      apply Qplus_le_compat; [apply Qle_refl | exact IH'].
    + destruct (q l); simpl; [| exact IH'].
      rewrite <- (Qplus_0_l (qsum (map flightTime (filter p ls)))).
      apply Qplus_le_compat; assumption.
Qed.

Lemma qsum_filter_le (p : FlightLog Q -> bool) (logList : list (FlightLog Q)) :
  (forall l, In l logList -> 0 <= flightTime l) ->
  qsum (map flightTime (filter p logList)) <= qsum (map flightTime logList).
Proof.
  induction logList as [| l ls IH]; intros Hpos; simpl.
  - apply Qle_refl.
  - assert (IH' := IH (fun x Hx => Hpos x (or_intror Hx))).
    assert (H0 := Hpos l (or_introl eq_refl)).
    destruct (p l); simpl.
    + apply Qplus_le_compat; [apply Qle_refl | exact IH'].
    + rewrite <- (Qplus_0_l (qsum (map flightTime (filter p ls)))).
      apply Qplus_le_compat; assumption.
Qed.

(** A sum lies between the count times the smallest and the count times the
    largest summand. *)
Lemma qsum_bounds (l : list Q) (lo hi : Q) :
  (forall x, In x l -> lo <= x <= hi) ->
  inject_Z (Z.of_nat (List.length l)) * lo <= qsum l
  /\ qsum l <= inject_Z (Z.of_nat (List.length l)) * hi.
Proof.
  induction l as [| x xs IH]; intros Hb.
  - simpl. split; ring_simplify; apply Qle_refl.
  - destruct (IH (fun y Hy => Hb y (or_intror Hy))) as [IHlo IHhi].
    destruct (Hb x (or_introl eq_refl)) as [Hlo Hhi].
    cbn [List.length qsum]. rewrite Nat2Z.inj_succ. unfold Z.succ.
    rewrite inject_Z_plus. split.
    + setoid_replace ((inject_Z (Z.of_nat (List.length xs)) + inject_Z 1) * lo)
        with (lo + inject_Z (Z.of_nat (List.length xs)) * lo) by ring.
      now apply Qplus_le_compat.
    + setoid_replace ((inject_Z (Z.of_nat (List.length xs)) + inject_Z 1) * hi)
        with (hi + inject_Z (Z.of_nat (List.length xs)) * hi) by ring.
      now apply Qplus_le_compat.
Qed.

Lemma max2_spec (a b : Q) :
  (Exact.max2 a b = a \/ Exact.max2 a b = b)
  /\ a <= Exact.max2 a b /\ b <= Exact.max2 a b.
Proof.
  unfold Exact.max2. destruct (Qle_bool a b) eqn:E.
  - apply Qle_bool_iff in E. repeat split; auto using Qle_refl.
  - assert (~ a <= b) by (rewrite <- Qle_bool_iff; congruence).
    repeat split; auto using Qle_refl.
    apply Qlt_le_weak, Qnot_le_lt. assumption.
Qed.

Lemma min2_spec (a b : Q) :
  (Exact.min2 a b = a \/ Exact.min2 a b = b)
  /\ Exact.min2 a b <= a /\ Exact.min2 a b <= b.
Proof.
  unfold Exact.min2. destruct (Qle_bool a b) eqn:E.
  - apply Qle_bool_iff in E. repeat split; auto using Qle_refl.
  - assert (~ a <= b) by (rewrite <- Qle_bool_iff; congruence).
    repeat split; auto using Qle_refl.
    apply Qlt_le_weak, Qnot_le_lt. assumption.
Qed.

Lemma fold_max2_spec (ds : list Q) (d : Q) :
  In (fold_left Exact.max2 ds d) (d :: ds)
  /\ forall x, In x (d :: ds) -> x <= fold_left Exact.max2 ds d.
Proof.
  revert d. induction ds as [| y ys IH]; intros d.
  - simpl. split; [now left |]. intros x [<- | []]. apply Qle_refl.
  - cbn [fold_left]. destruct (IH (Exact.max2 d y)) as [Hin Hle].
    destruct (max2_spec d y) as [Hsel [Hd Hy]]. split.
    + destruct Hin as [E | Hin]; [| now right; right].
      rewrite <- E. destruct Hsel as [-> | ->]; [now left | right; now left].
    + assert (Hm : Exact.max2 d y <= fold_left Exact.max2 ys (Exact.max2 d y))
        by (apply Hle; now left).
      intros x [<- | [<- | Hx]].
      * eapply Qle_trans; eassumption.
      * eapply Qle_trans; eassumption.
      * apply Hle. now right.
Qed.

Lemma fold_min2_spec (ds : list Q) (d : Q) :
  In (fold_left Exact.min2 ds d) (d :: ds)
  /\ forall x, In x (d :: ds) -> fold_left Exact.min2 ds d <= x.
Proof.
  revert d. induction ds as [| y ys IH]; intros d.
  - simpl. split; [now left |]. intros x [<- | []]. apply Qle_refl.
  - cbn [fold_left]. destruct (IH (Exact.min2 d y)) as [Hin Hle].
    destruct (min2_spec d y) as [Hsel [Hd Hy]]. split.
    + destruct Hin as [E | Hin]; [| now right; right].
      rewrite <- E. destruct Hsel as [-> | ->]; [now left | right; now left].
    + assert (Hm : fold_left Exact.min2 ys (Exact.min2 d y) <= Exact.min2 d y)
        by (apply Hle; now left).
      intros x [<- | [<- | Hx]].
      * eapply Qle_trans; eassumption.
      * eapply Qle_trans; eassumption.
      * apply Hle. now right.
Qed.
End ExactDurations.

(** ** Monotonicity over periods *)

Section CountsMonotone.
Variable tz : Z.
Context {N : Type} `{JsNumber N}.

Lemma inToday_inWeek (now : Z) (l : FlightLog N) :
  inToday tz now l = true -> inWeek tz now l = true.
Proof. apply sameDay_sameWeek. Qed.

Lemma inToday_inMonth (now : Z) (l : FlightLog N) :
  inToday tz now l = true -> inMonth tz now l = true.
Proof. apply sameDay_sameMonth. Qed.

Lemma inMonth_inYear (now : Z) (l : FlightLog N) :
  inMonth tz now l = true -> inYear tz now l = true.
Proof. apply sameMonth_sameYear. Qed.

Lemma getCounts_monotone (now : Z) (dataset : list (FlightLog N)) :
  let c := getCounts tz now dataset in
  today c <= week c /\ today c <= month c
  /\ month c <= year c /\ year c <= total c.
Proof.
  cbn [getCounts today week month year total].
  split; [apply filter_length_mono, inToday_inWeek |].
  split; [apply filter_length_mono, inToday_inMonth |].
  split; [apply filter_length_mono, inMonth_inYear |].
  apply filter_length_le.
Qed.
End CountsMonotone.

Section MonotoneSums.
Variable tz : Z.
Context {N : Type} `{JsNumber N}.
Variable le : N -> N -> Prop.
Hypothesis le_monotone : MonotoneAddition le.

(** Summing the entries that pass a weaker test, in the same order, from a
    larger start value, gives a larger sum. *)
Lemma fold_add_mono (p q : FlightLog N -> bool) (logList : list (FlightLog N)) :
  (forall l, p l = true -> q l = true) ->
  (forall l, In l logList -> le num_zero (flightTime l)) ->
  forall a b, le num_zero a -> le a b ->
    le (fold_left (fun acc curr => num_add acc (flightTime curr))
          (filter p logList) a)
       (fold_left (fun acc curr => num_add acc (flightTime curr))
          (filter q logList) b).
Proof.
  intros Hpq. destruct le_monotone as [H00 Htrans Hadd Hmono].
  induction logList as [| l ls IH]; intros Hpos a b Ha Hab.
  - exact Hab.
  - assert (Hl := Hpos l (or_introl eq_refl)).
    assert (IH' := IH (fun x Hx => Hpos x (or_intror Hx))).
    assert (Hb : le num_zero b) by exact (Htrans _ _ _ Ha Hab).
    cbn [filter]. destruct (p l) eqn:Ep.
    + rewrite (Hpq l Ep). cbn [fold_left]. apply IH'.
      * eapply Htrans; [exact Ha | now apply Hadd].
      * now apply Hmono.
    + destruct (q l); cbn [fold_left]; apply IH'; try assumption.
      eapply Htrans; [exact Hab | now apply Hadd].
Qed.

Lemma hours_mono_sorted (p q : FlightLog N -> bool)
      (logs : list (FlightLog N)) :
  (forall l, p l = true -> q l = true) ->
  (forall l, In l logs -> isNight l = false -> le num_zero (flightTime l)) ->
  le (sumHours (filter p (JsArray.sort byDateDesc (validLogs logs))))
     (sumHours (filter q (JsArray.sort byDateDesc (validLogs logs)))).
Proof.
  intros Hpq Hpos. unfold sumHours.
  apply fold_add_mono; try assumption; try apply le_monotone.
  intros l Hin. apply (Permutation_in _ (sort_perm byDateDesc _)) in Hin.
  apply filter_In in Hin. destruct Hin as [Hin Hn].
  apply Hpos; [exact Hin | now apply negb_true_iff].
Qed.
End MonotoneSums.

Lemma Qle_monotone : MonotoneAddition Qle.
Proof.
  split; cbn [num_zero num_add Exact.number].
  - apply Qle_refl.
  - intros a b c. apply Qle_trans.
  - intros a x _ Hx. rewrite <- (Qplus_0_r a) at 1.
    apply Qplus_le_compat; [apply Qle_refl | exact Hx].
  - intros a b x _ Hab _. apply Qplus_le_compat; [exact Hab | apply Qle_refl].
Qed.

Section HoursMonotone.
Local Open Scope Q_scope.
Variable tz : Z.
Variables (logs : list (FlightLog Q)) (now : Z).
Hypothesis durations_nonneg :
  forall l, In l logs -> isNight l = false -> 0 <= flightTime l.

Lemma sorted_nonneg (l : FlightLog Q) :
  In l (JsArray.sort byDateDesc (validLogs logs)) -> 0 <= flightTime l.
Proof.
  intros Hin. apply (Permutation_in _ (sort_perm byDateDesc _)) in Hin.
  apply filter_In in Hin. destruct Hin as [Hin Hn].
  apply durations_nonneg; [exact Hin | now apply negb_true_iff].
Qed.

Lemma hours_filter_mono (p q : FlightLog Q -> bool) :
  (forall l, p l = true -> q l = true) ->
  sumHours (filter p (JsArray.sort byDateDesc (validLogs logs)))
  <= sumHours (filter q (JsArray.sort byDateDesc (validLogs logs))).
Proof.
  intros Hpq. rewrite !sumHours_qsum.
  apply qsum_filter_mono; [exact Hpq | exact sorted_nonneg].
Qed.

Lemma hours_filter_total (p : FlightLog Q -> bool) :
  sumHours (filter p (JsArray.sort byDateDesc (validLogs logs)))
  <= sumHours (validLogs logs).
Proof.
  rewrite !sumHours_qsum.
  rewrite <- (qsum_perm _ _ (Permutation_map flightTime
                               (sort_perm byDateDesc (validLogs logs)))).
  apply qsum_filter_le. exact sorted_nonneg.
Qed.
End HoursMonotone.

(** ** The order of binary64 numbers *)

Section Binary64Order.
Lemma SFcompare_antisym (a b : spec_float) :
  SFcompare b a = option_map CompOpp (SFcompare a b).
Proof.
  destruct a as [sa | sa | | sa ma ea], b as [sb | sb | | sb mb eb];
    try reflexivity;
    try (destruct sa; reflexivity);
    try (destruct sb; reflexivity);
    try (destruct sa, sb; reflexivity).
  cbn [SFcompare option_map].
  change (Pos.compare_cont Eq mb ma) with (Pos.compare mb ma).
  change (Pos.compare_cont Eq ma mb) with (Pos.compare ma mb).
  rewrite (Z.compare_antisym ea eb), (Pos.compare_antisym ma mb).
  destruct sa, sb; try reflexivity;
    destruct (ea ?= eb); cbn [CompOpp]; try reflexivity;
    destruct (ma ?= mb)%positive; reflexivity.
Qed.

Lemma SFleb_trans (a b c : spec_float) :
  SFleb a b = true -> SFleb b c = true -> SFleb a c = true.
Proof.
  unfold SFleb.
  destruct a as [sa | sa | | sa ma ea], b as [sb | sb | | sb mb eb],
           c as [sc | sc | | sc mc ec];
    cbn [SFcompare];
    try discriminate; try reflexivity;
    repeat match goal with s : bool |- _ => destruct s end;
    try discriminate; try reflexivity.
  all: change (Pos.compare_cont Eq ma mb) with (Pos.compare ma mb);
       change (Pos.compare_cont Eq mb mc) with (Pos.compare mb mc);
       change (Pos.compare_cont Eq ma mc) with (Pos.compare ma mc);
       destruct (Z.compare_spec ea eb), (Z.compare_spec eb ec),
         (Z.compare_spec ea ec); try lia; try discriminate; try reflexivity;
       destruct (Pos.compare_spec ma mb), (Pos.compare_spec mb mc),
         (Pos.compare_spec ma mc); cbn [CompOpp];
       try lia; try discriminate; try reflexivity.
Qed.

Lemma is_nan_eqb (a : float) :
  is_nan a = false -> SFeqb (Prim2SF a) (Prim2SF a) = true.
Proof.
  unfold is_nan. rewrite FloatAxioms.eqb_spec. now destruct (SFeqb _ _).
Qed.

Lemma float_le_refl (a : float) : is_nan a = false -> float_le a a.
Proof.
  intros Ha. apply is_nan_eqb in Ha. unfold float_le.
  rewrite FloatAxioms.leb_spec.
  unfold SFeqb, SFleb in *.
  destruct (SFcompare (Prim2SF a) (Prim2SF a)) as [[| |] |];
    discriminate || reflexivity.
Qed.

Lemma float_le_trans (a b c : float) :
  float_le a b -> float_le b c -> float_le a c.
Proof. unfold float_le. rewrite !FloatAxioms.leb_spec. apply SFleb_trans. Qed.

Lemma float_lt_le (a b : float) : (a <? b)%float = true -> float_le a b.
Proof.
  unfold float_le. rewrite FloatAxioms.ltb_spec, FloatAxioms.leb_spec.
  unfold SFltb, SFleb.
  destruct (SFcompare (Prim2SF a) (Prim2SF b)) as [[| |] |];
    discriminate || reflexivity.
Qed.

Lemma SFcompare_defined (a b : spec_float) :
  SFeqb a a = true -> SFeqb b b = true -> exists c, SFcompare a b = Some c.
Proof.
  destruct a as [sa | sa | | sa ma ea], b as [sb | sb | | sb mb eb];
    cbn; try discriminate; eauto.
Qed.

Lemma float_le_total (a b : float) :
  is_nan a = false -> is_nan b = false ->
  (a <? b)%float = false -> float_le b a.
Proof.
  intros Ha Hb. apply is_nan_eqb in Ha, Hb.
  unfold float_le. rewrite FloatAxioms.ltb_spec, FloatAxioms.leb_spec.
  destruct (SFcompare_defined _ _ Ha Hb) as [c Hc].
  unfold SFltb, SFleb.
  rewrite (SFcompare_antisym (Prim2SF a) (Prim2SF b)), Hc.
  destruct c; cbn [option_map CompOpp]; discriminate || reflexivity.
Qed.

Lemma float_max2_spec (a b : float) :
  is_nan a = false -> is_nan b = false ->
  (Binary64.max2 a b = a \/ Binary64.max2 a b = b)
  /\ float_le a (Binary64.max2 a b) /\ float_le b (Binary64.max2 a b).
Proof.
  intros Ha Hb. unfold Binary64.max2. rewrite Ha, Hb. cbn [orb].
  destruct (a <? b)%float eqn:Eab.
  - auto using float_lt_le, float_le_refl.
  - destruct (b <? a)%float eqn:Eba.
    + auto using float_lt_le, float_le_refl.
    + pose proof (float_le_total a b Ha Hb Eab).
      pose proof (float_le_total b a Hb Ha Eba).
      destruct (get_sign a); auto using float_le_refl.
Qed.

Lemma float_min2_spec (a b : float) :
  is_nan a = false -> is_nan b = false ->
  (Binary64.min2 a b = a \/ Binary64.min2 a b = b)
  /\ float_le (Binary64.min2 a b) a /\ float_le (Binary64.min2 a b) b.
Proof.
  intros Ha Hb. unfold Binary64.min2. rewrite Ha, Hb. cbn [orb].
  destruct (a <? b)%float eqn:Eab.
  - auto using float_lt_le, float_le_refl.
  - destruct (b <? a)%float eqn:Eba.
    + auto using float_lt_le, float_le_refl.
    + pose proof (float_le_total a b Ha Hb Eab).
      pose proof (float_le_total b a Hb Ha Eba).
      destruct (get_sign a); auto using float_le_refl.
Qed.

Lemma float_fold_max2 (ds : list float) (d : float) :
  (forall x, In x (d :: ds) -> is_nan x = false) ->
  In (fold_left Binary64.max2 ds d) (d :: ds)
  /\ forall x, In x (d :: ds) -> float_le x (fold_left Binary64.max2 ds d).
Proof.
  revert d. induction ds as [| y ys IH]; intros d Hnn.
  - simpl. split; [now left |]. intros x [<- | []].
    apply float_le_refl, Hnn. now left.
  - cbn [fold_left].
    assert (Hd : is_nan d = false) by (apply Hnn; now left).
    assert (Hy : is_nan y = false) by (apply Hnn; right; now left).
    destruct (float_max2_spec d y Hd Hy) as [Hsel [Hle1 Hle2]].
    destruct (IH (Binary64.max2 d y)) as [Hin Hle].
    { intros x [<- | Hx]; [destruct Hsel as [-> | ->]; assumption |].
      apply Hnn. now right; right. }
    split.
    + destruct Hin as [E | Hin]; [| now right; right].
      rewrite <- E. destruct Hsel as [-> | ->]; [now left | right; now left].
    + assert (Hm : float_le (Binary64.max2 d y)
                     (fold_left Binary64.max2 ys (Binary64.max2 d y)))
        by (apply Hle; now left).
      intros x [<- | [<- | Hx]].
      * eapply float_le_trans; eassumption.
      * eapply float_le_trans; eassumption.
      * apply Hle. now right.
Qed.

Lemma float_fold_min2 (ds : list float) (d : float) :
  (forall x, In x (d :: ds) -> is_nan x = false) ->
  In (fold_left Binary64.min2 ds d) (d :: ds)
  /\ forall x, In x (d :: ds) -> float_le (fold_left Binary64.min2 ds d) x.
Proof.
  revert d. induction ds as [| y ys IH]; intros d Hnn.
  - simpl. split; [now left |]. intros x [<- | []].
    apply float_le_refl, Hnn. now left.
  - cbn [fold_left].
    assert (Hd : is_nan d = false) by (apply Hnn; now left).
    assert (Hy : is_nan y = false) by (apply Hnn; right; now left).
    destruct (float_min2_spec d y Hd Hy) as [Hsel [Hle1 Hle2]].
    destruct (IH (Binary64.min2 d y)) as [Hin Hle].
    { intros x [<- | Hx]; [destruct Hsel as [-> | ->]; assumption |].
      apply Hnn. now right; right. }
    split.
    + destruct Hin as [E | Hin]; [| now right; right].
      rewrite <- E. destruct Hsel as [-> | ->]; [now left | right; now left].
    + assert (Hm : float_le (fold_left Binary64.min2 ys (Binary64.min2 d y))
                     (Binary64.min2 d y))
        by (apply Hle; now left).
      intros x [<- | [<- | Hx]].
      * eapply float_le_trans; eassumption.
      * eapply float_le_trans; eassumption.
      * apply Hle. now right.
Qed.
End Binary64Order.

(** ** Average and extreme durations *)

Section ExactAverage.
Local Open Scope Q_scope.
Variable tz : Z.
Variables (logs : list (FlightLog Q)) (now : Z).
Hypothesis some_entry : (0 < JsArray.length (validLogs logs))%Z.

Let s := computeStats tz logs now.
Let durations := map flightTime (validLogs logs).
Let count := JsArray.length (validLogs logs).

Lemma avgDuration_exact : avgDuration s = totalHours s / inject_Z count.
Proof.
  unfold s, count. cbn [computeStats avgDuration totalHours].
  destruct (Z.ltb_spec 0 (JsArray.length (validLogs logs)));
    [reflexivity | lia].
Qed.

Lemma totalHours_exact : totalHours s == qsum durations.
Proof. apply sumHours_qsum. Qed.

Lemma maxDuration_exact :
  In (maxDuration s) durations
  /\ forall d, In d durations -> d <= maxDuration s.
Proof.
  unfold s, durations. cbn [computeStats maxDuration].
  destruct (map flightTime (validLogs logs)) as [| d ds] eqn:E.
  - unfold JsArray.length in some_entry.
    rewrite <- (length_map flightTime), E in some_entry.
    simpl in some_entry. lia.
  - apply fold_max2_spec.
Qed.

Lemma minDuration_exact :
  In (minDuration s) durations
  /\ forall d, In d durations -> minDuration s <= d.
Proof.
  unfold s, durations. cbn [computeStats minDuration].
  destruct (map flightTime (validLogs logs)) as [| d ds] eqn:E.
  - unfold JsArray.length in some_entry.
    rewrite <- (length_map flightTime), E in some_entry.
    simpl in some_entry. lia.
  - apply fold_min2_spec.
Qed.

Lemma average_between_extremes :
  minDuration s <= avgDuration s /\ avgDuration s <= maxDuration s.
Proof.
  destruct maxDuration_exact as [_ Hmax], minDuration_exact as [_ Hmin].
  destruct (qsum_bounds durations (minDuration s) (maxDuration s)) as [Hlo Hhi].
  { intros x Hx. split; [now apply Hmin | now apply Hmax]. }
  assert (Hlen : Z.of_nat (List.length durations) = count)
    by (unfold durations, count, JsArray.length; now rewrite length_map).
  rewrite Hlen in Hlo, Hhi.
  assert (Hpos : 0 < inject_Z count)
    by (change 0 with (inject_Z 0); rewrite <- Zlt_Qlt; exact some_entry).
  rewrite avgDuration_exact, totalHours_exact. split.
  - apply Qle_shift_div_l; [exact Hpos |]. now rewrite Qmult_comm.
  - apply Qle_shift_div_r; [exact Hpos |]. now rewrite Qmult_comm.
Qed.
End ExactAverage.

Section Binary64Extremes.
Variable tz : Z.
Variables (logs : list (FlightLog float)) (now : Z).
Hypothesis some_entry : 0 < JsArray.length (validLogs logs).
Hypothesis no_nan :
  forall l, In l logs -> isNight l = false -> is_nan (flightTime l) = false.

Let s := computeStats tz logs now.
Let durations := map flightTime (validLogs logs).

Lemma durations_no_nan (x : float) : In x durations -> is_nan x = false.
Proof.
  unfold durations. rewrite in_map_iff. intros [l [<- Hin]].
  apply filter_In in Hin. destruct Hin as [Hin Hn].
  apply no_nan; [exact Hin | now apply negb_true_iff].
Qed.

Lemma float_maxDuration :
  In (maxDuration s) durations
  /\ forall d, In d durations -> float_le d (maxDuration s).
Proof.
  pose proof durations_no_nan as Hnn.
  unfold s, durations in *. cbn [computeStats maxDuration].
  destruct (map flightTime (validLogs logs)) as [| d ds] eqn:E.
  - unfold JsArray.length in some_entry.
    rewrite <- (length_map flightTime), E in some_entry.
    simpl in some_entry. lia.
  - apply float_fold_max2. exact Hnn.
Qed.

Lemma float_minDuration :
  In (minDuration s) durations
  /\ forall d, In d durations -> float_le (minDuration s) d.
Proof.
  pose proof durations_no_nan as Hnn.
  unfold s, durations in *. cbn [computeStats minDuration].
  destruct (map flightTime (validLogs logs)) as [| d ds] eqn:E.
  - unfold JsArray.length in some_entry.
    rewrite <- (length_map flightTime), E in some_entry.
    simpl in some_entry. lia.
  - apply float_fold_min2. exact Hnn.
Qed.
End Binary64Extremes.

(** C7: with at least one non-incident entry, [avgDuration] is the
    quotient of [totalHours] by the number of non-incident entries, taken
    in the number type of the durations; in binary64, for durations other
    than NaN, [maxDuration] and [minDuration] are the largest and the
    smallest duration, so that [minDuration <= maxDuration]; in exact
    arithmetic [totalHours] is the sum of the durations and the average
    lies between the smallest and the largest duration. *)
Theorem C7_average_duration :
  forall (tz now : Z),
    (forall (N : Type) (num : JsNumber N) (logs : list (FlightLog N)),
        0 < JsArray.length (validLogs logs) ->
        let s := computeStats tz logs now in
        avgDuration s
        = num_div_length (totalHours s) (JsArray.length (validLogs logs)))
    /\ (forall logs : list (FlightLog float),
           0 < JsArray.length (validLogs logs) ->
           (forall l, In l logs -> isNight l = false ->
                      is_nan (flightTime l) = false) ->
           let s := computeStats tz logs now in
           let durations := map flightTime (validLogs logs) in
           (In (maxDuration s) durations
            /\ forall d, In d durations -> float_le d (maxDuration s))
           /\ (In (minDuration s) durations
               /\ forall d, In d durations -> float_le (minDuration s) d)
           /\ float_le (minDuration s) (maxDuration s))
    /\ (forall logs : list (FlightLog Q),
           0 < JsArray.length (validLogs logs) ->
           let s := computeStats tz logs now in
           let durations := map flightTime (validLogs logs) in
           avgDuration s
           = (totalHours s / inject_Z (JsArray.length (validLogs logs)))%Q
           /\ (totalHours s == qsum durations)%Q
           /\ (In (maxDuration s) durations
               /\ forall d, In d durations -> (d <= maxDuration s)%Q)
           /\ (In (minDuration s) durations
               /\ forall d, In d durations -> (minDuration s <= d)%Q)
           /\ (minDuration s <= avgDuration s)%Q
           /\ (avgDuration s <= maxDuration s)%Q).
Proof.
  intros tz now. split; [| split].
  - intros N num logs Hcount s. subst s.
    cbn [computeStats avgDuration totalHours].
    destruct (Z.ltb_spec 0 (JsArray.length (validLogs logs)));
      [reflexivity | lia].
  - intros logs Hcount Hnn s durations.
    pose proof (float_maxDuration tz logs now Hcount Hnn) as Hmax.
    pose proof (float_minDuration tz logs now Hcount Hnn) as Hmin.
    split; [exact Hmax |]. split; [exact Hmin |].
    apply (proj2 Hmax). apply (proj1 Hmin).
  - intros logs Hcount s durations.
    split; [now apply avgDuration_exact |].
    split; [apply totalHours_exact |].
    split; [now apply maxDuration_exact |].
    split; [now apply minDuration_exact |].
    now apply average_between_extremes.
Qed.

Lemma C7_counterexample :
  let s := computeStats UTC_plus_8 tenth_logs (JsDate.UTC 2024 0 10 13 0) in
  totalFlights s = 10
  /\ totalHours s = 0.9999999999999999%float
  /\ avgDuration s = 0.09999999999999999%float
  /\ minDuration s = 0.1%float
  /\ maxDuration s = 0.1%float
  /\ PrimFloat.ltb (avgDuration s) (minDuration s) = true.
Proof. vm_compute. repeat split. Qed.

Lemma C7_average_duration_witness :
  let s := computeStats UTC_plus_8 exact_tenth_logs
             (JsDate.UTC 2024 0 10 13 0) in
  let durations := map flightTime (validLogs exact_tenth_logs) in
  avgDuration s
  = (totalHours s / inject_Z (JsArray.length (validLogs exact_tenth_logs)))%Q
  /\ (totalHours s == qsum durations)%Q
  /\ (In (maxDuration s) durations
      /\ forall d, In d durations -> (d <= maxDuration s)%Q)
  /\ (In (minDuration s) durations
      /\ forall d, In d durations -> (minDuration s <= d)%Q)
  /\ (minDuration s <= avgDuration s)%Q
  /\ (avgDuration s <= maxDuration s)%Q.
Proof.
  exact (proj2 (proj2 (C7_average_duration UTC_plus_8
                         (JsDate.UTC 2024 0 10 13 0)))
           exact_tenth_logs eq_refl).
Defined.

(** ** What the result depends on *)

(** A strictly descending list is determined by its elements. *)
Lemma descending_unique (l1 l2 : list Z) :
  descending l1 -> descending l2 ->
  (forall k, In k l1 <-> In k l2) -> l1 = l2.
Proof.
  unfold descending. intros S1. revert l2.
  induction S1 as [| x xs Sx IH Hx]; intros l2 S2 Hiff.
  - destruct l2 as [| y ys]; [reflexivity |].
    destruct (proj2 (Hiff y) (or_introl eq_refl)).
  - destruct S2 as [| y ys Sy Hy].
    + destruct (proj1 (Hiff x) (or_introl eq_refl)).
    + rewrite Forall_forall in Hx, Hy.
      assert (E : x = y).
      { destruct (proj1 (Hiff x) (or_introl eq_refl)) as [E | Hin];
          [now symmetry |].
        destruct (proj2 (Hiff y) (or_introl eq_refl)) as [E | Hin'];
          [exact E |].
        specialize (Hx y Hin'). specialize (Hy x Hin). lia. }
      subst y. f_equal. apply IH; [exact Sy |].
      intros k. split; intros Hk.
      * destruct (proj1 (Hiff k) (or_intror Hk)) as [E | Hin]; [| exact Hin].
        specialize (Hx k Hk). lia.
      * destruct (proj2 (Hiff k) (or_intror Hk)) as [E | Hin]; [| exact Hin].
        specialize (Hy k Hk). lia.
Qed.

Section ReadFields.
Variable tz : Z.
Context {N : Type} `{JsNumber N}.

Lemma readFields_same (a b : FlightLog N) :
  sameReadFields a b -> readFields a = readFields b.
Proof. intros [Ed [Et Ef]]. unfold readFields. now rewrite Ed, Et, Ef. Qed.

Lemma readFields_all (l1 l2 : list (FlightLog N)) :
  Forall2 sameReadFields l1 l2 -> map readFields l1 = map readFields l2.
Proof.
  induction 1 as [| a b l1 l2 Hab _ IH]; [reflexivity |].
  cbn [map]. now rewrite (readFields_same a b Hab), IH.
Qed.

Lemma filter_readFields (p : FlightLog N -> bool) (l : list (FlightLog N)) :
  (forall x, p (readFields x) = p x) ->
  filter p (map readFields l) = map readFields (filter p l).
Proof.
  intros Hp. induction l as [| x xs IH]; [reflexivity |].
  cbn [map filter]. rewrite Hp, IH. now destruct (p x).
Qed.

Lemma sort_readFields (l : list (FlightLog N)) :
  JsArray.sort byDateDesc (map readFields l)
  = map readFields (JsArray.sort byDateDesc l).
Proof. apply sort_map. reflexivity. Qed.

Lemma length_readFields (l : list (FlightLog N)) :
  JsArray.length (map readFields l) = JsArray.length l.
Proof. unfold JsArray.length. now rewrite length_map. Qed.

Lemma sumHours_readFields (l : list (FlightLog N)) :
  sumHours (map readFields l) = sumHours l.
Proof.
  unfold sumHours. generalize (num_zero (N := N)) as acc.
  induction l as [| x xs IH]; intros acc; [reflexivity |].
  cbn [map fold_left]. apply IH.
Qed.

Lemma getCounts_readFields (now : Z) (l : list (FlightLog N)) :
  getCounts tz now (map readFields l) = getCounts tz now l.
Proof.
  unfold getCounts.
  rewrite !filter_readFields by reflexivity.
  now rewrite !length_readFields.
Qed.

Lemma head_readFields {B : Type} (l : list (FlightLog N))
      (f : Z -> B) (c : B) :
  match map readFields l with l0 :: _ => f (date l0) | [] => c end
  = match l with l0 :: _ => f (date l0) | [] => c end.
Proof. now destruct l. Qed.

Lemma validLogs_readFields (l : list (FlightLog N)) :
  validLogs (map readFields l) = map readFields (validLogs l).
Proof. apply filter_readFields. reflexivity. Qed.

Lemma nightLogs_readFields (l : list (FlightLog N)) :
  nightLogs (map readFields l) = map readFields (nightLogs l).
Proof. apply filter_readFields. reflexivity. Qed.

Lemma uniqueDayStrings_readFields (l : list (FlightLog N)) :
  uniqueDayStrings (map readFields l) = uniqueDayStrings l.
Proof.
  unfold uniqueDayStrings. rewrite validLogs_readFields, map_map.
  reflexivity.
Qed.

(** The engine reads the date, the type and the duration of an entry and
    nothing else. *)
Lemma computeStats_readFields (logs : list (FlightLog N)) (now : Z) :
  computeStats tz (map readFields logs) now = computeStats tz logs now.
Proof.
  unfold computeStats. cbv zeta.
  rewrite uniqueDayStrings_readFields.
  rewrite validLogs_readFields, nightLogs_readFields.
  rewrite !sort_readFields.
  rewrite !filter_readFields by reflexivity.
  rewrite !getCounts_readFields, !sumHours_readFields, !length_readFields.
  rewrite !head_readFields.
  rewrite map_map. cbn [readFields entry flightTime].
  reflexivity.
Qed.
End ReadFields.

(** C8: what the result depends on.  For a given host time zone and
    reference instant, the result is determined by the date, the type and
    the duration of the entries in their stored order: two log lists that
    agree in these three fields entry by entry give the same result,
    whatever the identifiers, ratings, moods, notes and creation stamps.
    The day keys that feed the streak analysis do not depend on the order
    in which the set of keys is enumerated: two log lists whose
    non-incident entries cover the same UTC days have the same key
    list. *)
Theorem C8_deterministic :
  forall (tz : Z) (N : Type) (num : JsNumber N),
    (forall (logs1 logs2 : list (FlightLog N)) (now : Z),
        Forall2 sameReadFields logs1 logs2 ->
        computeStats tz logs1 now = computeStats tz logs2 now)
    /\ (forall logs1 logs2 : list (FlightLog N),
           (forall k,
               In k (map (fun l => JsDate.toISODateString (date l))
                         (validLogs logs1))
               <-> In k (map (fun l => JsDate.toISODateString (date l))
                             (validLogs logs2))) ->
           uniqueDayStrings logs1 = uniqueDayStrings logs2).
Proof.
  intros tz N num. split.
  - intros logs1 logs2 now Hsame.
    rewrite <- (computeStats_readFields tz logs1 now).
    rewrite <- (computeStats_readFields tz logs2 now).
    now rewrite (readFields_all logs1 logs2 Hsame).
  - intros logs1 logs2 Hkeys.
    destruct (uniqueDayStrings_spec logs1) as [D1 K1].
    destruct (uniqueDayStrings_spec logs2) as [D2 K2].
    apply descending_unique; [exact D1 | exact D2 |].
    intros k. rewrite K1, K2.
    assert (G : forall logs : list (FlightLog N),
               (exists l, In l logs /\ isNight l = false
                          /\ JsDate.toISODateString (date l) = k)
               <-> In k (map (fun l => JsDate.toISODateString (date l))
                             (validLogs logs))).
    { intros logs. rewrite in_map_iff. unfold validLogs.
      split; intros [l Hl]; exists l.
      - destruct Hl as [Hin [Hn E]]. split; [exact E |].
        apply filter_In. split; [exact Hin | now rewrite Hn].
      - destruct Hl as [E Hin]. apply filter_In in Hin.
        destruct Hin as [Hin Hn]. apply negb_true_iff in Hn. tauto. }
    rewrite !G. apply Hkeys.
Qed.

(** The same entry under another identifier, with notes, ratings and a
    mood. *)
Lemma C8_deterministic_witness :
  computeStats UTC_plus_8 annotated_morning_log (JsDate.UTC 2024 0 2 1 0)
  = computeStats UTC_plus_8 early_morning_log (JsDate.UTC 2024 0 2 1 0).
Proof.
  apply (proj1 (C8_deterministic UTC_plus_8 float Binary64.number)).
  unfold annotated_morning_log, early_morning_log.
  constructor; [| constructor].
  unfold sameReadFields. cbn [date type flightTime entry].
  repeat split.
Defined.

(** The host time zone is an input of the engine that the log list and
    the reference instant do not carry: the entry of 2024-01-01T23:00Z,
    read at 2024-01-02T01:00Z, is an entry of yesterday on a host in UTC
    and an entry of today on a host in UTC+8. *)
Lemma C8_counterexample :
  let now := JsDate.UTC 2024 0 2 1 0 in
  let utc := computeStats 0 early_morning_log now in
  let shanghai := computeStats UTC_plus_8 early_morning_log now in
  flightsToday utc = 0 /\ flightsToday shanghai = 1
  /\ flightsThisYear utc = 1 /\ flightsThisYear shanghai = 1.
Proof. vm_compute. repeat split. Qed.

(** ** Day keys and the local calendar *)

Section DayKeysAtWork.
Import String.
Local Open Scope string_scope.

(** C5: the day keys are UTC dates.  In UTC+8 the two entries of one
    local calendar day get two different day keys (the UTC dates
    2024-01-02 and 2024-01-01), so that at 10:00 of that day the engine
    reports two flights today and a two-day streak; and an entry of
    yesterday 07:00 leaves the current streak at 0 at 09:00 today, one
    whole day later. *)
Theorem C5_day_keys_are_UTC_dates :
  let now := JsDate.UTC 2024 0 2 2 0 in
  let s := computeStats UTC_plus_8 same_local_day_logs now in
  map (fun l => JsDate.dateText (localDate UTC_plus_8 (date l)))
      same_local_day_logs
  = ["2024-01-02"; "2024-01-02"]
  /\ uniqueDayTexts same_local_day_logs = ["2024-01-02"; "2024-01-01"]
  /\ map JsDate.isoDateText (uniqueDayStrings same_local_day_logs)
     = ["2024-01-02"; "2024-01-01"]
  /\ flightsToday s = 2
  /\ maxStreak s = 2
  /\ consecutiveDays s = 2
  /\ let now' := JsDate.UTC 2024 0 3 1 0 in
     let s' := computeStats UTC_plus_8 early_morning_log now' in
     JsDate.dateText (localDate UTC_plus_8 now') = "2024-01-03"
     /\ map (fun l => JsDate.dateText (localDate UTC_plus_8 (date l)))
            early_morning_log
        = ["2024-01-02"]
     /\ uniqueDayTexts early_morning_log = ["2024-01-01"]
     /\ daysSinceLastFlight s' = 1
     /\ consecutiveDays s' = 0.
Proof. vm_compute. repeat split. Qed.
End DayKeysAtWork.

(** What does hold of the day keys: they are the UTC dates of the
    non-incident entries, each once, most recent first. *)
Lemma day_keys_descending_UTC_dates {N : Type} (logs : list (FlightLog N)) :
  descending (uniqueDayStrings logs)
  /\ forall k, In k (uniqueDayStrings logs) <->
               exists l, In l logs /\ type l <> night
                         /\ JsDate.Day (date l) = k.
Proof.
  destruct (uniqueDayStrings_spec logs) as [D K]. split; [exact D |].
  intros k. rewrite K. split; intros [l [Hin [Hn E]]]; exists l;
    (split; [exact Hin |]); (split; [| exact E]).
  - intros Hty. apply isNight_type in Hty. congruence.
  - destruct (isNight l) eqn:En; [| reflexivity].
    apply isNight_type in En. contradiction.
Qed.

(** * Lemmas and theorems on the code around the engine *)

(** ** Streaks and rest gaps together *)

Section RunsAndGaps.
Variable tz : Z.

Lemma groupRuns_cons (d e : Z) (rest : list Z) :
  groupRuns tz (d :: e :: rest)
  = match groupRuns tz (e :: rest) with
    | r :: rs =>
        if wholeDayDiff tz d e =? 1 then (d :: r) :: rs else [d] :: r :: rs
    | [] => [[d]]
    end.
Proof. reflexivity. Qed.

Lemma restGapsSpec_cons (d e : Z) (rest : list Z) :
  restGapsSpec tz (d :: e :: rest)
  = (if 0 <? wholeDayDiff tz d e - 1 then [wholeDayDiff tz d e - 1] else [])
    ++ restGapsSpec tz (e :: rest).
Proof.
  unfold restGapsSpec, adjacentPairs. cbn [tl combine map filter fst snd].
  destruct (0 <? wholeDayDiff tz d e - 1); reflexivity.
Qed.

Lemma length_cons {A : Type} (x : A) (l : list A) :
  JsArray.length (x :: l) = JsArray.length l + 1.
Proof. unfold JsArray.length. cbn [List.length]. lia.  Qed.

Lemma length_nonneg {A : Type} (l : list A) : 0 <= JsArray.length l.
Proof. unfold JsArray.length. lia. Qed.

Lemma last_default {A : Type} (l : list A) (x a b : A) :
  last (x :: l) a = last (x :: l) b.
Proof.
  revert x. induction l as [| y ys IH]; intros x; [reflexivity |].
  change (last (y :: ys) a = last (y :: ys) b). apply IH.
Qed.

(** Over descending keys: one gap lies between each two neighbouring
    runs, every gap is at least one day long, and the runs and the gaps
    together fill the days from the last key to the first. *)
Lemma runs_and_gaps (days : list Z) :
  descending days ->
  let lens := map JsArray.length (groupRuns tz days) in
  let gaps := restGapsSpec tz days in
  Forall (fun n => 1 <= n) lens
  /\ Forall (fun g => 1 <= g) gaps
  /\ zsum lens = JsArray.length days
  /\ match days with
     | first :: _ =>
         JsArray.length gaps + 1 = JsArray.length lens
         /\ zsum lens + zsum gaps = first - last days first + 1
     | [] => lens = [] /\ gaps = []
     end.
Proof.
  cbv zeta. induction days as [| d rest IH]; intros Hd.
  - cbn. repeat split; constructor.
  - inversion Hd as [| ? ? Hrest Hall]; subst.
    specialize (IH Hrest). destruct IH as [Hlens [Hgaps [Hsum Hshape]]].
    destruct rest as [| e rest'].
    + cbn. repeat split; try lia; repeat constructor; lia.
    + destruct Hshape as [Hcount Hspan].
      destruct (groupRuns_nonempty tz e rest') as [r [rs E]].
      rewrite groupRuns_cons, restGapsSpec_cons, E in *.
      rewrite wholeDayDiff_sub.
      assert (Hde : e < d) by (inversion Hall; subst; lia).
      cbn [map] in Hlens, Hsum, Hcount, Hspan.
      inversion Hlens as [| ? ? Hr Hrs]; subst.
      rewrite !length_cons in *.
      change (last (d :: e :: rest') d) with (last (e :: rest') d).
      rewrite (last_default rest' e d e).
      destruct (Z.eqb_spec (d - e) 1) as [E1 | E1].
      * destruct (Z.ltb_spec 0 (d - e - 1)); [lia |].
        unfold zsum in *. cbn [map app fold_right] in *.
        rewrite !length_cons in *.
        split; [constructor; [lia | exact Hrs] |].
        split; [exact Hgaps |].
        split; [lia |]. split; lia.
      * destruct (Z.ltb_spec 0 (d - e - 1)); [| lia].
        unfold zsum in *. cbn [map app fold_right] in *.
        rewrite !length_cons in *.
        replace (JsArray.length (@nil Z)) with 0 by reflexivity.
        split; [constructor; [lia | constructor; [lia | exact Hrs]] |].
        split; [constructor; [lia | exact Hgaps] |].
        split; [lia |]. split; lia.
Qed.
End RunsAndGaps.

Lemma filter_all {A : Type} (p : A -> bool) (l : list A) :
  Forall (fun x => p x = true) l -> filter p l = l.
Proof.
  induction 1 as [| x xs Hx _ IH]; [reflexivity |].
  cbn [filter]. now rewrite Hx, IH.
Qed.

Lemma positive_lengths (lens : list Z) :
  Forall (fun n => 1 <= n) lens -> filter (fun n => 0 <? n) lens = lens.
Proof.
  intros H. apply filter_all. eapply Forall_impl; [| exact H].
  cbv beta. intros n Hn. apply Z.ltb_lt. lia.
Qed.

Lemma zsum_bounds (l : list Z) (x : Z) :
  Forall (fun n => 1 <= n) l -> In x l -> x <= zsum l.
Proof.
  unfold zsum. induction 1 as [| y ys Hy Hys IH]; intros Hin; [destruct Hin |].
  cbn [fold_right].
  assert (0 <= fold_right Z.add 0 ys).
  { clear IH Hin. induction Hys as [| z zs Hz _ IHz]; cbn [fold_right]; lia. }
  destruct Hin as [-> | Hin]; [lia | specialize (IH Hin); lia].
Qed.

Lemma setAdd_length (seen l : list Z) :
  JsArray.length (JsArray.setAdd Z.eqb seen l)
  <= JsArray.length seen + JsArray.length l.
Proof.
  unfold JsArray.length. revert seen.
  induction l as [| x xs IH]; intros seen; cbn [JsArray.setAdd List.length].
  - lia.
  - destruct (existsb (Z.eqb x) seen).
    + specialize (IH seen). lia.
    + specialize (IH (seen ++ [x])). rewrite length_app in IH.
      cbn [List.length] in IH. lia.
Qed.

Section StreakInvariants.
Variable tz : Z.
Context {N : Type} `{JsNumber N}.
Variables (logs : list (FlightLog N)) (now : Z).

Lemma totalFlights_length :
  totalFlights (computeStats tz logs now) = JsArray.length (validLogs logs).
Proof. cbn [computeStats totalFlights getCounts total]. apply sort_length. Qed.

Lemma day_keys_length :
  JsArray.length (uniqueDayStrings logs) <= JsArray.length (validLogs logs).
Proof.
  unfold uniqueDayStrings.
  assert (E : forall l : list Z, JsArray.length (rev l) = JsArray.length l)
    by (intros l; unfold JsArray.length; now rewrite length_rev).
  rewrite E, sort_length. unfold JsArray.fromSet.
  etransitivity; [apply setAdd_length |].
  unfold JsArray.length. cbn [List.length]. rewrite length_map. lia.
Qed.

Lemma day_keys_empty :
  uniqueDayStrings logs = [] <-> validLogs logs = [].
Proof.
  destruct (uniqueDayStrings_spec logs) as [_ K]. split; intros E.
  - destruct (validLogs logs) as [| l ls] eqn:V; [reflexivity | exfalso].
    assert (Hl : In l (validLogs logs)) by (rewrite V; now left).
    apply filter_In in Hl. destruct Hl as [Hin Hn].
    apply negb_true_iff in Hn.
    assert (Hk : In (JsDate.toISODateString (date l)) (uniqueDayStrings logs))
      by (apply K; exists l; auto).
    rewrite E in Hk. destruct Hk.
  - destruct (uniqueDayStrings logs) as [| k ks] eqn:U; [reflexivity | exfalso].
    destruct (proj1 (K k) (or_introl eq_refl)) as [l [Hin [Hn _]]].
    assert (Hl : In l (validLogs logs))
      by (apply filter_In; split; [exact Hin | now rewrite Hn]).
    rewrite E in Hl. destruct Hl.
Qed.
End StreakInvariants.

(** X1: invariants of the activity streaks.  The current streak is at most
    the longest one, the shortest one at most the longest one, and the
    longest one at most the number of days with an entry, which is at
    most the number of entries; the streak lengths add up to the number
    of days with an entry.  Without an entry all four streak figures are
    0; with one the shortest streak is at least one day long and the
    number of streaks exceeds the number of breaks by one. *)
Theorem streak_invariants :
  forall (tz : Z) (N : Type) (num : JsNumber N)
         (logs : list (FlightLog N)) (now : Z),
    let s := computeStats tz logs now in
    let days := uniqueDayStrings logs in
    0 <= consecutiveDays s <= maxStreak s
    /\ minStreak s <= maxStreak s
    /\ maxStreak s <= JsArray.length days <= totalFlights s
    /\ zsum (streakLengthsOf tz days) = JsArray.length days
    /\ (totalFlights s = 0 ->
        maxStreak s = 0 /\ minStreak s = 0
        /\ streakBreaks s = 0 /\ restBreaks s = 0)
    /\ (0 < totalFlights s ->
        1 <= minStreak s /\ restBreaks s = streakBreaks s + 1).
Proof.
  intros tz N num logs now s days.
  pose proof (maxStreak_eq tz logs now) as Emax.
  pose proof (minStreak_eq tz logs now) as Emin.
  pose proof (streakBreaks_eq tz logs now) as Ebrk.
  pose proof (restBreaks_eq tz logs now) as Erest.
  pose proof (consecutiveDays_eq tz logs now) as Ecur.
  pose proof (totalFlights_length tz logs now) as Etot.
  pose proof (day_keys_length logs) as Hkeys.
  pose proof (day_keys_empty logs) as Hempty.
  destruct (uniqueDayStrings_spec logs) as [Hdesc _].
  destruct (runs_and_gaps tz _ Hdesc) as [Hlens [_ [Hsum Hshape]]].
  rewrite streakLengthsOf_runs.
  fold s in Emax, Emin, Ebrk, Erest, Ecur, Etot.
  fold days in Emax, Emin, Ebrk, Erest, Ecur, Hkeys, Hempty, Hlens, Hsum,
    Hshape |- *.
  rewrite (positive_lengths _ Hlens) in Emin, Ebrk.
  rewrite Emax, Emin, Ebrk, Erest, Ecur, Etot. clear Emax Emin Ebrk Erest Ecur.
  assert (Hlen0 : forall l : list (FlightLog N),
             JsArray.length l = 0 <-> l = []).
  { intros l. unfold JsArray.length. destruct l; cbn; split;
      intros; (reflexivity || discriminate || lia). }
  destruct (map JsArray.length (groupRuns tz days)) as [| n ns] eqn:El.
  - (* no streak: no day key, no entry *)
    destruct days as [| d rest] eqn:Ed.
    + assert (V : validLogs logs = []) by now apply Hempty.
      rewrite V. cbn. repeat split; lia.
    + destruct Hshape as [Hc _].
      pose proof (length_nonneg (restGapsSpec tz (d :: rest))).
      change (JsArray.length (@nil Z)) with 0 in Hc. lia.
  - destruct days as [| d rest] eqn:Ed; [destruct Hshape; discriminate |].
    destruct (Math_max_spec n ns) as [Hmax_in Hmax].
    destruct (Math_min_spec n ns) as [Hmin_in Hmin].
    rewrite Forall_forall in Hlens.
    pose proof (Hmax n (or_introl eq_refl)) as Hn.
    pose proof (Hmin _ Hmax_in) as Hminmax.
    pose proof (Hlens _ Hmin_in) as Hmin1.
    pose proof (Hlens n (or_introl eq_refl)) as Hn1.
    assert (Hsumle : JsArray.Math_max n ns <= zsum (n :: ns))
      by (apply zsum_bounds; [now apply Forall_forall | exact Hmax_in]).
    assert (Hpos : 0 < JsArray.length (validLogs logs)).
    { rewrite length_cons in Hkeys. pose proof (length_nonneg rest). lia. }
    rewrite !length_cons in *.
    pose proof (length_nonneg ns).
    split.
    { destruct (DateFns.differenceInDays tz now (JsDate.ofDateString d) <=? 1);
        lia. }
    repeat split; try lia.
Qed.

(** X2: the rest gaps lie between the streaks, in a host zone of constant
    offset.  There are as many rest gaps as streak breaks, each at least
    one day long; so the longest rest is
    0 exactly when there is no break, and with a break the shortest rest
    is at least one day.  The streaks and the rest gaps together fill the
    days from the oldest day with an entry to the most recent one. *)
Theorem rest_gaps_between_streaks :
  forall (tz : Z) (N : Type) (num : JsNumber N)
         (logs : list (FlightLog N)) (now : Z),
    let s := computeStats tz logs now in
    let days := uniqueDayStrings logs in
    let gaps := restGapsOf tz days in
    JsArray.length gaps = streakBreaks s
    /\ Forall (fun g => 1 <= g) gaps
    /\ 0 <= minRestStreak s <= maxRestStreak s
    /\ (maxRestStreak s = 0 <-> streakBreaks s = 0)
    /\ (0 < streakBreaks s -> 1 <= minRestStreak s)
    /\ match days with
       | first :: _ =>
           zsum (streakLengthsOf tz days) + zsum gaps
           = first - last days first + 1
       | [] => gaps = []
       end.
Proof.
  intros tz N num logs now s days gaps.
  pose proof (streakBreaks_eq tz logs now) as Ebrk.
  pose proof (maxRestStreak_eq tz logs now) as Emax.
  pose proof (minRestStreak_eq tz logs now) as Emin.
  destruct (uniqueDayStrings_spec logs) as [Hdesc _].
  destruct (runs_and_gaps tz _ Hdesc) as [Hlens [Hgaps [Hsum Hshape]]].
  unfold gaps. rewrite restGapsOf_spec, streakLengthsOf_runs.
  fold s in Ebrk, Emax, Emin.
  fold days in Ebrk, Emax, Emin, Hlens, Hgaps, Hsum, Hshape |- *.
  rewrite (positive_lengths _ Hlens) in Ebrk.
  rewrite Ebrk, Emax, Emin. clear Ebrk Emax Emin.
  assert (Hcount : JsArray.length (restGapsSpec tz days)
                   = Z.max 0 (JsArray.length
                                (map JsArray.length (groupRuns tz days)) - 1)).
  { destruct days as [| d rest].
    - destruct Hshape as [-> ->]. reflexivity.
    - destruct Hshape as [Hc _].
      pose proof (length_nonneg (restGapsSpec tz (d :: rest))). lia. }
  split; [exact Hcount |]. split; [exact Hgaps |].
  rewrite <- Hcount.
  assert (Hspan : match days with
                  | first :: _ =>
                      zsum (map JsArray.length (groupRuns tz days))
                      + zsum (restGapsSpec tz days)
                      = first - last days first + 1
                  | [] => restGapsSpec tz days = []
                  end)
    by (destruct days; [apply Hshape | apply Hshape]).
  destruct (restGapsSpec tz days) as [| g gs] eqn:Eg.
  - change (JsArray.length (@nil Z)) with 0.
    repeat split; try lia; exact Hspan.
  - destruct (Math_max_spec g gs) as [Hmax_in Hmax].
    destruct (Math_min_spec g gs) as [Hmin_in Hmin].
    rewrite Forall_forall in Hgaps.
    pose proof (Hmin _ Hmax_in). pose proof (Hgaps _ Hmin_in).
    pose proof (Hgaps _ Hmax_in).
    rewrite length_cons. pose proof (length_nonneg gs).
    repeat split; try lia; exact Hspan.
Qed.

(** ** The order of the stored entries *)

Section StorageOrder.
Variable tz : Z.
Context {N : Type} `{JsNumber N}.
Variables (logs logs' : list (FlightLog N)) (now : Z).
Hypothesis same_entries : Permutation logs logs'.

Lemma perm_length {A : Type} (l l' : list A) :
  Permutation l l' -> JsArray.length l = JsArray.length l'.
Proof.
  intros P. unfold JsArray.length. f_equal. now apply Permutation_length.
Qed.

Lemma sorted_valid_perm :
  Permutation (JsArray.sort byDateDesc (validLogs logs))
    (JsArray.sort byDateDesc (validLogs logs')).
Proof.
  rewrite !sort_perm. now apply filter_Permutation.
Qed.

(** The most recent entries of two arrays with the same elements carry the
    same timestamp. *)
Lemma sorted_head_perm (l l' : list (FlightLog N)) (f : Z -> Z) (c : Z) :
  Permutation l l' ->
  match JsArray.sort byDateDesc l with l0 :: _ => f (date l0) | [] => c end
  = match JsArray.sort byDateDesc l' with l0 :: _ => f (date l0) | [] => c end.
Proof.
  intros P.
  destruct (JsArray.sort byDateDesc l) as [| x xs] eqn:E,
           (JsArray.sort byDateDesc l') as [| y ys] eqn:E'.
  - reflexivity.
  - apply sort_nil_inv in E. subst l. apply Permutation_nil in P. subst l'.
    discriminate.
  - apply sort_nil_inv in E'. subst l'.
    apply Permutation_sym, Permutation_nil in P. subst l. discriminate.
  - destruct (sorted_head_latest _ _ _ E) as [Hx Hmx].
    destruct (sorted_head_latest _ _ _ E') as [Hy Hmy].
    assert (date x = date y).
    { pose proof (Hmy x (Permutation_in _ P Hx)).
      pose proof (Hmx y (Permutation_in _ (Permutation_sym P) Hy)). lia. }
    congruence.
Qed.

Lemma day_keys_perm : uniqueDayStrings logs = uniqueDayStrings logs'.
Proof.
  destruct (uniqueDayStrings_spec logs) as [D K].
  destruct (uniqueDayStrings_spec logs') as [D' K'].
  apply descending_unique; [exact D | exact D' |].
  intros k. rewrite K, K'.
  split; intros [l [Hin Hl]]; exists l; (split; [| exact Hl]).
  - exact (Permutation_in _ same_entries Hin).
  - exact (Permutation_in _ (Permutation_sym same_entries) Hin).
Qed.
End StorageOrder.

Lemma cons_eq {A : Type} (x y : A) (l l' : list A) :
  x = y -> l = l' -> x :: l = y :: l'.
Proof. intros -> ->. reflexivity. Qed.

(** X3: the order in which the entries are stored does not matter for the
    counts and day figures: two log lists with the same entries give the
    same value in each of the 25 integer fields of the result. *)
Theorem stats_storage_order :
  forall (tz : Z) (N : Type) (num : JsNumber N)
         (logs logs' : list (FlightLog N)) (now : Z),
    Permutation logs logs' ->
    integerFields (computeStats tz logs now)
    = integerFields (computeStats tz logs' now).
Proof.
  intros tz N num logs logs' now P.
  pose proof (sorted_valid_perm logs logs' P) as PV.
  pose proof (day_keys_perm logs logs' P) as EK.
  pose proof (sorted_head_perm (validLogs logs) (validLogs logs')
                (DateFns.differenceInDays tz now) 0
                (filter_Permutation _ _ _ P)) as EF.
  pose proof (sorted_head_perm (nightLogs logs) (nightLogs logs')
                (DateFns.differenceInDays tz now) (-1)
                (filter_Permutation _ _ _ P)) as EI.
  pose proof (perm_length _ _ (filter_Permutation isNight _ _ P)) as EN.
  unfold integerFields.
  cbn [computeStats flightsToday flightsThisWeek flightsThisYear
       flightsThisMonth soloFlightsToday soloFlightsThisWeek
       soloFlightsThisMonth soloFlightsThisYear multiFlightsToday
       multiFlightsThisWeek multiFlightsThisMonth multiFlightsThisYear
       daysSinceLastFlight consecutiveDays maxStreak minStreak streakBreaks
       maxRestStreak minRestStreak restBreaks totalFlights totalSoloFlights
       totalMultiFlights totalNightFlights daysSinceLastIncident
       getCounts today week month year total].
  rewrite EK.
  repeat (apply cons_eq;
          [ first [ exact EF | exact EI | exact EN | reflexivity
                  | apply filter_perm_length, filter_Permutation, PV
                  | apply filter_perm_length, PV
                  | apply perm_length, filter_Permutation, PV
                  | apply perm_length, PV ]
          | ]).
  reflexivity.
Qed.

Lemma stats_storage_order_witness :
  integerFields
    (computeStats UTC_plus_8 mixed_logs (JsDate.UTC 2024 0 3 13 0))
  = integerFields
      (computeStats UTC_plus_8 (rev mixed_logs) (JsDate.UTC 2024 0 3 13 0)).
Proof.
  exact (stats_storage_order UTC_plus_8 float Binary64.number
           mixed_logs (rev mixed_logs) (JsDate.UTC 2024 0 3 13 0)
           (Permutation_rev mixed_logs)).
Defined.

(** ** Days since the last flight and the last incident *)

Section ElapsedDays.
Variable tz : Z.
Context {N : Type} `{JsNumber N}.
Variables (logs : list (FlightLog N)) (now : Z).

(** The entry that the elapsed days are counted from: a most recent one
    among the entries that pass [keep]. *)
Lemma latest_of (keep : FlightLog N -> bool) (none : Z) :
  let r := match JsArray.sort byDateDesc (filter keep logs) with
           | l0 :: _ => DateFns.differenceInDays tz now (date l0)
           | [] => none
           end in
  ((forall l, In l logs -> keep l = false) /\ r = none)
  \/ (exists l0,
         In l0 logs /\ keep l0 = true
         /\ (forall l, In l logs -> keep l = true -> date l <= date l0)
         /\ r = Z.quot (now - date l0) JsDate.MS_PER_DAY).
Proof.
  cbv zeta.
  destruct (JsArray.sort byDateDesc (filter keep logs)) as [| l0 rest] eqn:E.
  - left. split; [| reflexivity]. apply sort_nil_inv in E.
    intros l Hl. destruct (keep l) eqn:K; [| reflexivity].
    assert (Hin : In l (filter keep logs)) by (apply filter_In; now split).
    rewrite E in Hin. destruct Hin.
  - right. exists l0.
    destruct (sorted_head_latest _ _ _ E) as [Hin Hmax].
    apply filter_In in Hin. destruct Hin as [Hin K].
    split; [exact Hin |]. split; [exact K |]. split.
    + intros l Hl Kl. apply Hmax. apply filter_In. now split.
    + apply differenceInDays_quot.
Qed.

Lemma notNight_type (l : FlightLog N) :
  negb (isNight l) = true <-> type l <> night.
Proof.
  rewrite negb_true_iff. unfold isNight. destruct (type l);
    split; congruence.
Qed.
End ElapsedDays.

(** X4: the elapsed days on the dashboard, in a host zone of constant
    offset and for a log without entries dated after [now].  The days
    since the last flight are the whole 24-hour
    periods since the most recent non-incident entry, never negative;
    the hero card greets with "welcome back" exactly when there is no
    flight at all or one less than 24 hours ago.  The incident card
    shows the placeholder exactly when there is no incident, and
    otherwise the whole days since the most recent incident, never the
    sentinel -1. *)
Theorem elapsed_days_shown :
  forall (tz : Z) (N : Type) (num : JsNumber N)
         (logs : list (FlightLog N)) (now : Z),
    (forall l, In l logs -> date l <= now) ->
    let s := computeStats tz logs now in
    0 <= daysSinceLastFlight s
    /\ (forall l, In l logs -> type l <> night ->
          daysSinceLastFlight s <= (now - date l) / JsDate.MS_PER_DAY)
    /\ (Dashboard.greeting s = Dashboard.WelcomeBack
        <-> (forall l, In l logs -> type l = night)
            \/ (exists l, In l logs /\ type l <> night
                          /\ now - date l < JsDate.MS_PER_DAY))
    /\ (Dashboard.incidentVal s = None
        <-> forall l, In l logs -> type l <> night)
    /\ (forall d, Dashboard.incidentVal s = Some d ->
          0 <= d
          /\ exists l0,
               In l0 logs /\ type l0 = night
               /\ (forall l, In l logs -> type l = night -> date l <= date l0)
               /\ d = (now - date l0) / JsDate.MS_PER_DAY).
Proof.
  intros tz N num logs now Hpast s.
  pose proof MS_PER_DAY_pos as HM.
  assert (Q : forall l, In l logs ->
                Z.quot (now - date l) JsDate.MS_PER_DAY
                = (now - date l) / JsDate.MS_PER_DAY)
    by (intros l Hl; apply Z.quot_div_nonneg; [specialize (Hpast l Hl) |]; lia).
  (* flights *)
  pose proof (latest_of tz logs now (fun l => negb (isNight l)) 0) as F.
  cbv zeta in F.
  change (match JsArray.sort byDateDesc
                  (filter (fun l => negb (isNight l)) logs) with
          | l0 :: _ => DateFns.differenceInDays tz now (date l0)
          | [] => 0
          end) with (daysSinceLastFlight s) in F.
  (* incidents *)
  pose proof (latest_of tz logs now isNight (-1)) as I. cbv zeta in I.
  change (match JsArray.sort byDateDesc (filter isNight logs) with
          | l0 :: _ => DateFns.differenceInDays tz now (date l0)
          | [] => -1
          end) with (daysSinceLastIncident s) in I.
  assert (Cnt : totalNightFlights s = JsArray.length (filter isNight logs))
    by reflexivity.
  split; [| split; [| split; [| split]]].
  - destruct F as [[_ ->] | [l0 [Hin [_ [_ ->]]]]]; [lia |].
    rewrite (Q l0 Hin). apply Z.div_pos; [specialize (Hpast l0 Hin) |]; lia.
  - intros l Hl Hty.
    destruct F as [[Hnone _] | [l0 [Hin [_ [Hmax ->]]]]].
    + specialize (Hnone l Hl). cbv beta in Hnone.
      apply notNight_type in Hty. congruence.
    + rewrite (Q l0 Hin). apply Z.div_le_mono; [lia |].
      specialize (Hmax l Hl (proj2 (notNight_type l) Hty)). lia.
  - unfold Dashboard.greeting.
    destruct F as [[Hnone E] | [l0 [Hin [K0 [Hmax E]]]]]; rewrite E.
    + cbn [Z.eqb]. split; [intros _ | reflexivity]. left.
      intros l Hl. specialize (Hnone l Hl). cbv beta in Hnone.
      apply negb_false_iff, isNight_type in Hnone. exact Hnone.
    + rewrite (Q l0 Hin). apply notNight_type in K0.
      pose proof (Hpast l0 Hin) as Hp.
      destruct (Z.eqb_spec ((now - date l0) / JsDate.MS_PER_DAY) 0)
        as [E0 | E0].
      * split; [intros _ | reflexivity]. right. exists l0.
        split; [exact Hin |]. split; [exact K0 |].
        apply Z.div_small_iff in E0; lia.
      * split; [discriminate |]. intros [Hall | [l [Hl [Hty Hlt]]]].
        -- specialize (Hall l0 Hin). contradiction.
        -- exfalso. apply E0. apply Z.div_small.
           specialize (Hmax l Hl (proj2 (notNight_type l) Hty)).
           specialize (Hpast l Hl). lia.
  - unfold Dashboard.incidentVal. rewrite Cnt.
    destruct I as [[Hnone _] | [l0 [Hin [K0 _]]]].
    + assert (E : filter isNight logs = []).
      { clear - Hnone. induction logs as [| x xs IH]; [reflexivity |].
        cbn [filter]. rewrite (Hnone x (or_introl eq_refl)).
        apply IH. intros l Hl. apply Hnone. now right. }
      rewrite E. cbn. split; [intros _ | reflexivity].
      intros l Hl Hty. apply isNight_type in Hty.
      rewrite (Hnone l Hl) in Hty. discriminate.
    + assert (Hpos : 0 < JsArray.length (filter isNight logs)).
      { assert (Hf : In l0 (filter isNight logs))
          by (apply filter_In; now split).
        destruct (filter isNight logs); [destruct Hf |].
        rewrite length_cons. pose proof (length_nonneg l). lia. }
      destruct (Z.ltb_spec 0 (JsArray.length (filter isNight logs))); [| lia].
      split; [discriminate |]. intros Hall. exfalso.
      apply (Hall l0 Hin). now apply isNight_type.
  - intros d. unfold Dashboard.incidentVal. rewrite Cnt.
    destruct (Z.ltb_spec 0 (JsArray.length (filter isNight logs)));
      [| discriminate].
    intros E. assert (Ed : daysSinceLastIncident s = d) by congruence.
    rewrite <- Ed. clear E Ed.
    destruct I as [[Hnone _] | [l0 [Hin [K0 [Hmax ->]]]]].
    + exfalso.
      destruct (filter isNight logs) as [| x xs] eqn:Ef;
        [change (JsArray.length (@nil (FlightLog N))) with 0 in *; lia |].
      assert (Hx : In x (filter isNight logs)) by (rewrite Ef; now left).
      apply filter_In in Hx. destruct Hx as [Hx Kx].
      rewrite (Hnone x Hx) in Kx. discriminate.
    + rewrite (Q l0 Hin). split.
      * apply Z.div_pos; [specialize (Hpast l0 Hin) |]; lia.
      * exists l0. split; [exact Hin |].
        split; [now apply isNight_type |]. split; [| reflexivity].
        intros l Hl Hty. apply Hmax; [exact Hl | now apply isNight_type].
Qed.

Lemma mixed_logs_past :
  forall l, In l mixed_logs -> date l <= JsDate.UTC 2024 0 3 13 0.
Proof.
  intros l [<- | [<- | [<- | []]]]; vm_compute; discriminate.
Qed.

Lemma elapsed_days_shown_witness :
  let s := computeStats UTC_plus_8 mixed_logs (JsDate.UTC 2024 0 3 13 0) in
  0 <= daysSinceLastFlight s
  /\ (Dashboard.incidentVal s = None
      <-> forall l, In l mixed_logs -> type l <> night).
Proof.
  intros s.
  destruct (elapsed_days_shown UTC_plus_8 float Binary64.number mixed_logs
              (JsDate.UTC 2024 0 3 13 0) mixed_logs_past)
    as [A [_ [_ [B _]]]].
  split; [exact A | exact B].
Defined.

(** ** Saving an entry *)

Section Saving.
Variable tz : Z.
Context {N : Type} `{JsNumber N}.
Variables (log : FlightLog N) (logs : list (FlightLog N)) (now : Z).

Lemma withIncidentFields_twice (x : FlightStats N) (a b c d : Z) :
  withIncidentFields (withIncidentFields x a b) c d
  = withIncidentFields x c d.
Proof. reflexivity. Qed.

Lemma count_after_save (p : FlightLog N -> bool) :
  isNight log = false ->
  JsArray.length
    (filter p (JsArray.sort byDateDesc (validLogs (handleSaveLog log logs))))
  = JsArray.length (filter p (JsArray.sort byDateDesc (validLogs logs)))
    + (if p log then 1 else 0).
Proof.
  intros Hn. rewrite !filtered_sorted_length.
  unfold handleSaveLog, validLogs. cbn [filter]. rewrite Hn. cbn [negb filter].
  destruct (p log); [rewrite length_cons |]; lia.
Qed.

Lemma count2_after_save (p q : FlightLog N -> bool) :
  isNight log = false ->
  JsArray.length
    (filter p (filter q
       (JsArray.sort byDateDesc (validLogs (handleSaveLog log logs)))))
  = JsArray.length
      (filter p (filter q (JsArray.sort byDateDesc (validLogs logs))))
    + (if q log && p log then 1 else 0).
Proof.
  intros Hn.
  rewrite !(filter_perm_length p _ _
              (filter_Permutation q _ _ (sort_perm byDateDesc _))).
  unfold handleSaveLog, validLogs. cbn [filter]. rewrite Hn. cbn [negb filter].
  destruct (q log); cbn [andb filter]; [| lia].
  destruct (p log); [rewrite length_cons |]; lia.
Qed.

Lemma descending_NoDup (l : list Z) : descending l -> NoDup l.
Proof.
  unfold descending. induction 1 as [| x xs Hs IH Hall]; constructor;
    [| exact IH].
  intros Hin. rewrite Forall_forall in Hall. specialize (Hall x Hin). lia.
Qed.

Lemma day_keys_after_save :
  JsArray.length (uniqueDayStrings logs)
  <= JsArray.length (uniqueDayStrings (handleSaveLog log logs))
  <= JsArray.length (uniqueDayStrings logs) + 1.
Proof.
  destruct (uniqueDayStrings_spec logs) as [D K].
  destruct (uniqueDayStrings_spec (handleSaveLog log logs)) as [D' K'].
  unfold JsArray.length. split.
  - apply Nat2Z.inj_le. apply NoDup_incl_length; [now apply descending_NoDup |].
    intros k Hk. apply K'. apply K in Hk. destruct Hk as [l [Hl Hk]].
    exists l. split; [now right | exact Hk].
  - assert (Hle : (List.length (uniqueDayStrings (handleSaveLog log logs))
                   <= List.length (JsDate.toISODateString (date log)
                                   :: uniqueDayStrings logs))%nat).
    { apply NoDup_incl_length; [now apply descending_NoDup |].
      intros k Hk. apply K' in Hk. destruct Hk as [l [[<- | Hl] Hk]].
      - left. tauto.
      - right. apply K. exists l. tauto. }
    cbn [List.length] in Hle. lia.
Qed.
End Saving.

(** X5: what saving an entry does to the figures.  [handleSaveLog] puts
    the new entry in front of the log.  A saved incident changes the two
    incident fields only and raises the incident count by one.  A saved
    flight leaves the incident fields alone, raises the total by one and
    each period count by one exactly when the entry falls into that
    period, the solo or the shared total according to its type, and the
    number of days with a flight by at most one. *)
Theorem saving_updates_counts :
  forall (tz : Z) (N : Type) (num : JsNumber N)
         (log : FlightLog N) (logs : list (FlightLog N)) (now : Z),
    let s := computeStats tz logs now in
    let s' := computeStats tz (handleSaveLog log logs) now in
    let one (b : bool) := if b then 1 else 0 in
    match type log with
    | night =>
        s' = withIncidentFields s (totalNightFlights s + 1)
               (daysSinceLastIncident s')
    | _ =>
        totalNightFlights s' = totalNightFlights s
        /\ daysSinceLastIncident s' = daysSinceLastIncident s
        /\ totalFlights s' = totalFlights s + 1
        /\ flightsToday s' = flightsToday s + one (inToday tz now log)
        /\ flightsThisWeek s' = flightsThisWeek s + one (inWeek tz now log)
        /\ flightsThisMonth s' = flightsThisMonth s + one (inMonth tz now log)
        /\ flightsThisYear s' = flightsThisYear s + one (inYear tz now log)
        /\ totalSoloFlights s' = totalSoloFlights s + one (isSingle log)
        /\ totalMultiFlights s' = totalMultiFlights s + one (isMulti log)
        /\ soloFlightsToday s'
           = soloFlightsToday s + one (isSingle log && inToday tz now log)
        /\ multiFlightsToday s'
           = multiFlightsToday s + one (isMulti log && inToday tz now log)
        /\ JsArray.length (uniqueDayStrings logs)
           <= JsArray.length (uniqueDayStrings (handleSaveLog log logs))
           <= JsArray.length (uniqueDayStrings logs) + 1
    end.
Proof.
  intros tz N num log logs now s s' one.
  assert (Flight :
            isNight log = false ->
            totalNightFlights s' = totalNightFlights s
            /\ daysSinceLastIncident s' = daysSinceLastIncident s
            /\ totalFlights s' = totalFlights s + 1
            /\ flightsToday s' = flightsToday s + one (inToday tz now log)
            /\ flightsThisWeek s' = flightsThisWeek s + one (inWeek tz now log)
            /\ flightsThisMonth s'
               = flightsThisMonth s + one (inMonth tz now log)
            /\ flightsThisYear s' = flightsThisYear s + one (inYear tz now log)
            /\ totalSoloFlights s' = totalSoloFlights s + one (isSingle log)
            /\ totalMultiFlights s' = totalMultiFlights s + one (isMulti log)
            /\ soloFlightsToday s'
               = soloFlightsToday s + one (isSingle log && inToday tz now log)
            /\ multiFlightsToday s'
               = multiFlightsToday s + one (isMulti log && inToday tz now log)
            /\ JsArray.length (uniqueDayStrings logs)
               <= JsArray.length (uniqueDayStrings (handleSaveLog log logs))
               <= JsArray.length (uniqueDayStrings logs) + 1).
  { intros Hn.
    assert (Enight : nightLogs (handleSaveLog log logs) = nightLogs logs)
      by (unfold handleSaveLog, nightLogs; cbn [filter]; now rewrite Hn).
    pose proof (count_after_save log logs (fun _ => true) Hn) as Tot.
    rewrite !(filter_all (fun _ : FlightLog N => true)) in Tot
      by (apply Forall_forall; reflexivity).
    pose proof (count_after_save log logs isSingle Hn) as Solo.
    pose proof (count_after_save log logs isMulti Hn) as Multi.
    split; [unfold s', s; cbn [computeStats totalNightFlights];
            now rewrite Enight |].
    split; [unfold s', s; cbn [computeStats daysSinceLastIncident];
            now rewrite Enight |].
    split; [exact Tot |].
    split; [apply (count_after_save log logs (inToday tz now) Hn) |].
    split; [apply (count_after_save log logs (inWeek tz now) Hn) |].
    split; [apply (count_after_save log logs (inMonth tz now) Hn) |].
    split; [apply (count_after_save log logs (inYear tz now) Hn) |].
    split; [exact Solo |]. split; [exact Multi |].
    split; [apply (count2_after_save log logs (inToday tz now) isSingle Hn) |].
    split; [apply (count2_after_save log logs (inToday tz now) isMulti Hn) |].
    apply day_keys_after_save. }
  destruct (type log) eqn:Ety.
  - apply Flight. unfold isNight. now rewrite Ety.
  - apply Flight. unfold isNight. now rewrite Ety.
  - assert (Hn : isNight log = true) by (unfold isNight; now rewrite Ety).
    assert (Evalid : validLogs (handleSaveLog log logs) = validLogs logs)
      by (unfold handleSaveLog, validLogs; cbn [filter]; now rewrite Hn).
    unfold s'. rewrite (incidents_isolated tz (handleSaveLog log logs) now).
    unfold s at 1. rewrite (incidents_isolated tz logs now).
    rewrite Evalid, withIncidentFields_twice.
    f_equal.
    cbn [computeStats totalNightFlights]. unfold handleSaveLog, nightLogs.
      cbn [filter]. rewrite Hn. fold (nightLogs logs).
      rewrite length_cons. reflexivity.
Qed.

(** ** Months *)

Section Months.
Import JsDate.

Lemma yoe_of_inverse (yoe doy : Z) :
  0 <= yoe <= 399 -> 0 <= doy <= 364 ->
  yoe_of (yoe * 365 + yoe / 4 - yoe / 100 + doy) = yoe.
Proof.
  intros Hy Hd. unfold yoe_of. Z.div_mod_to_equations. lia.
Qed.

Lemma days_from_civil_day (y m d : Z) :
  days_from_civil y m d = days_from_civil y m 1 + d - 1.
Proof. unfold days_from_civil. cbv zeta. lia. Qed.

(** The first 28 days of a month lead back to their date. *)
Lemma civil_of_days (y m d : Z) :
  1 <= m <= 12 -> 1 <= d <= 28 ->
  civil_from_days (days_from_civil y m d) = (y, m, d).
Proof.
  intros Hm Hd.
  set (y' := if m <=? 2 then y - 1 else y).
  set (era := y' / 400). set (yoe := y' - era * 400).
  set (mp := if 2 <? m then m - 3 else m + 9).
  set (doy := (153 * mp + 2) / 5 + d - 1).
  assert (Hyoe : 0 <= yoe <= 399)
    by (unfold yoe, era; Z.div_mod_to_equations; lia).
  assert (Hmp : 0 <= mp <= 11) by (unfold mp; destruct (Z.ltb_spec 2 m); lia).
  assert (Hdoy : 0 <= doy <= 364)
    by (unfold doy; Z.div_mod_to_equations; lia).
  assert (E : days_from_civil y m d
              = era * 146097 + (yoe * 365 + yoe / 4 - yoe / 100 + doy) - 719468)
    by reflexivity.
  rewrite E, civil_from_days_steps. cbv zeta.
  set (doe := yoe * 365 + yoe / 4 - yoe / 100 + doy).
  assert (Hdoe : 0 <= doe < 146097)
    by (unfold doe; Z.div_mod_to_equations; lia).
  replace (era * 146097 + doe - 719468 + 719468) with (doe + era * 146097)
    by lia.
  rewrite Z.div_add by discriminate. rewrite (Z.div_small doe) by lia.
  replace (doe + era * 146097 - (0 + era) * 146097) with doe by lia.
  assert (Ey : yoe_of doe = yoe) by (apply yoe_of_inverse; assumption).
  assert (Edoy : doy_of doe = doy)
    by (unfold doy_of; rewrite Ey; unfold doe; lia).
  rewrite Ey, Edoy.
  assert (Emp : mp_of doy = mp)
    by (unfold mp_of, doy; Z.div_mod_to_equations; lia).
  assert (Ed : dom_of doy = d)
    by (unfold dom_of; rewrite Emp; unfold doy; lia).
  rewrite Emp, Ed. unfold assemble. cbv zeta.
  assert (Em : (if mp <? 10 then mp + 3 else mp - 9) = m).
  { unfold mp. destruct (Z.ltb_spec 2 m).
    - destruct (Z.ltb_spec (m - 3) 10); lia.
    - destruct (Z.ltb_spec (m + 9) 10); lia. }
  rewrite Em. f_equal. f_equal.
  unfold yoe, era, y'. replace (0 + y' / 400) with (y' / 400) by lia.
  destruct (Z.leb_spec m 2); unfold y'; destruct (Z.leb_spec m 2); lia.
Qed.

Lemma monthOf_range (day : Z) : 1 <= snd (monthOf day) <= 12.
Proof.
  unfold monthOf. pose proof (civil_roundtrip day) as R.
  destruct (civil_from_days day) as [[y m] d]. cbn [fst snd]. lia.
Qed.

Lemma monthAfter_range (ym : Z * Z) :
  1 <= snd ym <= 12 -> 1 <= snd (monthAfter ym) <= 12.
Proof.
  unfold monthAfter. destruct (Z.eqb_spec (snd ym) 12); cbn [snd]; lia.
Qed.

Lemma monthOf_monthStart (ym : Z * Z) :
  1 <= snd ym <= 12 ->
  civil_from_days (monthStart ym) = (fst ym, snd ym, 1).
Proof. intros H. unfold monthStart. apply civil_of_days; lia. Qed.

(** A day of the month: its number from the first day of its month. *)
Lemma day_in_month (day : Z) :
  let '(y, m, d) := civil_from_days day in
  day = monthStart (y, m) + d - 1.
Proof.
  pose proof (civil_roundtrip day) as R.
  destruct (civil_from_days day) as [[y m] d].
  unfold monthStart. cbn [fst snd]. rewrite <- days_from_civil_day. lia.
Qed.

Lemma civil_le (z1 z2 : Z) :
  z1 <= z2 ->
  civil_from_days z1 = civil_from_days z2
  \/ date_lt (civil_from_days z1) (civil_from_days z2).
Proof.
  intros H. destruct (Z.eq_dec z1 z2) as [-> | Hne]; [now left |].
  right. apply civil_monotone. lia.
Qed.

(** The days of a month are those from its first day up to the first day
    of the next month. *)
Lemma month_interval (ym : Z * Z) (day : Z) :
  1 <= snd ym <= 12 ->
  monthOf day = ym <-> monthStart ym <= day < monthStart (monthAfter ym).
Proof.
  intros Hm. destruct ym as [y m]. cbn [snd] in Hm.
  pose proof (monthOf_monthStart (y, m) Hm) as ES. cbn [fst snd] in ES.
  pose proof (monthOf_monthStart (monthAfter (y, m))
                (monthAfter_range (y, m) Hm)) as EF.
  pose proof (civil_roundtrip day) as R.
  pose proof (day_in_month day) as D.
  unfold monthOf.
  destruct (civil_from_days day) as [[yd md] dd] eqn:Ed. cbn [fst].
  split.
  - intros E. injection E as -> ->. split; [lia |].
    destruct (Z.lt_ge_cases day (monthStart (monthAfter (y, m))))
      as [Hlt | Hge]; [exact Hlt | exfalso].
    destruct (civil_le _ _ Hge) as [E | L]; rewrite EF, Ed in *.
    + unfold monthAfter in E. cbn [fst snd] in E.
      destruct (Z.eqb_spec m 12); cbn [fst snd] in E; injection E; lia.
    + unfold date_lt, monthAfter in L. cbn [fst snd] in L.
      destruct (Z.eqb_spec m 12); cbn [fst snd] in L; lia.
  - intros [Hlo Hhi].
    destruct (civil_le _ _ Hlo) as [E | L]; rewrite ES, Ed in *.
    + injection E as -> -> _. reflexivity.
    + pose proof (civil_monotone _ _ Hhi) as L'. rewrite EF, Ed in L'.
      unfold date_lt, monthAfter in L, L'. cbn [fst snd] in L'.
      destruct (Z.eqb_spec m 12); cbn [fst snd] in L'; f_equal; lia.
Qed.

Lemma monthLength_bounds (ym : Z * Z) :
  1 <= snd ym <= 12 -> 28 <= monthLength ym <= 31.
Proof.
  destruct ym as [y m]. cbn [snd]. intros Hm.
  unfold monthLength, monthStart, monthAfter, days_from_civil. cbn [fst snd].
  assert (Cases : m = 1 \/ m = 2 \/ m = 3 \/ m = 4 \/ m = 5 \/ m = 6 \/ m = 7
                  \/ m = 8 \/ m = 9 \/ m = 10 \/ m = 11 \/ m = 12) by lia.
  repeat (destruct Cases as [-> | Cases]); try subst m; cbn;
    Z.div_mod_to_equations; lia.
Qed.
End Months.

(** ** Reading and writing the fields of a [Date] *)

Section DateFields.
Import JsDate JsDateFields DateFns DateFnsCalendar.
Variable tz : Z.

Lemma local_of_parts (day ms : Z) :
  0 <= ms < MS_PER_DAY ->
  localDay tz (day * MS_PER_DAY + ms - tz) = day
  /\ localMsOfDay tz (day * MS_PER_DAY + ms - tz) = ms.
Proof.
  intros Hms. unfold localDay, localMsOfDay.
  replace (day * MS_PER_DAY + ms - tz + tz) with (ms + day * MS_PER_DAY)
    by lia.
  rewrite Z.div_add, Z.mod_add by discriminate.
  rewrite Z.div_small, Z.mod_small by exact Hms. split; lia.
Qed.

Lemma local_fields (t : Z) :
  civil_from_days (localDay tz t)
  = (getFullYear tz t, getMonth tz t + 1, getDate tz t).
Proof.
  unfold getFullYear, getMonth, getDate.
  destruct (civil_from_days (localDay tz t)) as [[y m] d].
  f_equal. f_equal. lia.
Qed.

Lemma getMonth_range (t : Z) : 0 <= getMonth tz t <= 11.
Proof.
  pose proof (civil_roundtrip (localDay tz t)) as R.
  rewrite local_fields in R. lia.
Qed.

Lemma monthOf_local (t : Z) :
  monthOf (localDay tz t) = (getFullYear tz t, getMonth tz t + 1).
Proof. unfold monthOf. now rewrite local_fields. Qed.

Lemma MakeDay_in_range (y m d : Z) :
  0 <= m <= 11 -> MakeDay y m d = monthStart (y, m + 1) + d - 1.
Proof.
  intros Hm. unfold MakeDay, monthStart. cbn [fst snd].
  rewrite Z.div_small, Z.mod_small by lia.
  replace (y + 0) with y by lia. reflexivity.
Qed.

Lemma MakeDay_next_month (y m : Z) :
  0 <= m <= 11 -> MakeDay y (m + 1) 0 = monthStart (monthAfter (y, m + 1)) - 1.
Proof.
  intros Hm. unfold MakeDay, monthStart, monthAfter. cbn [fst snd].
  destruct (Z.eqb_spec (m + 1) 12) as [E | E]; cbn [fst snd].
  - rewrite E. change (12 / 12) with 1. change (12 mod 12 + 1) with 1. lia.
  - rewrite Z.div_small, Z.mod_small by lia.
    replace (y + 0) with y by lia. lia.
Qed.

Lemma MakeDay_local (t k : Z) :
  MakeDay (getFullYear tz t) (getMonth tz t) (getDate tz t + k)
  = localDay tz t + k.
Proof.
  rewrite MakeDay_in_range by apply getMonth_range.
  pose proof (day_in_month (localDay tz t)) as D.
  rewrite local_fields in D. lia.
Qed.

(** Moving the day of the month moves the instant by whole days. *)
Lemma setDate_shift (t k : Z) :
  setDate tz t (getDate tz t + k) = t + k * MS_PER_DAY.
Proof.
  unfold setDate. rewrite MakeDay_local.
  destruct (local_decompose tz t) as [E _]. lia.
Qed.

Lemma setHours_midnight (t : Z) : setHours tz t 0 0 0 0 = startOfDay tz t.
Proof. unfold setHours, startOfDay, MakeTime. lia. Qed.

Lemma startOfDay_local (day : Z) :
  startOfDay tz (day * MS_PER_DAY - tz) = day * MS_PER_DAY - tz.
Proof.
  unfold startOfDay.
  destruct (local_of_parts day 0 ltac:(unfold MS_PER_DAY; lia)) as [E _].
  replace (day * MS_PER_DAY + 0 - tz) with (day * MS_PER_DAY - tz) in E by lia.
  now rewrite E.
Qed.

Lemma localDay_shift (t k : Z) :
  localDay tz (t + k * MS_PER_DAY) = localDay tz t + k.
Proof.
  unfold localDay.
  replace (t + k * MS_PER_DAY + tz) with (t + tz + k * MS_PER_DAY) by lia.
  apply Z.div_add. discriminate.
Qed.

Lemma startOfMonth_day (t : Z) :
  startOfMonth tz t = monthStart (monthOf (localDay tz t)) * MS_PER_DAY - tz.
Proof.
  unfold startOfMonth. rewrite setHours_midnight.
  replace 1 with (getDate tz t + (1 - getDate tz t)) at 1 by lia.
  rewrite setDate_shift. unfold startOfDay. rewrite localDay_shift.
  pose proof (day_in_month (localDay tz t)) as D.
  rewrite monthOf_local. rewrite local_fields in D. do 2 f_equal. lia.
Qed.

Lemma endOfMonth_day (t : Z) :
  endOfMonth tz t
  = (monthStart (monthAfter (monthOf (localDay tz t))) - 1) * MS_PER_DAY
    + 86399999 - tz.
Proof.
  unfold endOfMonth, setHours, setFullYear. cbv zeta.
  rewrite MakeDay_next_month by apply getMonth_range.
  destruct (local_decompose tz t) as [_ Hms].
  destruct (local_of_parts
              (monthStart (monthAfter (getFullYear tz t, getMonth tz t + 1))
               - 1)
              (localMsOfDay tz t) Hms) as [E _].
  rewrite E, monthOf_local. reflexivity.
Qed.

Lemma endOfWeek_sunday (t : Z) :
  endOfWeek tz 1 t
  = (mondayOf (localDay tz t) + 6) * MS_PER_DAY + 86399999 - tz.
Proof.
  unfold endOfWeek, setHours. cbv zeta. rewrite setDate_shift, localDay_shift.
  unfold mondayOf, getDay, MakeTime.
  destruct (Z.ltb_spec ((localDay tz t + 4) mod 7) 1); lia.
Qed.

Lemma eachDayLoop_stop (fuel : nat) (currentDate endTime : Z)
      (dates : list Z) :
  endTime < currentDate ->
  eachDayLoop tz (S fuel) currentDate endTime dates = Some dates.
Proof.
  intros H. cbn [eachDayLoop].
  destruct (Z.leb_spec currentDate endTime); [lia | reflexivity].
Qed.

Lemma eachDayLoop_step (fuel : nat) (day endTime : Z) (dates : list Z) :
  day * MS_PER_DAY - tz <= endTime ->
  eachDayLoop tz (S fuel) (day * MS_PER_DAY - tz) endTime dates
  = eachDayLoop tz fuel ((day + 1) * MS_PER_DAY - tz) endTime
      (dates ++ [day * MS_PER_DAY - tz]).
Proof.
  intros H. cbn [eachDayLoop].
  destruct (Z.leb_spec (day * MS_PER_DAY - tz) endTime); [| lia].
  rewrite setDate_shift, setHours_midnight.
  replace (day * MS_PER_DAY - tz + 1 * MS_PER_DAY)
    with ((day + 1) * MS_PER_DAY - tz) by lia.
  now rewrite startOfDay_local.
Qed.

(** The loop of [eachDayOfInterval] from a local midnight: [n] days are
    pushed when day [n] is the first one after [endTime]; [n] + 1 tests
    of the condition suffice. *)
Lemma eachDayLoop_days (n : nat) :
  forall (extra : nat) (day endTime : Z) (dates : list Z),
    (forall k, 0 <= k < Z.of_nat n ->
               (day + k) * MS_PER_DAY - tz <= endTime) ->
    endTime < (day + Z.of_nat n) * MS_PER_DAY - tz ->
    eachDayLoop tz (S (n + extra)) (day * MS_PER_DAY - tz) endTime dates
    = Some (dates
            ++ map (fun k => (day + Z.of_nat k) * MS_PER_DAY - tz) (seq 0 n)).
Proof.
  induction n as [| n IH]; intros extra day endTime dates Hin Hout.
  - rewrite eachDayLoop_stop.
    + cbn [seq map]. now rewrite app_nil_r.
    + replace (day + Z.of_nat 0) with day in Hout by lia. exact Hout.
  - rewrite eachDayLoop_step.
    + rewrite Nat.add_succ_l, IH.
      * rewrite <- app_assoc. f_equal. f_equal. cbn [app seq map]. f_equal.
        -- f_equal. lia.
        -- rewrite <- seq_shift, map_map. apply map_ext. intros k.
           f_equal. lia.
      * intros k Hk. replace (day + 1 + k) with (day + (k + 1)) by lia.
        apply Hin. lia.
      * replace (day + 1 + Z.of_nat n) with (day + Z.of_nat (S n)) by lia.
        exact Hout.
    + replace day with (day + 0) at 1 by lia. apply Hin. lia.
Qed.

(** The days of an interval: the local midnights from the day of [start]
    on, as long as they are not after [end_]. *)
Lemma eachDayOfInterval_days (start end_ : Z) :
  let first := localDay tz start in
  let n := Z.to_nat ((end_ - startOfDay tz start) / MS_PER_DAY + 1) in
  eachDayOfInterval tz start end_
  = Some (map (fun k => (first + Z.of_nat k) * MS_PER_DAY - tz) (seq 0 n)).
Proof.
  intros first n. unfold eachDayOfInterval. cbv zeta.
  rewrite setHours_midnight. fold n.
  unfold startOfDay in *. fold first in n |- *.
  pose proof MS_PER_DAY_pos as HM.
  pose proof (eachDayLoop_days n 0 first end_ []) as L.
  rewrite Nat.add_0_r in L. rewrite L; [reflexivity | |].
  - intros k Hk. subst n.
    assert (k <= (end_ - (first * MS_PER_DAY - tz)) / MS_PER_DAY) by lia.
    assert (k * MS_PER_DAY <= end_ - (first * MS_PER_DAY - tz)).
    { etransitivity; [apply Z.mul_le_mono_nonneg_r; [lia | eassumption] |].
      rewrite Z.mul_comm. apply Z.mul_div_le. lia. }
    lia.
  - subst n.
    set (q := (end_ - (first * MS_PER_DAY - tz)) / MS_PER_DAY).
    assert (Hq : end_ - (first * MS_PER_DAY - tz) < (q + 1) * MS_PER_DAY).
    { unfold q.
      pose proof (Z.mul_succ_div_gt (end_ - (first * MS_PER_DAY - tz))
                    MS_PER_DAY HM). lia. }
    destruct (Z.le_gt_cases 0 (q + 1)).
    + rewrite Z2Nat.id by lia. lia.
    + replace (Z.to_nat (q + 1)) with 0%nat by lia.
      assert ((q + 1) * MS_PER_DAY <= 0) by nia. lia.
Qed.
End DateFields.

(** ** The calendar grid *)

Section GridArithmetic.
Variable ym : Z * Z.
Hypothesis month_in_range : 1 <= snd ym <= 12.

Lemma gridCells_weeks :
  exists weeks, 4 <= weeks <= 6 /\ gridCells ym = 7 * weeks.
Proof.
  pose proof (monthLength_bounds ym month_in_range) as HL.
  pose proof (mondayOf_spec (monthStart ym)) as [M1 R1].
  pose proof (mondayOf_spec (monthStart (monthAfter ym) - 1)) as [M2 R2].
  unfold gridCells, gridFirst, monthLength, IsMonday in *.
  generalize dependent (mondayOf (monthStart (monthAfter ym) - 1)).
  generalize dependent (mondayOf (monthStart ym)).
  generalize dependent (monthStart (monthAfter ym)).
  generalize dependent (monthStart ym).
  clear. intros s f HL m1 M1 R1 m2 M2 R2.
  exists ((m2 + 7 - m1) / 7). Z.div_mod_to_equations. lia.
Qed.

Lemma gridLead_range : 0 <= gridLead ym <= 6.
Proof.
  unfold gridLead, gridFirst. pose proof (mondayOf_spec (monthStart ym)). lia.
Qed.

Lemma gridCells_range :
  gridLead ym + monthLength ym <= gridCells ym
  <= gridLead ym + monthLength ym + 6.
Proof.
  unfold gridLead, gridCells, gridFirst, monthLength.
  pose proof (mondayOf_spec (monthStart (monthAfter ym) - 1)) as [_ R2].
  lia.
Qed.

Lemma gridFirst_monday : IsMonday (gridFirst ym).
Proof. apply mondayOf_spec. Qed.

Lemma month_in_grid (day : Z) :
  monthOf day = ym
  <-> gridLead ym <= day - gridFirst ym < gridLead ym + monthLength ym.
Proof.
  rewrite (month_interval ym day month_in_range).
  unfold gridLead, monthLength. lia.
Qed.
End GridArithmetic.

Section CalendarGrid.
Import JsDate JsDateFields DateFns DateFnsCalendar.
Variable tz : Z.

Lemma local_midnight (day : Z) : localDay tz (midnightOf tz day) = day.
Proof.
  unfold midnightOf.
  destruct (local_of_parts tz day 0 ltac:(unfold MS_PER_DAY; lia)) as [E _].
  replace (day * MS_PER_DAY + 0 - tz) with (day * MS_PER_DAY - tz) in E by lia.
  exact E.
Qed.

Lemma startOfDay_midnight (day : Z) :
  startOfDay tz (midnightOf tz day) = midnightOf tz day.
Proof. apply startOfDay_local. Qed.

Lemma midnight_weekday (first idx : Z) :
  IsMonday first -> getDay tz (midnightOf tz (first + idx)) = (idx + 1) mod 7.
Proof.
  unfold getDay, IsMonday. rewrite local_midnight. intros M.
  Z.div_mod_to_equations. lia.
Qed.

Lemma nth_midnights (first cells idx : Z) :
  0 <= idx < cells ->
  nth (Z.to_nat idx)
    (map (fun k => midnightOf tz (first + Z.of_nat k))
       (seq 0 (Z.to_nat cells))) 0
  = midnightOf tz (first + idx).
Proof.
  intros H.
  rewrite (nth_indep _ 0 (midnightOf tz (first + Z.of_nat 0)))
    by (rewrite length_map, length_seq; lia).
  rewrite (map_nth (fun k => midnightOf tz (first + Z.of_nat k))).
  rewrite seq_nth by lia. cbn [plus]. now rewrite Z2Nat.id by lia.
Qed.

Lemma length_midnights (first cells : Z) :
  0 <= cells ->
  JsArray.length
    (map (fun k => midnightOf tz (first + Z.of_nat k))
       (seq 0 (Z.to_nat cells)))
  = cells.
Proof.
  intros H. unfold JsArray.length. rewrite length_map, length_seq. lia.
Qed.

Lemma grid_span (first last : Z) :
  ((last + 6) * MS_PER_DAY + 86399999 - tz - midnightOf tz first)
  / MS_PER_DAY + 1
  = last + 7 - first.
Proof.
  unfold midnightOf.
  replace ((last + 6) * MS_PER_DAY + 86399999 - tz - (first * MS_PER_DAY - tz))
    with (86399999 + (last + 6 - first) * MS_PER_DAY) by lia.
  rewrite Z.div_add by discriminate.
  replace (86399999 / MS_PER_DAY) with 0 by reflexivity. lia.
Qed.

Lemma midnightOf_eq (day : Z) : day * MS_PER_DAY - tz = midnightOf tz day.
Proof. reflexivity. Qed.

Lemma gridCells_eq (ym : Z * Z) :
  mondayOf (monthStart (monthAfter ym) - 1) + 7 - mondayOf (monthStart ym)
  = gridCells ym.
Proof. reflexivity. Qed.

Lemma gridFirst_eq (ym : Z * Z) : mondayOf (monthStart ym) = gridFirst ym.
Proof. reflexivity. Qed.

Lemma calendarDays_cells (currentMonth : Z) :
  calendarDays tz currentMonth
  = Some (map (fun k =>
                 midnightOf tz
                   (gridFirst (monthOf (localDay tz currentMonth))
                    + Z.of_nat k))
            (seq 0 (Z.to_nat
                      (gridCells (monthOf (localDay tz currentMonth)))))).
Proof.
  unfold calendarDays. cbv zeta. rewrite eachDayOfInterval_days. cbv zeta.
  rewrite startOfWeek_monday, startOfMonth_day, endOfWeek_sunday,
    endOfMonth_day.
  rewrite !midnightOf_eq, !local_midnight.
  destruct (local_of_parts tz
              (monthStart (monthAfter (monthOf (localDay tz currentMonth))) - 1)
              86399999 ltac:(unfold MS_PER_DAY; lia)) as [E2 _].
  rewrite E2, startOfDay_midnight, grid_span.
  rewrite gridCells_eq, gridFirst_eq.
  apply (f_equal Some). apply map_ext. intros k. apply midnightOf_eq.
Qed.

Lemma isSameMonth_monthOf (t currentMonth : Z) :
  isSameMonth tz t currentMonth = true
  <-> monthOf (localDay tz t) = monthOf (localDay tz currentMonth).
Proof.
  unfold isSameMonth. rewrite !monthOf_local.
  rewrite andb_true_iff, !Z.eqb_eq. split.
  - intros [-> ->]. reflexivity.
  - intros E. injection E. lia.
Qed.

Lemma cell_in_month (currentMonth lead len first idx : Z) :
  (forall day, monthOf day = monthOf (localDay tz currentMonth)
               <-> lead <= day - first < lead + len) ->
  isSameMonth tz (midnightOf tz (first + idx)) currentMonth
  = (lead <=? idx) && (idx <? lead + len).
Proof.
  intros Hgrid.
  pose proof (isSameMonth_monthOf (midnightOf tz (first + idx)) currentMonth)
    as E.
  rewrite local_midnight, Hgrid in E.
  replace (first + idx - first) with idx in E by lia.
  destruct (isSameMonth tz (midnightOf tz (first + idx)) currentMonth);
    destruct (Z.leb_spec lead idx); destruct (Z.ltb_spec idx (lead + len));
    cbn [andb]; try reflexivity; exfalso;
    try (assert (true = true) as T by reflexivity; apply E in T; lia);
    try (assert (false = true) as T by (apply E; lia); discriminate).
Qed.

Lemma cell_date (ym : Z * Z) (idx : Z) :
  monthOf (gridFirst ym + idx) = ym ->
  getDate tz (midnightOf tz (gridFirst ym + idx)) = idx - gridLead ym + 1.
Proof.
  intros Hm.
  pose proof (day_in_month (gridFirst ym + idx)) as D.
  unfold getDate. rewrite local_midnight. unfold monthOf in Hm.
  destruct (civil_from_days (gridFirst ym + idx)) as [[y m] d].
  cbn [fst] in Hm. rewrite Hm in D. unfold gridLead. lia.
Qed.
End CalendarGrid.

(** X6: the calendar grid of a month consists of four to six whole weeks:
    the cells are consecutive local midnights, the first one a Monday, so
    that the cell of index [idx] falls on weekday [(idx + 1) mod 7] (the
    column headers of the view run from Monday to Sunday). *)
Theorem calendar_grid_shape :
  forall (tz currentMonth : Z),
  exists (days : list Z) (weeks : Z),
    calendarDays tz currentMonth = Some days
    /\ 4 <= weeks <= 6
    /\ JsArray.length days = 7 * weeks
    /\ forall idx, 0 <= idx < 7 * weeks ->
         let day := nth (Z.to_nat idx) days 0 in
         DateFns.startOfDay tz day = day
         /\ day = nth 0 days 0 + idx * JsDate.MS_PER_DAY
         /\ JsDate.getDay tz day = (idx + 1) mod 7.
Proof.
  intros tz currentMonth.
  pose proof (monthOf_range (JsDate.localDay tz currentMonth)) as Hym.
  destruct (gridCells_weeks _ Hym) as [weeks [Hw Ec]].
  eexists. exists weeks.
  split; [apply calendarDays_cells |].
  split; [exact Hw |].
  rewrite Ec.
  split; [apply length_midnights; lia |].
  intros idx Hidx. cbv zeta.
  rewrite nth_midnights by exact Hidx.
  change 0%nat with (Z.to_nat 0). rewrite nth_midnights by lia.
  split; [apply startOfDay_midnight |].
  split; [unfold midnightOf; lia |].
  apply midnight_weekday, gridFirst_monday.
Qed.

(** X7: the grid covers the month shown.  After at most six leading cells
    of the month before come the days of the month, one cell each in
    order of the day of the month, followed by at most six cells of the
    month after; only the cells of the month shown pass [isSameMonth]. *)
Theorem calendar_grid_month :
  forall (tz currentMonth : Z),
  exists (days : list Z) (lead len : Z),
    calendarDays tz currentMonth = Some days
    /\ 0 <= lead <= 6 /\ 28 <= len <= 31
    /\ lead + len <= JsArray.length days <= lead + len + 6
    /\ (forall idx, 0 <= idx < JsArray.length days ->
          let day := nth (Z.to_nat idx) days 0 in
          DateFns.isSameMonth tz day currentMonth
          = (lead <=? idx) && (idx <? lead + len)
          /\ (lead <= idx < lead + len ->
              JsDateFields.getDate tz day = idx - lead + 1))
    /\ (forall t, DateFns.isSameMonth tz t currentMonth = true ->
          exists idx,
            lead <= idx < lead + len
            /\ DateFns.isSameDay tz (nth (Z.to_nat idx) days 0) t = true)
    /\ (forall i j, 0 <= i < JsArray.length days ->
          0 <= j < JsArray.length days ->
          DateFns.isSameDay tz (nth (Z.to_nat i) days 0)
            (nth (Z.to_nat j) days 0) = true ->
          i = j).
Proof.
  intros tz currentMonth.
  pose proof (monthOf_range (JsDate.localDay tz currentMonth)) as Hym.
  pose proof (gridLead_range (monthOf (JsDate.localDay tz currentMonth)))
    as Hlead.
  pose proof (monthLength_bounds _ Hym) as HL.
  pose proof (gridCells_range (monthOf (JsDate.localDay tz currentMonth)))
    as Hcells.
  pose proof (month_in_grid _ Hym) as Hgrid.
  eexists.
  exists (gridLead (monthOf (JsDate.localDay tz currentMonth))),
         (monthLength (monthOf (JsDate.localDay tz currentMonth))).
  split; [apply calendarDays_cells |].
  rewrite length_midnights by lia.
  split; [exact Hlead |]. split; [exact HL |]. split; [exact Hcells |].
  split; [| split].
  - intros idx Hidx. cbv zeta. rewrite nth_midnights by exact Hidx.
    split; [apply cell_in_month; exact Hgrid |].
    intros Hin. apply cell_date. apply Hgrid. lia.
  - intros t Ht. apply isSameMonth_monthOf, Hgrid in Ht.
    exists (JsDate.localDay tz t
            - gridFirst (monthOf (JsDate.localDay tz currentMonth))).
    split; [exact Ht |].
    rewrite nth_midnights by lia.
    apply isSameDay_localDay. rewrite local_midnight. lia.
  - intros i j Hi Hj E. rewrite !nth_midnights in E by assumption.
    apply isSameDay_localDay in E. rewrite !local_midnight in E. lia.
Qed.

(** ** Moving between months *)

Section MonthShift.
Import JsDate JsDateFields DateFns DateFnsCalendar.

Lemma monthShift_after (ym : Z * Z) :
  1 <= snd ym <= 12 -> monthShift ym 1 = monthAfter ym.
Proof.
  destruct ym as [y m]. unfold monthShift, monthAfter. cbn [fst snd].
  intros H. destruct (Z.eqb_spec m 12) as [-> | Hne].
  - reflexivity.
  - rewrite Z.div_small, Z.mod_small by lia. f_equal; lia.
Qed.

Lemma monthShift_before (ym : Z * Z) :
  1 <= snd ym <= 12 -> monthShift ym (-1) = monthBefore ym.
Proof.
  destruct ym as [y m]. unfold monthShift, monthBefore. cbn [fst snd].
  intros H. destruct (Z.eqb_spec m 1) as [-> | Hne].
  - reflexivity.
  - rewrite Z.div_small, Z.mod_small by lia. f_equal; lia.
Qed.

Lemma monthShift_range (ym : Z * Z) (k : Z) :
  1 <= snd (monthShift ym k) <= 12.
Proof.
  unfold monthShift. cbn [snd]. Z.div_mod_to_equations. lia.
Qed.

Lemma monthShift_shift (ym : Z * Z) (j k : Z) :
  1 <= snd ym <= 12 -> monthShift (monthShift ym j) k = monthShift ym (j + k).
Proof.
  destruct ym as [y m]. unfold monthShift. cbn [fst snd]. intros H.
  f_equal; Z.div_mod_to_equations; lia.
Qed.

Lemma monthShift_zero (ym : Z * Z) :
  1 <= snd ym <= 12 -> monthShift ym 0 = ym.
Proof.
  destruct ym as [y m]. unfold monthShift. cbn [fst snd]. intros H.
  replace (m - 1 + 0) with (m - 1) by lia.
  rewrite Z.div_small, Z.mod_small by lia. f_equal; lia.
Qed.

Lemma MakeDay_month (y month d : Z) :
  MakeDay y month d = monthStart (monthShift (y, 1) month) + d - 1.
Proof.
  unfold MakeDay, monthStart, monthShift. cbn [fst snd].
  replace (1 - 1 + month) with month by lia. reflexivity.
Qed.

Variable tz : Z.

(** The last day of a month, as [setMonth(month + 1, 0)] finds it. *)
Lemma last_day_of_month (ym : Z * Z) :
  1 <= snd ym <= 12 ->
  civil_from_days (monthStart (monthAfter ym) - 1)
  = (fst ym, snd ym, monthLength ym).
Proof.
  intros H.
  pose proof (monthLength_bounds ym H) as HL.
  assert (Hm : monthOf (monthStart (monthAfter ym) - 1) = ym).
  { apply (month_interval ym _ H). unfold monthLength in HL. lia. }
  pose proof (day_in_month (monthStart (monthAfter ym) - 1)) as D.
  unfold monthOf in Hm.
  destruct (civil_from_days (monthStart (monthAfter ym) - 1)) as [[y m] d].
  cbn [fst] in Hm. subst ym. cbn [fst snd]. f_equal.
  unfold monthLength. lia.
Qed.

Lemma day_of_month (ym : Z * Z) (d : Z) :
  1 <= snd ym <= 12 -> 1 <= d <= monthLength ym ->
  civil_from_days (monthStart ym + d - 1) = (fst ym, snd ym, d).
Proof.
  intros H Hd.
  assert (Hm : monthOf (monthStart ym + d - 1) = ym).
  { apply (month_interval ym _ H). unfold monthLength in Hd. lia. }
  pose proof (day_in_month (monthStart ym + d - 1)) as D.
  unfold monthOf in Hm.
  destruct (civil_from_days (monthStart ym + d - 1)) as [[y m] d'].
  cbn [fst] in Hm. subst ym. cbn [fst snd]. f_equal. lia.
Qed.

Lemma getDate_range (t : Z) :
  1 <= getDate tz t <= monthLength (monthOf (localDay tz t)).
Proof.
  pose proof (civil_roundtrip (localDay tz t)) as R.
  pose proof (day_in_month (localDay tz t)) as D.
  pose proof (proj1 (month_interval (monthOf (localDay tz t)) (localDay tz t)
                       (monthOf_range _)) eq_refl) as I.
  unfold getDate, monthOf, monthLength in *.
  destruct (civil_from_days (localDay tz t)) as [[y m] d].
  cbn [fst] in *. lia.
Qed.

(** [addMonths] lands in the month [amount] months away, on the same day
    of the month or, where that month is shorter, on its last day, at
    the same time of the day. *)
Lemma addMonths_spec (t amount : Z) :
  let target := monthShift (monthOf (localDay tz t)) amount in
  localDay tz (addMonths tz t amount)
  = monthStart target + Z.min (getDate tz t) (monthLength target) - 1
  /\ localMsOfDay tz (addMonths tz t amount) = localMsOfDay tz t.
Proof.
  cbv zeta. unfold addMonths.
  pose proof (getDate_range t) as Hd.
  pose proof (monthOf_range (localDay tz t)) as Hym.
  destruct (local_decompose tz t) as [Et Hms].
  destruct (Z.eqb_spec amount 0) as [-> | Hne].
  - rewrite monthShift_zero by exact Hym.
    pose proof (day_in_month (localDay tz t)) as D.
    rewrite local_fields in D. rewrite monthOf_local in *.
    rewrite Z.min_l by lia. split; [lia | reflexivity].
  - set (target := monthShift (monthOf (localDay tz t)) amount) in *.
    pose proof (monthShift_range (monthOf (localDay tz t)) amount) as Ht.
    fold target in Ht.
    pose proof (monthLength_bounds target Ht) as HL.
    assert (Eend : setMonth tz t (getMonth tz t + amount + 1) 0
                   = (monthStart (monthAfter target) - 1) * MS_PER_DAY
                     + localMsOfDay tz t - tz).
    { unfold setMonth. rewrite MakeDay_month.
      rewrite <- (monthShift_after target Ht). unfold target.
      pose proof (getMonth_range tz t) as Hmr.
      rewrite monthOf_local, monthShift_shift by (cbn [snd]; lia).
      unfold monthShift. cbn [fst snd].
      replace (1 - 1 + (getMonth tz t + amount + 1))
        with (getMonth tz t + 1 - 1 + (amount + 1)) by lia.
      replace (monthStart
                 (getFullYear tz t
                  + (getMonth tz t + 1 - 1 + (amount + 1)) / 12,
                  (getMonth tz t + 1 - 1 + (amount + 1)) mod 12 + 1) + 0 - 1)
        with (monthStart
                (getFullYear tz t + (getMonth tz t + 1 - 1 + (amount + 1)) / 12,
                 (getMonth tz t + 1 - 1 + (amount + 1)) mod 12 + 1) - 1)
        by lia.
      reflexivity. }
    rewrite Eend.
    destruct (local_of_parts tz (monthStart (monthAfter target) - 1)
                (localMsOfDay tz t) Hms) as [Eday Ems].
    assert (Elen : getDate tz
                     ((monthStart (monthAfter target) - 1) * MS_PER_DAY
                      + localMsOfDay tz t - tz)
                   = monthLength target).
    { unfold getDate. rewrite Eday, (last_day_of_month target Ht).
      reflexivity. }
    rewrite Elen.
    destruct (Z.leb_spec (monthLength target) (getDate tz t)) as [Hle | Hgt].
    + rewrite Eday, Ems, Z.min_r by lia.
      split; [unfold monthLength; lia | reflexivity].
    + assert (Ey : getFullYear tz
                     ((monthStart (monthAfter target) - 1) * MS_PER_DAY
                      + localMsOfDay tz t - tz) = fst target)
        by (unfold getFullYear;
            rewrite Eday, (last_day_of_month target Ht); reflexivity).
      assert (Em : getMonth tz
                     ((monthStart (monthAfter target) - 1) * MS_PER_DAY
                      + localMsOfDay tz t - tz) = snd target - 1)
        by (unfold getMonth;
            rewrite Eday, (last_day_of_month target Ht); reflexivity).
      rewrite Ey, Em. unfold setFullYear.
      rewrite MakeDay_in_range by lia.
      replace (snd target - 1 + 1) with (snd target) by lia.
      rewrite <- surjective_pairing.
      destruct (local_of_parts tz (monthStart target + getDate tz t - 1)
                  (localMsOfDay tz t) Hms) as [Eday' Ems'].
      rewrite Eday', Ems', Z.min_l by lia. split; reflexivity.
Qed.
End MonthShift.

Section MonthNavigation.
Import JsDate JsDateFields DateFns DateFnsCalendar.
Variable tz : Z.

Lemma addMonths_date (t amount : Z) :
  let target := monthShift (monthOf (localDay tz t)) amount in
  civil_from_days (localDay tz (addMonths tz t amount))
  = (fst target, snd target, Z.min (getDate tz t) (monthLength target)).
Proof.
  cbv zeta. destruct (addMonths_spec tz t amount) as [E _]. rewrite E.
  pose proof (monthShift_range (monthOf (localDay tz t)) amount) as Ht.
  pose proof (monthLength_bounds _ Ht) as HL.
  pose proof (getDate_range tz t) as Hd.
  apply day_of_month; [exact Ht | lia].
Qed.

Lemma addMonths_month (t amount : Z) :
  monthOf (localDay tz (addMonths tz t amount))
  = monthShift (monthOf (localDay tz t)) amount.
Proof.
  unfold monthOf at 1. rewrite addMonths_date. cbn [fst].
  symmetry. apply surjective_pairing.
Qed.

Lemma addMonths_getDate (t amount : Z) :
  getDate tz (addMonths tz t amount)
  = Z.min (getDate tz t)
      (monthLength (monthShift (monthOf (localDay tz t)) amount)).
Proof. unfold getDate at 1. now rewrite addMonths_date. Qed.
End MonthNavigation.


(** ** The calendar's lists of a day *)

Lemma filter_filter_comm {A : Type} (p q : A -> bool) (l : list A) :
  filter p (filter q l) = filter q (filter p l).
Proof.
  induction l as [| x xs IH]; [reflexivity |]. cbn [filter].
  destruct (p x) eqn:Ep, (q x) eqn:Eq; cbn [filter];
    rewrite ?Ep, ?Eq, IH; reflexivity.
Qed.

Section DayLists.
Import JsDate DateFns.
Variable tz : Z.
Context {N : Type} `{JsNumber N}.

Lemma selectedDateLogs_newest_first (logs : list (FlightLog N)) (d : Z) :
  StronglySorted (fun a b => date b <= date a) (selectedDateLogs tz logs d).
Proof.
  unfold selectedDateLogs.
  pose proof (sort_sorted byDateDesc (fun x => - date x) byDateDesc_key
                (filter (fun log => isSameDay tz (date log) d) logs)) as S.
  induction S as [| x xs Sx IH Hx]; constructor; [exact IH |].
  eapply Forall_impl; [| exact Hx]. cbv beta. intros; lia.
Qed.

Lemma getLogsForDate_In (logs : list (FlightLog N)) (d : Z) (l : FlightLog N) :
  In l (getLogsForDate tz logs d)
  <-> In l logs /\ localDate tz (date l) = localDate tz d.
Proof.
  unfold getLogsForDate. rewrite filter_In, isSameDay_iff. reflexivity.
Qed.

Lemma flightsToday_listed (logs : list (FlightLog N)) (now : Z) :
  flightsToday (computeStats tz logs now)
  = JsArray.length (validLogs (getLogsForDate tz logs now)).
Proof.
  cbn [computeStats flightsToday getCounts today].
  rewrite filtered_sorted_length. unfold validLogs, getLogsForDate, inToday.
  now rewrite filter_filter_comm.
Qed.
End DayLists.

(** X9: the list under the calendar.  [selectedDateLogs] holds the entries
    of [getLogsForDate] for the selected day, most recent first; these
    are the entries of the log whose local calendar date is the selected
    one, so that no entry is listed under two different days; and for
    today's date the list holds, incidents apart, as many entries as the
    dashboard counts in [flightsToday]. *)
Theorem calendar_day_lists :
  forall (tz : Z) (N : Type) (num : JsNumber N)
         (logs : list (FlightLog N)) (selectedDate : Z),
    Permutation (selectedDateLogs tz logs selectedDate)
      (getLogsForDate tz logs selectedDate)
    /\ StronglySorted (fun a b => date b <= date a)
         (selectedDateLogs tz logs selectedDate)
    /\ (forall l, In l (selectedDateLogs tz logs selectedDate)
                  <-> In l logs
                      /\ localDate tz (date l) = localDate tz selectedDate)
    /\ (forall l otherDate,
          In l (getLogsForDate tz logs selectedDate) ->
          In l (getLogsForDate tz logs otherDate) ->
          DateFns.isSameDay tz selectedDate otherDate = true)
    /\ (forall now,
          flightsToday (computeStats tz logs now)
          = JsArray.length (validLogs (getLogsForDate tz logs now))).
Proof.
  intros tz N num logs selectedDate.
  split; [apply sort_perm |].
  split; [apply selectedDateLogs_newest_first |].
  split.
  { intros l. rewrite <- getLogsForDate_In. split; intros Hl.
    - eapply Permutation_in; [apply sort_perm | exact Hl].
    - eapply Permutation_in; [apply Permutation_sym, sort_perm | exact Hl]. }
  split.
  { intros l otherDate H1 H2.
    apply getLogsForDate_In in H1. apply getLogsForDate_In in H2.
    apply isSameDay_iff. unfold SameCalendarDay.
    destruct H1 as [_ E1], H2 as [_ E2]. congruence. }
  intros now. apply flightsToday_listed.
Qed.

(** ** The stored duration of a recording *)

Lemma holdsFrom_spec (p : Z -> bool) (count : nat) :
  forall first,
    holdsFrom p first count = true ->
    forall n, first <= n < first + Z.of_nat count -> p n = true.
Proof.
  induction count as [| count IH]; intros first Hall n Hn; [lia |].
  cbn [holdsFrom] in Hall. apply andb_true_iff in Hall.
  destruct Hall as [Hfirst Hrest].
  destruct (Z.eq_dec n first) as [-> | Hne]; [exact Hfirst |].
  apply (IH (first + 1) Hrest). lia.
Qed.

(** Every duration below three hours, checked one by one. *)
Lemma round_trip_below_three_hours :
  holdsFrom roundTripAt 0 (Z.to_nat 10800) = true.
Proof. vm_compute. reflexivity. Qed.

Lemma roundTripAt_spec (seconds : Z) :
  roundTripAt seconds = true ->
  exists flightTime,
    flightTimeOfSeconds seconds = Some flightTime
    /\ shownSeconds flightTime = Some seconds.
Proof.
  unfold roundTripAt.
  destruct (flightTimeOfSeconds seconds) as [ft |]; [| discriminate].
  destruct (shownSeconds ft) as [shown |] eqn:E; [| discriminate].
  intros H. apply Z.eqb_eq in H. subst shown. now exists ft.
Qed.

Lemma stored_duration (seconds : Z) :
  0 <= seconds < 10800 ->
  exists flightTime,
    flightTimeOfSeconds seconds = Some flightTime
    /\ shownSeconds flightTime = Some seconds.
Proof.
  intros H. apply roundTripAt_spec.
  apply (holdsFrom_spec roundTripAt (Z.to_nat 10800) 0
           round_trip_below_three_hours).
  lia.
Qed.

Section DurationShown.
Import String.
Local Open Scope string_scope.
Local Open Scope Z_scope.

(** X10: a recorded duration is shown to the second.  For a timer that
    ran [elapsedSeconds] seconds, below three hours, [handleTimerSave]
    produces an entry of the chosen type, stamped with the start of the
    timer, whose duration [parseFloat((elapsedSeconds / 3600).toFixed(4))]
    the log list prints as exactly [elapsedSeconds] seconds, split into
    minutes and two-digit seconds. *)
Theorem recorded_duration_is_shown :
  forall (flightType : FlightType) (startTime : option Z)
         (elapsedSeconds : Z) (ratings : FlightRatings)
         (mood : option MoodType) (notes uuid : string) (now createdAt : Z),
    0 <= elapsedSeconds < 10800 ->
    exists log : FlightLog float,
      handleTimerSave flightType startTime elapsedSeconds ratings mood notes
        uuid now createdAt = Some log
      /\ type log = flightType
      /\ (forall t, startTime = Some t -> t <> 0 -> date log = t)
      /\ shownSeconds (flightTime log) = Some elapsedSeconds
      /\ formatDurationLog (flightTime log)
         = Some (Number_toString (elapsedSeconds / 60) ++ "分"
                 ++ padStart2 (Number_toString (elapsedSeconds mod 60))
                 ++ "秒").
Proof.
  intros flightType startTime elapsedSeconds ratings mood notes uuid now
    createdAt H.
  destruct (stored_duration elapsedSeconds H) as [ft [E1 E2]].
  unfold handleTimerSave. rewrite E1.
  eexists. split; [reflexivity |]. cbn [type date flightTime].
  split; [reflexivity |].
  split.
  { intros t -> Ht. unfold startTimeOr.
    destruct (Z.eqb_spec t 0) as [E | _]; [contradiction | reflexivity]. }
  split; [exact E2 |].
  unfold formatDurationLog. rewrite E2.
  rewrite Z.rem_mod_nonneg by lia. reflexivity.
Qed.

Lemma recorded_duration_is_shown_witness :
  exists log : FlightLog float,
    handleTimerSave single (Some (JsDate.UTC 2024 0 5 3 0)) 754
      {| preFlight := 4; inFlight := 5; postFlight := 3 |} (Some happy)
      "" "a" (JsDate.UTC 2024 0 5 4 0) (JsDate.UTC 2024 0 5 4 0) = Some log
    /\ shownSeconds (flightTime log) = Some 754
    /\ formatDurationLog (flightTime log) = Some "12分34秒".
Proof.
  destruct (recorded_duration_is_shown single
              (Some (JsDate.UTC 2024 0 5 3 0)) 754
              {| preFlight := 4; inFlight := 5; postFlight := 3 |}
              (Some happy) "" "a"
              (JsDate.UTC 2024 0 5 4 0) (JsDate.UTC 2024 0 5 4 0)
              ltac:(lia))
    as [log [E [_ [_ [Eshown Etext]]]]].
  exists log. split; [exact E |]. split; [exact Eshown | exact Etext].
Defined.
End DurationShown.

(** ** The timestamp of a manual entry *)

Section ManualEntry.
Import JsDate JsDateFields DateFns.
Variable tz : Z.

Lemma sameDateString_iff (a b : Z) :
  sameDateString (toDateString tz a) (toDateString tz b) = true
  <-> localDay tz a = localDay tz b.
Proof.
  unfold toDateString, sameDateString, getDay. split.
  - intros H. apply civil_injective.
    destruct (civil_from_days (localDay tz a)) as [[ya ma] da].
    destruct (civil_from_days (localDay tz b)) as [[yb mb] db].
    rewrite !andb_true_iff, !Z.eqb_eq in H.
    destruct H as [[[_ ->] ->] ->]. reflexivity.
  - intros ->.
    destruct (civil_from_days (localDay tz b)) as [[yb mb] db].
    now rewrite !Z.eqb_refl.
Qed.

Lemma time_fields (t : Z) :
  0 <= getHours tz t <= 23 /\ 0 <= getMinutes tz t <= 59
  /\ 0 <= getSeconds tz t <= 59 /\ 0 <= getMilliseconds tz t <= 999.
Proof.
  destruct (local_decompose tz t) as [_ H].
  unfold getHours, getMinutes, getSeconds, getMilliseconds.
  unfold MS_PER_DAY in H. generalize dependent (localMsOfDay tz t).
  intros ms H. Z.div_mod_to_equations. lia.
Qed.

Lemma setHours_local (t hour min sec ms : Z) :
  0 <= MakeTime hour min sec ms < MS_PER_DAY ->
  localDay tz (setHours tz t hour min sec ms) = localDay tz t
  /\ localMsOfDay tz (setHours tz t hour min sec ms)
     = MakeTime hour min sec ms.
Proof. intros H. unfold setHours. now apply local_of_parts. Qed.

Lemma time_of_fields (hour min sec ms : Z) :
  0 <= hour <= 23 -> 0 <= min <= 59 -> 0 <= sec <= 59 -> 0 <= ms <= 999 ->
  0 <= MakeTime hour min sec ms < MS_PER_DAY
  /\ MakeTime hour min sec ms / 3600000 = hour
  /\ MakeTime hour min sec ms / 60000 mod 60 = min
  /\ MakeTime hour min sec ms / 1000 mod 60 = sec
  /\ MakeTime hour min sec ms mod 1000 = ms.
Proof.
  intros Hh Hm Hs Hms. unfold MakeTime, MS_PER_DAY.
  Z.div_mod_to_equations. lia.
Qed.

(** The timestamp of a manual entry lies on the selected day: at noon
    when that day is not today, and otherwise at the hour, minute and
    second of the clock. *)
Lemma manualEntryDate_fields (manualDate now now' : Z) :
  let d := manualEntryDate tz manualDate now now' in
  localDay tz d = localDay tz manualDate
  /\ (isSameDay tz now manualDate = false ->
      localMsOfDay tz d = 43200000)
  /\ (isSameDay tz now manualDate = true ->
      getHours tz d = getHours tz now'
      /\ getMinutes tz d = getMinutes tz now'
      /\ getSeconds tz d = getSeconds tz now').
Proof.
  cbv zeta. unfold manualEntryDate. cbv zeta.
  pose proof (sameDateString_iff now manualDate) as S.
  pose proof (isSameDay_localDay tz now manualDate) as D.
  destruct (time_fields now') as [Hh [Hm [Hs _]]].
  destruct (time_fields manualDate) as [_ [_ [_ Hms]]].
  destruct (time_of_fields _ _ _ _ Hh Hm Hs Hms) as [R [Eh [Em [Es _]]]].
  destruct (sameDateString (toDateString tz now) (toDateString tz manualDate)).
  - destruct (setHours_local manualDate _ _ _ _ R) as [E1 E2].
    split; [exact E1 |]. split.
    + intros F. rewrite (proj2 D (proj1 S eq_refl)) in F. discriminate.
    + intros _.
      split; [| split].
      * transitivity
          (MakeTime (getHours tz now') (getMinutes tz now')
             (getSeconds tz now') (getMilliseconds tz manualDate) / 3600000);
          [unfold getHours at 1; now rewrite E2 | exact Eh].
      * transitivity
          (MakeTime (getHours tz now') (getMinutes tz now')
             (getSeconds tz now') (getMilliseconds tz manualDate)
           / 60000 mod 60);
          [unfold getMinutes at 1; now rewrite E2 | exact Em].
      * transitivity
          (MakeTime (getHours tz now') (getMinutes tz now')
             (getSeconds tz now') (getMilliseconds tz manualDate)
           / 1000 mod 60);
          [unfold getSeconds at 1; now rewrite E2 | exact Es].
  - destruct (setHours_local manualDate 12 0 0 0
                ltac:(unfold MakeTime, MS_PER_DAY; lia)) as [E1 E2].
    split; [exact E1 |]. split.
    + intros _. exact E2.
    + intros T. apply D, S in T. discriminate.
Qed.
End ManualEntry.

Section ManualSave.
Import String.
Local Open Scope string_scope.
Local Open Scope Z_scope.

(** X11: a manual entry lands on the day that was selected.  With the
    wheels in their ranges [handleManualSave] produces an entry of the
    chosen type whose timestamp lies on the selected local day, so that
    after [handleSaveLog] the calendar lists it under that day: at
    12:00:00.000 when the selected day is not today, at the clock's
    hour, minute and second when it is.  The stored duration shows as
    the minutes and seconds of the wheels, and as 0 for an incident. *)
Theorem manual_entry_on_selected_day :
  forall (tz : Z) (flightType : FlightType)
         (manualDate manualMinutes manualSeconds : Z)
         (ratings : FlightRatings) (mood : option MoodType)
         (notes uuid : string) (now now' createdAt : Z)
         (logs : list (FlightLog float)),
    0 <= manualMinutes < 180 -> 0 <= manualSeconds < 60 ->
    exists log : FlightLog float,
      handleManualSave tz flightType manualDate manualMinutes manualSeconds
        ratings mood notes uuid now now' createdAt = Some log
      /\ type log = flightType
      /\ DateFns.isSameDay tz (date log) manualDate = true
      /\ In log (getLogsForDate tz (handleSaveLog log logs) manualDate)
      /\ (DateFns.isSameDay tz now manualDate = false ->
          JsDate.localMsOfDay tz (date log) = 43200000)
      /\ (DateFns.isSameDay tz now manualDate = true ->
          JsDateFields.getHours tz (date log) = JsDateFields.getHours tz now'
          /\ JsDateFields.getMinutes tz (date log)
             = JsDateFields.getMinutes tz now'
          /\ JsDateFields.getSeconds tz (date log)
             = JsDateFields.getSeconds tz now')
      /\ shownSeconds (flightTime log)
         = Some (match flightType with
                 | night => 0
                 | _ => manualMinutes * 60 + manualSeconds
                 end).
Proof.
  intros tz flightType manualDate manualMinutes manualSeconds ratings mood
    notes uuid now now' createdAt logs Hmin Hsec.
  set (totalSeconds := match flightType with
                       | night => 0
                       | _ => manualMinutes * 60 + manualSeconds
                       end).
  assert (Htotal : 0 <= totalSeconds < 10800)
    by (unfold totalSeconds; destruct flightType; lia).
  destruct (stored_duration totalSeconds Htotal) as [hours [E1 E2]].
  destruct (manualEntryDate_fields tz manualDate now now')
    as [Eday [Hnoon Hnow]].
  unfold handleManualSave. fold totalSeconds. rewrite E1.
  eexists. split; [reflexivity |]. cbn [type date flightTime].
  assert (Hsame : DateFns.isSameDay tz
                    (manualEntryDate tz manualDate now now') manualDate = true)
    by (apply isSameDay_localDay; exact Eday).
  split; [reflexivity |].
  split; [exact Hsame |].
  split.
  { unfold getLogsForDate, handleSaveLog. cbn [filter date].
    rewrite Hsame. now left. }
  split; [exact Hnoon |]. split; [exact Hnow | exact E2].
Qed.

Lemma manual_entry_on_selected_day_witness :
  exists log : FlightLog float,
    handleManualSave UTC_plus_8 single (JsDate.UTC 2024 0 1 16 0) 12 34
      {| preFlight := 4; inFlight := 5; postFlight := 3 |} (Some happy)
      "" "a" (JsDate.UTC 2024 0 5 3 0) (JsDate.UTC 2024 0 5 3 0)
      (JsDate.UTC 2024 0 5 3 0) = Some log
    /\ type log = single
    /\ DateFns.isSameDay UTC_plus_8 (date log) (JsDate.UTC 2024 0 1 16 0)
       = true
    /\ shownSeconds (flightTime log) = Some 754.
Proof.
  destruct (manual_entry_on_selected_day UTC_plus_8 single
              (JsDate.UTC 2024 0 1 16 0) 12 34
              {| preFlight := 4; inFlight := 5; postFlight := 3 |}
              (Some happy) "" "a"
              (JsDate.UTC 2024 0 5 3 0) (JsDate.UTC 2024 0 5 3 0)
              (JsDate.UTC 2024 0 5 3 0) [] ltac:(lia) ltac:(lia))
    as [log [E [Ety [Eday [_ [_ [_ Eshown]]]]]]].
  exists log. auto.
Defined.
End ManualSave.

(** X12: the streak key of a back-filled entry.  In a host zone whose
    offset from UTC is more than -12 and at most +12 hours, an entry
    recorded for a day other than today gets, stamped at local noon, a
    UTC date equal to the selected local date: its day key is the day it
    was recorded for. *)
Theorem backfilled_entry_day_key :
  forall (tz manualDate now now' : Z),
    -43200000 < tz <= 43200000 ->
    DateFns.isSameDay tz now manualDate = false ->
    JsDate.toISODateString (manualEntryDate tz manualDate now now')
    = JsDate.localDay tz manualDate.
Proof.
  intros tz manualDate now now' Htz Hother.
  destruct (manualEntryDate_fields tz manualDate now now') as [Eday [Hnoon _]].
  specialize (Hnoon Hother).
  destruct (local_decompose tz (manualEntryDate tz manualDate now now'))
    as [E _].
  rewrite Eday, Hnoon in E.
  unfold JsDate.toISODateString, JsDate.Day.
  replace (manualEntryDate tz manualDate now now')
    with ((43200000 - tz) + JsDate.localDay tz manualDate * JsDate.MS_PER_DAY)
    by lia.
  rewrite Z.div_add by discriminate.
  rewrite Z.div_small by (unfold JsDate.MS_PER_DAY; lia). lia.
Qed.

Lemma backfilled_entry_day_key_witness :
  JsDate.toISODateString
    (manualEntryDate UTC_plus_8 (JsDate.UTC 2024 0 1 16 0)
       (JsDate.UTC 2024 0 5 3 0) (JsDate.UTC 2024 0 5 3 0))
  = JsDate.localDay UTC_plus_8 (JsDate.UTC 2024 0 1 16 0).
Proof.
  apply backfilled_entry_day_key; [unfold UTC_plus_8; lia | reflexivity].
Defined.

(** In UTC+13 the noon of a day is still the evening before in UTC: the
    key of an entry back-filled for 2 January 2024 is 1 January. *)
Example backfilled_key_east_of_plus_12 :
  let tz := 46800000 in
  let manualDate := JsDate.UTC 2024 0 1 12 0 in
  let d := manualEntryDate tz manualDate
             (JsDate.UTC 2024 0 5 3 0) (JsDate.UTC 2024 0 5 3 0) in
  localDate tz manualDate = (2024, 1, 2)
  /\ localDate tz d = (2024, 1, 2)
  /\ JsDate.civil_from_days (JsDate.toISODateString d) = (2024, 1, 1).
Proof. vm_compute. repeat split. Qed.

(** ** The text of the timer *)

Section TimerText.
Import Ascii String.
Local Open Scope string_scope.
Local Open Scope Z_scope.

Lemma to_int_proper (n : Z) :
  Z.to_int n <> Decimal.Pos Decimal.Nil
  /\ Z.to_int n <> Decimal.Neg Decimal.Nil.
Proof.
  destruct n as [| p | p]; cbn [Z.to_int]; split; try discriminate;
    intros E; injection E; apply DecimalPos.Unsigned.to_uint_nonnil.
Qed.

(** Different integers print differently. *)
Lemma Number_toString_inj (a b : Z) :
  Number_toString a = Number_toString b -> a = b.
Proof.
  unfold Number_toString. intros E.
  destruct (to_int_proper a) as [A1 A2], (to_int_proper b) as [B1 B2].
  pose proof (DecimalString.NilZero.isi _ A1 A2) as Ia.
  pose proof (DecimalString.NilZero.isi _ B1 B2) as Ib.
  rewrite E, Ib in Ia. injection Ia as Ia. symmetry.
  now apply DecimalZ.to_int_inj.
Qed.

Lemma uint_text_nonempty (d : Decimal.uint) :
  d <> Decimal.Nil -> DecimalString.NilEmpty.string_of_uint d <> "".
Proof. destruct d; intros H; [contradiction | ..]; discriminate. Qed.

Lemma Number_toString_nonempty (n : Z) : (1 <= length (Number_toString n))%nat.
Proof.
  unfold Number_toString.
  destruct n as [| p | p]; cbn [Z.to_int DecimalString.NilZero.string_of_int].
  - cbn. lia.
  - unfold DecimalString.NilZero.string_of_uint.
    pose proof (DecimalPos.Unsigned.to_uint_nonnil p) as Hn.
    pose proof (uint_text_nonempty _ Hn) as He.
    destruct (Pos.to_uint p); [contradiction | ..];
      (destruct (DecimalString.NilEmpty.string_of_uint _) eqn:E;
       [contradiction | cbn; lia]).
  - cbn [length]. lia.
Qed.

Lemma length_append (s1 s2 : string) :
  length (s1 ++ s2) = (length s1 + length s2)%nat.
Proof. induction s1 as [| c s1 IH]; cbn; [reflexivity | now rewrite IH]. Qed.

(** Two texts with tails of the same length agree on head and tail. *)
Lemma append_inj (a1 a2 r1 r2 : string) :
  length r1 = length r2 -> a1 ++ r1 = a2 ++ r2 -> a1 = a2 /\ r1 = r2.
Proof.
  revert a2. induction a1 as [| c a1 IH]; intros a2 Hlen E.
  - destruct a2 as [| c2 a2]; [now split |].
    cbn [append] in E. exfalso.
    assert (L : length r1 = length (String c2 (a2 ++ r2))) by now rewrite E.
    cbn [length] in L. rewrite length_append in L. lia.
  - destruct a2 as [| c2 a2].
    + cbn [append] in E. exfalso.
      assert (L : length (String c (a1 ++ r1)) = length r2) by now rewrite E.
      cbn [length] in L. rewrite length_append in L. lia.
    + cbn [append] in E. injection E as -> E.
      destruct (IH a2 Hlen E) as [-> ->]. now split.
Qed.

Lemma two_digits_checked : holdsFrom twoDigitsAt 0 100 = true.
Proof. vm_compute. reflexivity. Qed.

Lemma padStart2_digits (n : Z) :
  0 <= n < 100 -> padStart2 (Number_toString n) = JsDate.pad2 n "".
Proof.
  intros H. apply String.eqb_eq.
  apply (holdsFrom_spec twoDigitsAt 100 0 two_digits_checked). lia.
Qed.

Lemma pad2_append (n : Z) (rest : string) :
  JsDate.pad2 n "" ++ rest = JsDate.pad2 n rest.
Proof. reflexivity. Qed.

Lemma pad2_inj (a b : Z) (r1 r2 : string) :
  0 <= a < 100 -> 0 <= b < 100 ->
  JsDate.pad2 a r1 = JsDate.pad2 b r2 -> a = b /\ r1 = r2.
Proof.
  intros Ha Hb E. unfold JsDate.pad2 in E. injection E as E1 E2 E3.
  apply (f_equal JsDate.digitValue) in E1, E2.
  rewrite !digitValue_digit in E1, E2 by (Z.div_mod_to_equations; lia).
  split; [Z.div_mod_to_equations; lia | exact E3].
Qed.

(** The two forms of the text. *)
Lemma formatTime_forms (totalSeconds : Z) :
  0 <= totalSeconds ->
  formatTime totalSeconds
  = if totalSeconds <? 3600
    then JsDate.pad2 (totalSeconds / 60)
           (":" ++ JsDate.pad2 (totalSeconds mod 60) "")
    else Number_toString (totalSeconds / 3600)
         ++ ":" ++ JsDate.pad2 (totalSeconds / 60 mod 60)
                     (":" ++ JsDate.pad2 (totalSeconds mod 60) "").
Proof.
  intros H. unfold formatTime. cbv zeta.
  rewrite (Z.rem_mod_nonneg totalSeconds 60) by lia.
  rewrite (padStart2_digits (totalSeconds mod 60))
    by (Z.div_mod_to_equations; lia).
  destruct (Z.leb_spec 60 (totalSeconds / 60)) as [Hh | Hm];
    destruct (Z.ltb_spec totalSeconds 3600) as [Hlt | Hge];
    try (exfalso; Z.div_mod_to_equations; lia).
  - rewrite Z.rem_mod_nonneg by (Z.div_mod_to_equations; lia).
    rewrite padStart2_digits by (Z.div_mod_to_equations; lia).
    rewrite Z.div_div by lia. change (60 * 60) with 3600.
    rewrite !pad2_append. reflexivity.
  - rewrite padStart2_digits by (Z.div_mod_to_equations; lia).
    rewrite pad2_append. reflexivity.
Qed.
End TimerText.

Section TimerTextFormat.
Import Ascii String.
Local Open Scope string_scope.
Local Open Scope Z_scope.

Lemma colon_tail (r1 r2 : string) : ":" ++ r1 = ":" ++ r2 -> r1 = r2.
Proof. cbn [append]. intros E. now injection E. Qed.

Lemma tail_length (m s : Z) :
  length (":" ++ JsDate.pad2 m (":" ++ JsDate.pad2 s "")) = 6%nat.
Proof. reflexivity. Qed.

(** X13: the text of the timer.  Below one hour [formatTime] prints the
    five characters "MM:SS", from one hour on the hours without padding
    followed by ":MM:SS", with minutes and seconds below 60 in two
    digits each; two different numbers of seconds never print the same
    text. *)
Theorem timer_text_unambiguous :
  forall a b : Z,
    0 <= a -> 0 <= b ->
    (a < 3600 ->
     formatTime a = JsDate.pad2 (a / 60) (":" ++ JsDate.pad2 (a mod 60) "")
     /\ length (formatTime a) = 5%nat)
    /\ (3600 <= a ->
        formatTime a
        = Number_toString (a / 3600)
          ++ ":" ++ JsDate.pad2 (a / 60 mod 60)
                      (":" ++ JsDate.pad2 (a mod 60) "")
        /\ (7 <= length (formatTime a))%nat)
    /\ (formatTime a = formatTime b -> a = b).
Proof.
  intros a b Ha Hb.
  pose proof (formatTime_forms a Ha) as Fa.
  pose proof (formatTime_forms b Hb) as Fb.
  assert (Long : forall n, 0 <= n -> 3600 <= n ->
                   (7 <= length (formatTime n))%nat).
  { intros n Hn Hn'. rewrite (formatTime_forms n Hn).
    destruct (Z.ltb_spec n 3600); [lia |].
    rewrite length_append, tail_length.
    pose proof (Number_toString_nonempty (n / 3600)). lia. }
  assert (Short : forall n, 0 <= n -> n < 3600 ->
                    length (formatTime n) = 5%nat).
  { intros n Hn Hn'. rewrite (formatTime_forms n Hn).
    destruct (Z.ltb_spec n 3600); [reflexivity | lia]. }
  split; [| split].
  - intros Hlt. split; [| now apply Short].
    rewrite Fa. destruct (Z.ltb_spec a 3600); [reflexivity | lia].
  - intros Hge. split; [| now apply Long].
    rewrite Fa. destruct (Z.ltb_spec a 3600); [lia | reflexivity].
  - intros E.
    destruct (Z.lt_ge_cases a 3600) as [La | La];
      destruct (Z.lt_ge_cases b 3600) as [Lb | Lb].
    + rewrite Fa, Fb in E.
      destruct (Z.ltb_spec a 3600); [| lia].
      destruct (Z.ltb_spec b 3600); [| lia].
      apply pad2_inj in E;
        [| Z.div_mod_to_equations; lia | Z.div_mod_to_equations; lia].
      destruct E as [Em E]. apply colon_tail in E.
      apply pad2_inj in E;
        [| Z.div_mod_to_equations; lia | Z.div_mod_to_equations; lia].
      destruct E as [Es _]. Z.div_mod_to_equations. lia.
    + pose proof (Short a Ha La). pose proof (Long b Hb Lb).
      rewrite E in *. lia.
    + pose proof (Long a Ha La). pose proof (Short b Hb Lb).
      rewrite E in *. lia.
    + rewrite Fa, Fb in E.
      destruct (Z.ltb_spec a 3600); [lia |].
      destruct (Z.ltb_spec b 3600); [lia |].
      apply append_inj in E; [| now rewrite !tail_length].
      destruct E as [Eh E]. apply Number_toString_inj in Eh.
      apply colon_tail in E.
      apply pad2_inj in E;
        [| Z.div_mod_to_equations; lia | Z.div_mod_to_equations; lia].
      destruct E as [Em E]. apply colon_tail in E.
      apply pad2_inj in E;
        [| Z.div_mod_to_equations; lia | Z.div_mod_to_equations; lia].
      destruct E as [Es _]. Z.div_mod_to_equations. lia.
Qed.

Lemma timer_text_unambiguous_witness :
  formatTime 754 = "12:34" /\ formatTime 3725 = "1:02:05"
  /\ (formatTime 754 = formatTime 3725 -> 754 = 3725).
Proof.
  destruct (timer_text_unambiguous 754 3725 ltac:(lia) ltac:(lia))
    as [_ [_ H]].
  split; [reflexivity |]. split; [reflexivity | exact H].
Defined.
End TimerTextFormat.

(** ** The dashboard's widgets *)

Section Widgets.
Import Dashboard.
Import String.
Local Open Scope string_scope.
Local Open Scope list_scope.
Local Open Scope Z_scope.

Lemma migrate_fields (w : Widget) :
  migrate (migrate w) = migrate w
  /\ id (migrate w) = id w /\ customHue (migrate w) = customHue w.
Proof.
  unfold migrate.
  destruct (String.eqb (type w) "soloCount") eqn:E1; [cbn; auto |].
  destruct (String.eqb (type w) "multiCount") eqn:E2; [cbn; auto |].
  destruct (String.eqb (type w) "streak") eqn:E3; [cbn; auto |].
  rewrite E1, E2, E3. auto.
Qed.

Lemma migrate_typed (w : Widget) :
  In (type w) WidgetType ->
  In (type (migrate w)) WidgetType
  /\ includes interactiveTypes (type (migrate w)) = true
  /\ getModalHeader (type (migrate w)) <> Details
  /\ type (migrate w) <> "soloCount" /\ type (migrate w) <> "multiCount"
  /\ type (migrate w) <> "streak".
Proof.
  destruct w as [i t h]. cbn [type]. unfold WidgetType. intros Hin.
  repeat (destruct Hin as [<- | Hin];
          [vm_compute; repeat split; try discriminate; tauto |]).
  destruct Hin.
Qed.

Lemma findIndex_range {A : Type} (p : A -> bool) (l : list A) :
  findIndex p l = -1 \/ 0 <= findIndex p l < Z.of_nat (List.length l).
Proof.
  induction l as [| x xs IH]; [now left |].
  cbn [findIndex List.length]. destruct (p x); [right; lia |].
  destruct (Z.ltb_spec (findIndex p xs) 0); [now left | right; lia].
Qed.

Lemma findIndex_found {A : Type} (p : A -> bool) (l : list A) :
  0 <= findIndex p l ->
  exists x, nth_error l (Z.to_nat (findIndex p l)) = Some x /\ p x = true.
Proof.
  induction l as [| x xs IH]; cbn [findIndex]; [lia |].
  destruct (p x) eqn:E; [intros _; exists x; now split |].
  destruct (Z.ltb_spec (findIndex p xs) 0); [lia |]. intros _.
  destruct (IH ltac:(lia)) as [y [Hy Py]]. exists y. split; [| exact Py].
  replace (Z.to_nat (findIndex p xs + 1)) with (S (Z.to_nat (findIndex p xs)))
    by lia.
  exact Hy.
Qed.

Lemma findIndex_missing {A : Type} (p : A -> bool) (l : list A) :
  findIndex p l = -1 <-> forall x, In x l -> p x = false.
Proof.
  induction l as [| x xs IH]; cbn [findIndex].
  - split; [intros _ y [] | reflexivity].
  - destruct (p x) eqn:E.
    + split; [discriminate |]. intros Hall.
      rewrite (Hall x (or_introl eq_refl)) in E. discriminate.
    + destruct (Z.ltb_spec (findIndex p xs) 0) as [Hlt | Hge].
      * split; [| reflexivity]. intros _ y [<- | Hy]; [exact E |].
        apply IH; [| exact Hy].
        destruct (findIndex_range p xs); lia.
      * split; [lia |]. intros Hall. exfalso.
        assert (findIndex p xs = -1) by (apply IH; intros y Hy; apply Hall;
                                          now right).
        lia.
Qed.

Lemma splice_out_in {A : Type} (l : list A) (i : nat) (x : A) :
  nth_error l i = Some x ->
  firstn 1 (skipn i l) = [x]
  /\ Permutation l (x :: firstn i l ++ skipn (S i) l)
  /\ S (List.length (firstn i l ++ skipn (S i) l)) = List.length l.
Proof.
  revert i. induction l as [| y ys IH]; intros i Hi.
  - destruct i; discriminate.
  - destruct i as [| i].
    + injection Hi as ->. cbn. repeat split; reflexivity.
    + cbn [nth_error] in Hi. destruct (IH i Hi) as [E1 [P L]].
      change (firstn (S i) (y :: ys)) with (y :: firstn i ys).
      change (skipn (S (S i)) (y :: ys)) with (skipn (S i) ys).
      change (skipn (S i) (y :: ys)) with (skipn i ys).
      split; [exact E1 |]. split.
      * cbn [app].
        apply perm_trans with (y :: x :: firstn i ys ++ skipn (S i) ys);
          [constructor; exact P | apply perm_swap].
      * cbn [app List.length]. now rewrite L.
Qed.

Lemma spliceIn_facts {A : Type} (l : list A) (j : nat) (x : A) :
  (j <= List.length l)%nat ->
  Permutation (firstn j l ++ x :: skipn j l) (x :: l)
  /\ nth_error (firstn j l ++ x :: skipn j l) j = Some x
  /\ firstn j (firstn j l ++ x :: skipn j l)
     ++ skipn (S j) (firstn j l ++ x :: skipn j l) = l.
Proof.
  intros Hj.
  assert (Lf : List.length (firstn j l) = j) by (rewrite length_firstn; lia).
  split; [| split].
  - rewrite <- Permutation_middle. constructor.
    now rewrite firstn_skipn.
  - rewrite nth_error_app2 by lia. rewrite Lf, Nat.sub_diag. reflexivity.
  - rewrite firstn_app, Lf, Nat.sub_diag, firstn_O, app_nil_r.
    rewrite firstn_firstn, Nat.min_id.
    rewrite skipn_app, Lf.
    rewrite (skipn_all2 (firstn j l)) by lia.
    replace (S j - j)%nat with 1%nat by lia.
    change (skipn 1 (x :: skipn j l)) with (skipn j l). cbn [app].
    apply firstn_skipn.
Qed.
End Widgets.

Section WidgetTheorems.
Import Dashboard.
Import String.
Local Open Scope string_scope.
Local Open Scope list_scope.
Local Open Scope Z_scope.

(** The two outcomes of [handleDragOver]. *)
Lemma handleDragOver_cases :
  forall (widgets : list Widget) (draggedId : option string)
         (targetId : string),
    match handleDragOver widgets draggedId targetId with
    | Some newWidgets =>
        exists (dragged : Widget) (draggedIndex targetIndex : Z),
          draggedId = Some (id dragged)
          /\ draggedIndex
             = findIndex (fun w => String.eqb (id w) (id dragged)) widgets
          /\ targetIndex
             = findIndex (fun w => String.eqb (id w) targetId) widgets
          /\ nth_error widgets (Z.to_nat draggedIndex) = Some dragged
          /\ nth_error newWidgets (Z.to_nat targetIndex) = Some dragged
          /\ Permutation newWidgets widgets
          /\ fst (spliceOut newWidgets targetIndex)
             = fst (spliceOut widgets draggedIndex)
    | None =>
        draggedId = None \/ draggedId = Some "" \/ draggedId = Some targetId
        \/ (exists d, draggedId = Some d
                      /\ forall w, In w widgets -> id w <> d)
        \/ (forall w, In w widgets -> id w <> targetId)
    end.
Proof.
  intros widgets draggedId targetId. unfold handleDragOver.
  destruct draggedId as [d |]; [| now left].
  destruct (String.eqb_spec d "") as [-> | Hd]; [right; now left |].
  destruct (String.eqb_spec d targetId) as [-> | Hdt];
    [right; right; now left |].
  cbn [orb].
  set (pd := fun w : Widget => String.eqb (id w) d).
  set (pt := fun w : Widget => String.eqb (id w) targetId).
  destruct (findIndex_range pd widgets) as [Ei | Hi].
  { rewrite Ei. cbn [Z.eqb orb]. right; right; right; left.
    exists d. split; [reflexivity |]. intros w Hw E.
    pose proof (proj1 (findIndex_missing pd widgets) Ei w Hw) as F.
    unfold pd in F. rewrite E, String.eqb_refl in F. discriminate. }
  destruct (findIndex_range pt widgets) as [Ej | Hj].
  { rewrite Ej. rewrite orb_true_r. right; right; right; right.
    intros w Hw E.
    pose proof (proj1 (findIndex_missing pt widgets) Ej w Hw) as F.
    unfold pt in F. rewrite E, String.eqb_refl in F. discriminate. }
  destruct (Z.eqb_spec (findIndex pd widgets) (-1)); [lia |].
  destruct (Z.eqb_spec (findIndex pt widgets) (-1)); [lia |].
  cbn [orb].
  destruct (findIndex_found pd widgets ltac:(lia)) as [x [Hx Px]].
  unfold pd in Px. apply String.eqb_eq in Px.
  destruct (splice_out_in widgets _ x Hx) as [E1 [P L]].
  unfold spliceOut. rewrite E1.
  set (rest := firstn (Z.to_nat (findIndex pd widgets)) widgets
               ++ skipn (S (Z.to_nat (findIndex pd widgets))) widgets) in *.
  assert (Hjr : (Z.to_nat (findIndex pt widgets) <= List.length rest)%nat)
    by lia.
  destruct (spliceIn_facts rest _ x Hjr) as [P' [N' R']].
  exists x, (findIndex pd widgets), (findIndex pt widgets).
  unfold spliceIn. cbn [fst].
  split; [now rewrite Px |].
  split; [unfold pd; now rewrite Px |].
  split; [reflexivity |].
  split; [exact Hx |].
  split; [exact N' |].
  split; [rewrite P'; now apply Permutation_sym |].
  exact R'.
Qed.

(** The handler leaves the list alone in each of these cases. *)
Lemma handleDragOver_none :
  forall (widgets : list Widget) (draggedId : option string)
         (targetId : string),
    draggedId = None \/ draggedId = Some "" \/ draggedId = Some targetId
    \/ (exists d, draggedId = Some d
                  /\ forall w, In w widgets -> id w <> d)
    \/ (forall w, In w widgets -> id w <> targetId) ->
    handleDragOver widgets draggedId targetId = None.
Proof.
  intros widgets draggedId targetId Hcause. unfold handleDragOver.
  destruct draggedId as [d |]; [| reflexivity].
  destruct (String.eqb_spec d "") as [-> | Hd]; [reflexivity |].
  destruct (String.eqb_spec d targetId) as [-> | Hdt]; [reflexivity |].
  cbn [orb].
  set (pd := fun w : Widget => String.eqb (id w) d).
  set (pt := fun w : Widget => String.eqb (id w) targetId).
  destruct Hcause as [E | [E | [E | [[d' [E Hmiss]] | Hmiss]]]];
    try discriminate; try (injection E as E; congruence).
  - injection E as <-.
    assert (Ei : findIndex pd widgets = -1).
    { apply findIndex_missing. intros w Hw. unfold pd.
      apply String.eqb_neq. exact (Hmiss w Hw). }
    rewrite Ei. reflexivity.
  - assert (Ej : findIndex pt widgets = -1).
    { apply findIndex_missing. intros w Hw. unfold pt.
      apply String.eqb_neq. exact (Hmiss w Hw). }
    rewrite Ej. rewrite orb_true_r. reflexivity.
Qed.

(** X14: dragging a widget over another one.  The handler sets no new
    widget list exactly when nothing is dragged, the widget is dragged
    over itself, or one of the two identifiers belongs to no widget.
    When it sets one, the dragged widget has moved to the index that the
    target had, the other widgets keep their order, and no widget is lost
    or doubled. *)
Theorem drag_over_moves_widget :
  forall (widgets : list Widget) (draggedId : option string)
         (targetId : string),
    (handleDragOver widgets draggedId targetId = None
     <-> draggedId = None \/ draggedId = Some ""
         \/ draggedId = Some targetId
         \/ (exists d, draggedId = Some d
                       /\ forall w, In w widgets -> id w <> d)
         \/ (forall w, In w widgets -> id w <> targetId))
    /\ (forall newWidgets : list Widget,
          handleDragOver widgets draggedId targetId = Some newWidgets ->
          exists (dragged : Widget) (draggedIndex targetIndex : Z),
            draggedId = Some (id dragged)
            /\ draggedIndex
               = findIndex (fun w => String.eqb (id w) (id dragged)) widgets
            /\ targetIndex
               = findIndex (fun w => String.eqb (id w) targetId) widgets
            /\ nth_error widgets (Z.to_nat draggedIndex) = Some dragged
            /\ nth_error newWidgets (Z.to_nat targetIndex) = Some dragged
            /\ Permutation newWidgets widgets
            /\ fst (spliceOut newWidgets targetIndex)
               = fst (spliceOut widgets draggedIndex)).
Proof.
  intros widgets draggedId targetId.
  pose proof (handleDragOver_cases widgets draggedId targetId) as C.
  split; [split |].
  - intros E. rewrite E in C. exact C.
  - apply handleDragOver_none.
  - intros newWidgets E. rewrite E in C. exact C.
Qed.

Lemma removeWidget_ids (widgets : list Widget) (id_ : string) :
  NoDup (map id widgets) -> NoDup (map id (removeWidget widgets id_)).
Proof.
  unfold removeWidget.
  induction widgets as [| w ws IH]; cbn [map filter]; intros Hn;
    [exact Hn |].
  apply NoDup_cons_iff in Hn. destruct Hn as [Hfresh Hrest].
  destruct (negb (String.eqb (id w) id_)); [| exact (IH Hrest)].
  cbn [map]. apply NoDup_cons_iff. split; [| exact (IH Hrest)].
  intros Hin. apply Hfresh. apply in_map_iff in Hin.
  destruct Hin as [w' [E Hw']]. apply filter_In in Hw'.
  apply in_map_iff. exists w'. tauto.
Qed.

Lemma updateWidgetType_ids (widgets : list Widget) (i t : string) :
  map id (updateWidgetType widgets i t) = map id widgets.
Proof.
  unfold updateWidgetType. rewrite map_map. apply map_ext.
  intros w. now destruct (String.eqb (id w) i).
Qed.

Lemma updateWidgetHue_ids (widgets : list Widget) (i : string)
      (h : option Z) :
  map id (updateWidgetHue widgets i h) = map id widgets.
Proof.
  unfold updateWidgetHue. rewrite map_map. apply map_ext.
  intros w. now destruct (String.eqb (id w) i).
Qed.

Lemma migrate_ids (widgets : list Widget) :
  map id (map migrate widgets) = map id widgets.
Proof. rewrite map_map. apply map_ext. intros w. apply migrate_fields. Qed.

Lemma removeWidget_length (widgets : list Widget) (i : string) :
  NoDup (map id widgets) -> In i (map id widgets) ->
  S (List.length (removeWidget widgets i)) = List.length widgets.
Proof.
  unfold removeWidget.
  induction widgets as [| w ws IH]; cbn [map filter]; intros Hn Hin;
    [destruct Hin |].
  inversion Hn as [| ? ? Hnotin Hrest]; subst.
  destruct (String.eqb_spec (id w) i) as [E | E]; cbn [negb].
  - f_equal. cbn [List.length]. f_equal.
    rewrite <- (filter_all (fun w0 => negb (String.eqb (id w0) i)) ws) at 2.
    + reflexivity.
    + apply Forall_forall. intros y Hy.
      destruct (String.eqb_spec (id y) i) as [Ey | Ey]; [| reflexivity].
      exfalso. apply Hnotin. rewrite E, <- Ey. now apply in_map.
  - cbn [List.length]. f_equal. apply IH; [exact Hrest |].
    destruct Hin as [Hin | Hin]; [contradiction | exact Hin].
Qed.
End WidgetTheorems.

Section WidgetInvariants.
Import Dashboard.
Import String.
Local Open Scope string_scope.
Local Open Scope list_scope.
Local Open Scope Z_scope.

(** X15: the migration of stored widgets.  It keeps the identifier and the
    hue of a widget and changes nothing when applied again.  A widget of
    any declared type has, once migrated, none of the three legacy
    types; outside the edit mode a click on it opens its detail view,
    and the title of that view is not the fallback title.  Without the
    migration a widget of the legacy types "soloCount" or "multiCount"
    would not react to a click.  The initial widget list is a fixed point
    of the migration. *)
Theorem widget_migration :
  (forall w : Widget,
      migrate (migrate w) = migrate w
      /\ id (migrate w) = id w /\ customHue (migrate w) = customHue w)
  /\ (forall w : Widget,
         In (type w) WidgetType ->
         In (type (migrate w)) WidgetType
         /\ ~ In (type (migrate w)) ["streak"; "soloCount"; "multiCount"]
         /\ handleWidgetClick false (migrate w) = Some (id w)
         /\ getModalHeader (type (migrate w)) <> Details)
  /\ (forall w : Widget,
         type w = "soloCount" \/ type w = "multiCount" ->
         handleWidgetClick false w = None)
  /\ (forall saved : option (list Widget),
         map migrate (initialWidgets saved) = initialWidgets saved
         /\ map id (initialWidgets saved)
            = map id (match saved with
                      | Some ws => ws
                      | None => DEFAULT_WIDGETS
                      end)).
Proof.
  split; [exact migrate_fields |].
  split.
  { intros w Hw.
    destruct (migrate_typed w Hw) as [H1 [H2 [H3 [H4 [H5 H6]]]]].
    split; [exact H1 |].
    split; [cbn [In]; intuition congruence |].
    split; [| exact H3].
    unfold handleWidgetClick. rewrite H2. f_equal. apply migrate_fields. }
  split.
  { intros w [E | E]; unfold handleWidgetClick; rewrite E; reflexivity. }
  intros saved. unfold initialWidgets. split.
  - rewrite map_map. apply map_ext. intros w. apply migrate_fields.
  - apply migrate_ids.
Qed.

(** X16: the identifiers of the widgets stay distinct.  On a widget list
    with distinct identifiers, adding a widget under a fresh identifier,
    removing, retyping, recolouring, migrating and dragging all give a
    list with distinct identifiers; retyping, recolouring and migrating
    keep the identifiers in place, removing a widget that is there
    shortens the list by exactly that widget, and dragging keeps the set
    of widgets. *)
Theorem widget_ids_stay_distinct :
  forall widgets : list Widget,
    NoDup (map id widgets) ->
    (forall uuid type_,
        ~ In uuid (map id widgets) ->
        NoDup (map id (addWidget widgets uuid type_)))
    /\ (forall id_,
           NoDup (map id (removeWidget widgets id_))
           /\ ~ In id_ (map id (removeWidget widgets id_))
           /\ (forall w, In w (removeWidget widgets id_)
                         <-> In w widgets /\ id w <> id_)
           /\ (In id_ (map id widgets) ->
               S (List.length (removeWidget widgets id_))
               = List.length widgets))
    /\ (forall id_ newType,
           map id (updateWidgetType widgets id_ newType) = map id widgets)
    /\ (forall id_ hue,
           map id (updateWidgetHue widgets id_ hue) = map id widgets)
    /\ map id (map migrate widgets) = map id widgets
    /\ (forall draggedId targetId newWidgets,
           handleDragOver widgets draggedId targetId = Some newWidgets ->
           NoDup (map id newWidgets)).
Proof.
  intros widgets Hn.
  split.
  { intros uuid type_ Hfresh. unfold addWidget. rewrite map_app. cbn [map id].
    apply NoDup_app; [exact Hn | repeat constructor; cbn; tauto |].
    intros x Hx [<- | []]. contradiction. }
  split.
  { intros id_.
    assert (Hin : forall w, In w (removeWidget widgets id_)
                            <-> In w widgets /\ id w <> id_).
    { intros w. unfold removeWidget. rewrite filter_In, negb_true_iff.
      destruct (String.eqb_spec (id w) id_); intuition congruence. }
    split; [apply removeWidget_ids; exact Hn |].
    split.
    { intros H. apply in_map_iff in H. destruct H as [w [E Hw]].
      apply Hin in Hw. tauto. }
    split; [exact Hin |].
    apply removeWidget_length. exact Hn. }
  split; [intros; apply updateWidgetType_ids |].
  split; [intros; apply updateWidgetHue_ids |].
  split; [apply migrate_ids |].
  intros draggedId targetId newWidgets E.
  pose proof (handleDragOver_cases widgets draggedId targetId) as D.
  rewrite E in D. destruct D as [x [i [j [_ [_ [_ [_ [_ [P _]]]]]]]]].
  apply (Permutation_NoDup (l := map id widgets)); [| exact Hn].
  apply Permutation_map, Permutation_sym, P.
Qed.

Lemma widget_ids_stay_distinct_witness :
  NoDup (map id (addWidget DEFAULT_WIDGETS "4" "nightCount"))
  /\ S (List.length (removeWidget DEFAULT_WIDGETS "2"))
     = List.length DEFAULT_WIDGETS.
Proof.
  assert (Hn : NoDup (map id DEFAULT_WIDGETS)).
  { cbn. repeat constructor; cbn; intuition discriminate. }
  destruct (widget_ids_stay_distinct DEFAULT_WIDGETS Hn) as [Hadd [Hrem _]].
  split.
  - apply Hadd. cbn. intuition discriminate.
  - apply (Hrem "2"). cbn. tauto.
Defined.
End WidgetInvariants.

(** ** Host zones with clock changes *)

(** *** A zone of constant offset is the zone of [computeStats] *)

Section FixedZone.
Variable tz : Z.

Lemma roundDiv_days (k : Z) :
  HostZone.roundDiv (k * JsDate.MS_PER_DAY) JsDate.MS_PER_DAY = k.
Proof.
  unfold HostZone.roundDiv, JsDate.MS_PER_DAY.
  Z.div_mod_to_equations. lia.
Qed.

Lemma localDay_fixed (t : Z) :
  HostZone.localDay (HostZone.fixed tz) t = JsDate.localDay tz t.
Proof. reflexivity. Qed.

Lemma localMsOfDay_fixed (t : Z) :
  HostZone.localMsOfDay (HostZone.fixed tz) t = JsDate.localMsOfDay tz t.
Proof. reflexivity. Qed.

Lemma compareLocalAsc_fixed (a b : Z) :
  HostZone.compareLocalAsc (HostZone.fixed tz) a b
  = DateFns.compareLocalAsc tz a b.
Proof. reflexivity. Qed.

Lemma startOfDay_fixed (t : Z) :
  HostZone.startOfDay (HostZone.fixed tz) t = DateFns.startOfDay tz t.
Proof.
  unfold HostZone.startOfDay, HostZone.setHours, HostZone.toUTC,
    DateFns.startOfDay, JsDateFields.MakeTime.
  rewrite localDay_fixed. cbn [HostZone.offsetOfLocal HostZone.fixed]. lia.
Qed.

Lemma differenceInCalendarDays_fixed (a b : Z) :
  HostZone.differenceInCalendarDays (HostZone.fixed tz) a b
  = DateFns.differenceInCalendarDays tz a b.
Proof.
  unfold HostZone.differenceInCalendarDays,
    HostZone.getTimezoneOffsetInMilliseconds, HostZone.LocalTime.
  cbv zeta. rewrite !startOfDay_fixed.
  cbn [HostZone.offsetAt HostZone.fixed].
  unfold DateFns.startOfDay, DateFns.differenceInCalendarDays.
  replace (JsDate.localDay tz a * JsDate.MS_PER_DAY - tz
           - (JsDate.localDay tz a * JsDate.MS_PER_DAY - tz
              - (JsDate.localDay tz a * JsDate.MS_PER_DAY - tz + tz))
           - (JsDate.localDay tz b * JsDate.MS_PER_DAY - tz
              - (JsDate.localDay tz b * JsDate.MS_PER_DAY - tz
                 - (JsDate.localDay tz b * JsDate.MS_PER_DAY - tz + tz))))
    with ((JsDate.localDay tz a - JsDate.localDay tz b) * JsDate.MS_PER_DAY)
    by lia.
  apply roundDiv_days.
Qed.

Lemma setDate_fixed (t k : Z) :
  HostZone.setDate (HostZone.fixed tz) t
    (HostZone.getDate (HostZone.fixed tz) t - k)
  = t - k * JsDate.MS_PER_DAY.
Proof.
  transitivity (JsDateFields.setDate tz t (JsDateFields.getDate tz t + - k)).
  - unfold HostZone.setDate, JsDateFields.setDate, HostZone.toUTC.
    cbn [HostZone.offsetOfLocal HostZone.fixed].
    replace (JsDateFields.getDate tz t + - k)
      with (JsDateFields.getDate tz t - k) by lia.
    change (HostZone.getFullYear (HostZone.fixed tz) t)
      with (JsDate.getFullYear tz t).
    change (HostZone.getMonth (HostZone.fixed tz) t)
      with (JsDate.getMonth tz t).
    change (HostZone.getDate (HostZone.fixed tz) t)
      with (JsDateFields.getDate tz t).
    rewrite localMsOfDay_fixed. lia.
  - rewrite setDate_shift. lia.
Qed.

Lemma differenceInDays_fixed (dateLeft dateRight : Z) :
  HostZone.differenceInDays (HostZone.fixed tz) dateLeft dateRight
  = DateFns.differenceInDays tz dateLeft dateRight.
Proof.
  unfold HostZone.differenceInDays, DateFns.differenceInDays. cbv zeta.
  rewrite !compareLocalAsc_fixed, differenceInCalendarDays_fixed.
  rewrite setDate_fixed.
  reflexivity.
Qed.

Context {N : Type} `{JsNumber N}.

Lemma fold_left_pointwise {A B : Type} (f g : A -> B -> A) (l : list B) :
  (forall a b, f a b = g a b) ->
  forall a, fold_left f l a = fold_left g l a.
Proof.
  intros Hfg. induction l as [| b bs IH]; intros a; [reflexivity |].
  cbn [fold_left]. rewrite Hfg. apply IH.
Qed.

Lemma streakLengthsOf_fixed (days : list Z) :
  HostZone.streakLengthsOf (HostZone.fixed tz) days = streakLengthsOf tz days.
Proof.
  unfold HostZone.streakLengthsOf, streakLengthsOf.
  rewrite (fold_left_pointwise (HostZone.streakStep (HostZone.fixed tz) days)
             (streakStep tz days)); [reflexivity |].
  intros [lens run] i. unfold HostZone.streakStep, streakStep. cbv zeta.
  now rewrite differenceInDays_fixed.
Qed.

Lemma restGapsOf_fixed (days : list Z) :
  HostZone.restGapsOf (HostZone.fixed tz) days = restGapsOf tz days.
Proof.
  unfold HostZone.restGapsOf, restGapsOf.
  apply fold_left_pointwise.
  intros gaps i. unfold HostZone.restStep, restStep. cbv zeta.
  now rewrite differenceInDays_fixed.
Qed.

(** In a zone of constant offset the day figures are those of
    [computeStats]. *)
Lemma dayStats_fixed (logs : list (FlightLog N)) (now : Z) :
  HostZone.dayStats (HostZone.fixed tz) logs now
  = dayStatsOf (computeStats tz logs now).
Proof.
  unfold HostZone.dayStats, dayStatsOf, computeStats. cbv zeta.
  cbn [daysSinceLastFlight daysSinceLastIncident consecutiveDays maxStreak
       minStreak streakBreaks maxRestStreak minRestStreak restBreaks].
  rewrite streakLengthsOf_fixed, restGapsOf_fixed.
  f_equal.
  - destruct (JsArray.sort byDateDesc (validLogs logs));
      [reflexivity | apply differenceInDays_fixed].
  - destruct (JsArray.sort byDateDesc (nightLogs logs));
      [reflexivity | apply differenceInDays_fixed].
  - destruct (uniqueDayStrings logs); [reflexivity |].
    now rewrite differenceInDays_fixed.
Qed.
End FixedZone.

(** *** Streaks and rest gaps in a zone of constant offset *)

Section FixedOffsetStreaks.
Variable tz : Z.
Context {N : Type} `{JsNumber N}.
Variable logs : list (FlightLog N).

(** The day keys are the UTC days of the entries other than incidents. *)
Lemma day_keys_of_entries (k : Z) :
  In k (uniqueDayStrings logs)
  <-> exists l, In l logs /\ type l <> night
                /\ JsDate.toISODateString (date l) = k.
Proof.
  destruct (uniqueDayStrings_spec logs) as [_ K]. rewrite K.
  split; intros [l [Hin [Hn E]]]; exists l; (split; [exact Hin |]);
    (split; [| exact E]).
  - intros Hty. apply isNight_type in Hty. congruence.
  - destruct (isNight l) eqn:En; [| reflexivity].
    apply isNight_type in En. contradiction.
Qed.

Lemma descending_explicit (l : list Z) :
  match l with
  | [a; b] => b < a -> descending l
  | [a; b; c; d] => d < c -> c < b -> b < a -> descending l
  | _ => True
  end.
Proof.
  destruct l as [| a [| b [| c [| d [| e r]]]]]; try exact I;
    unfold descending; intros; repeat constructor; lia.
Qed.

(** The key list is determined by the set of days it covers. *)
Lemma day_keys_determined (expected : list Z) :
  descending expected ->
  (forall k, (exists l, In l logs /\ type l <> night
                        /\ JsDate.toISODateString (date l) = k)
             <-> In k expected) ->
  uniqueDayStrings logs = expected.
Proof.
  intros Hd Hk. apply descending_unique;
    [apply uniqueDayStrings_spec | exact Hd |].
  intros k. rewrite day_keys_of_entries. apply Hk.
Qed.
End FixedOffsetStreaks.

(** X17: the activity streaks in a host zone of constant offset.  The day
    keys are the UTC days of the entries other than incidents, each once
    and most recent first (for dates of the years 0000 to 9999 their texts
    are in the same order), and the whole-day difference of two keys is
    the difference of their day numbers.  The keys split into maximal runs
    of consecutive days; [maxStreak] is the longest run (0 without
    entries), [minStreak] the shortest run of positive length,
    [streakBreaks] the number of such runs minus one, never below 0; the
    current streak is the length of the most recent run exactly when the
    whole-day difference from [now] to the most recent key is at most 1,
    and 0 otherwise.  Entries on exactly four consecutive UTC days, the
    last one 5 whole days before [now], give [maxStreak] = 4 and a
    current streak of 0. *)
Theorem activity_streaks_fixed_offset :
  forall (tz : Z) (N : Type) (num : JsNumber N)
         (logs : list (FlightLog N)) (now : Z),
    let s := computeStats tz logs now in
    let days := uniqueDayStrings logs in
    let runs := groupRuns tz days in
    let lens := map JsArray.length runs in
    let positive := filter (fun n => 0 <? n) lens in
    descending days
    /\ (forall k, In k days
                  <-> exists l, In l logs /\ type l <> night
                                /\ JsDate.toISODateString (date l) = k)
    /\ ((forall l, In l logs -> fourDigitYear (JsDate.Day (date l))) ->
        uniqueDayTexts logs = map JsDate.isoDateText days)
    /\ (forall newer older, wholeDayDiff tz newer older = newer - older)
    /\ RunPartition tz days runs
    /\ MaxOrZero lens (maxStreak s)
    /\ MinOrZero positive (minStreak s)
    /\ streakBreaks s = Z.max 0 (JsArray.length positive - 1)
    /\ match days, runs with
       | d :: _, r :: _ =>
           (consecutiveDays s = JsArray.length r <->
            DateFns.differenceInDays tz now (JsDate.ofDateString d) <= 1)
           /\ (1 < DateFns.differenceInDays tz now (JsDate.ofDateString d) ->
               consecutiveDays s = 0)
       | _, _ => consecutiveDays s = 0
       end
    /\ (forall d : Z,
           (forall k, (exists l, In l logs /\ type l <> night
                                 /\ JsDate.toISODateString (date l) = k)
                      <-> d - 3 <= k <= d) ->
           DateFns.differenceInDays tz now (JsDate.ofDateString d) = 5 ->
           maxStreak s = 4 /\ consecutiveDays s = 0).
Proof.
  intros tz N num logs now s days runs lens positive.
  pose proof (maxStreak_eq tz logs now) as Emax.
  pose proof (minStreak_eq tz logs now) as Emin.
  pose proof (streakBreaks_eq tz logs now) as Ebrk.
  pose proof (consecutiveDays_eq tz logs now) as Ecur.
  fold s days in Emax, Emin, Ebrk, Ecur.
  fold runs lens in Emax, Emin, Ebrk, Ecur. fold positive in Emin, Ebrk.
  split; [apply uniqueDayStrings_spec |].
  split; [apply day_keys_of_entries |].
  split; [intros Hy; apply (uniqueDayTexts_model logs Hy) |].
  split; [apply wholeDayDiff_sub |].
  split; [apply groupRuns_partition, uniqueDayStrings_spec |].
  split; [rewrite Emax; apply MaxOrZero_of_match |].
  split; [rewrite Emin; apply MinOrZero_of_match |].
  split; [exact Ebrk |].
  split.
  - rewrite Ecur. unfold lens, runs.
    destruct days as [| d rest]; [reflexivity |].
    destruct (groupRuns_nonempty tz d rest) as [r [rs E]]. rewrite E.
    cbn [map].
    assert (Hlen : 0 < JsArray.length (d :: r))
      by (unfold JsArray.length; cbn [List.length]; lia).
    destruct (Z.leb_spec
                (DateFns.differenceInDays tz now (JsDate.ofDateString d)) 1);
      (split; [split |]); intros; try tauto; lia.
  - intros d Hkeys Hdiff.
    assert (Ed : days = [d; d - 1; d - 2; d - 3]).
    { apply day_keys_determined.
      - apply (descending_explicit [d; d - 1; d - 2; d - 3]); lia.
      - intros k. rewrite Hkeys. cbn [In]. lia. }
    split.
    + rewrite Emax. unfold lens, runs. rewrite Ed, groupRuns_four.
      reflexivity.
    + rewrite Ecur, Ed, Hdiff. reflexivity.
Qed.

(** X18: the rest gaps in a host zone of constant offset.  Over adjacent
    pairs of the day keys (the UTC days of the entries other than
    incidents, most recent first) the gap is the difference of the day
    numbers minus one, kept when positive; [maxRestStreak] and
    [minRestStreak] are the largest and the smallest gap (0 without gaps)
    and [restBreaks] is the number of activity runs.  Entries on exactly
    two UTC days with two days in between give [maxStreak] = 1,
    [streakBreaks] = 1, both rest extremes 2 and [restBreaks] = 2. *)
Theorem rest_gaps_fixed_offset :
  forall (tz : Z) (N : Type) (num : JsNumber N)
         (logs : list (FlightLog N)) (now : Z),
    let s := computeStats tz logs now in
    let days := uniqueDayStrings logs in
    let gaps := restGapsSpec tz days in
    descending days
    /\ (forall k, In k days
                  <-> exists l, In l logs /\ type l <> night
                                /\ JsDate.toISODateString (date l) = k)
    /\ gaps = filter (fun gap => 0 <? gap)
                (map (fun p => fst p - snd p - 1) (adjacentPairs days))
    /\ MaxOrZero gaps (maxRestStreak s)
    /\ MinOrZero gaps (minRestStreak s)
    /\ restBreaks s = JsArray.length (groupRuns tz days)
    /\ (forall d : Z,
           (forall k, (exists l, In l logs /\ type l <> night
                                 /\ JsDate.toISODateString (date l) = k)
                      <-> k = d \/ k = d + 3) ->
           maxStreak s = 1 /\ streakBreaks s = 1
           /\ maxRestStreak s = 2 /\ minRestStreak s = 2
           /\ restBreaks s = 2).
Proof.
  intros tz N num logs now s days gaps.
  pose proof (maxRestStreak_eq tz logs now) as Emax.
  pose proof (minRestStreak_eq tz logs now) as Emin.
  pose proof (restBreaks_eq tz logs now) as Ebrk.
  fold s days in Emax, Emin, Ebrk. fold gaps in Emax, Emin.
  split; [apply uniqueDayStrings_spec |].
  split; [apply day_keys_of_entries |].
  split.
  { unfold gaps, restGapsSpec. f_equal. apply map_ext.
    intros p. now rewrite wholeDayDiff_sub. }
  split; [rewrite Emax; apply MaxOrZero_of_match |].
  split; [rewrite Emin; apply MinOrZero_of_match |].
  split.
  - rewrite Ebrk. unfold JsArray.length. now rewrite length_map.
  - intros d Hkeys.
    assert (Ed : days = [d + 3; d]).
    { apply day_keys_determined.
      - apply (descending_explicit [d + 3; d]); lia.
      - intros k. rewrite Hkeys. cbn [In]. lia. }
    pose proof (maxStreak_eq tz logs now) as Fmax.
    pose proof (streakBreaks_eq tz logs now) as Fbrk.
    fold s days in Fmax, Fbrk.
    unfold gaps in *.
    rewrite Ed in *. rewrite groupRuns_gap in *. rewrite restGapsSpec_gap in *.
    rewrite Fmax, Fbrk, Emax, Emin, Ebrk. repeat split; reflexivity.
Qed.

(** *** Consecutive days that do not count as a streak *)

Section ClockChanges.
Import String.
Local Open Scope string_scope.
Local Open Scope list_scope.
Local Open Scope Z_scope.

(** C1: consecutive days that the engine does not count as one streak.
    In New York three entries at noon of 2, 3 and 4 November 2024 (the
    clocks go back on 3 November) have the keys of three consecutive days;
    the whole-day difference from the key of 4 November to the key of
    3 November is 0, so the streak loop closes a run between them: the
    streak lengths are 1 and 2, [maxStreak] is 2 with one streak break and
    the current streak is 1, where a zone of constant offset gives one
    streak of 3.  In UTC+8 entries on 1, 2, 3 and 4 January 2024, the
    first one at 07:00, are keyed 2023-12-31 and 2024-01-02 to 04: read
    5 days after the last entry, [maxStreak] is 3, not 4. *)
Theorem C1_consecutive_days_cut :
  (let zone := HostZone.America_New_York_2024 in
   let now := JsDate.UTC 2024 10 4 18 0 in
   let keys := uniqueDayStrings new_york_three_days in
   let s := HostZone.dayStats zone new_york_three_days now in
   let s' := computeStats (-18000000) new_york_three_days now in
   map (fun l => HostZone.localDate zone (date l)) new_york_three_days
   = [(2024, 11, 4); (2024, 11, 3); (2024, 11, 2)]
   /\ map JsDate.isoDateText keys
      = ["2024-11-04"; "2024-11-03"; "2024-11-02"]
   /\ map (fun p => HostZone.differenceInDays zone
                      (JsDate.ofDateString (fst p))
                      (JsDate.ofDateString (snd p)))
          (adjacentPairs keys) = [0; 1]
   /\ HostZone.streakLengthsOf zone keys = [1; 2]
   /\ HostZone.maxStreak s = 2 /\ HostZone.streakBreaks s = 1
   /\ HostZone.consecutiveDays s = 1
   /\ maxStreak s' = 3 /\ streakBreaks s' = 0 /\ consecutiveDays s' = 3)
  /\ (let now := JsDate.UTC 2024 0 9 13 0 in
      let s := computeStats UTC_plus_8 early_start_four_days now in
      map (fun l => localDate UTC_plus_8 (date l)) early_start_four_days
      = [(2024, 1, 4); (2024, 1, 3); (2024, 1, 2); (2024, 1, 1)]
      /\ localDate UTC_plus_8 now = (2024, 1, 9)
      /\ map JsDate.isoDateText (uniqueDayStrings early_start_four_days)
         = ["2024-01-04"; "2024-01-03"; "2024-01-02"; "2023-12-31"]
      /\ daysSinceLastFlight s = 5
      /\ maxStreak s = 3 /\ consecutiveDays s = 0).
Proof. vm_compute. repeat split. Qed.

(** C2: a rest gap that is a day short.  In New York entries at noon of
    2 and of 5 November 2024 leave two days without an entry; the
    whole-day difference of the two keys is 2, so the rest gap is 1 and
    both rest extremes are 1, where a zone of constant offset gives 2.  In
    UTC+8 entries on 1 January 2024 at 20:00 and on 4 January at 07:00
    are keyed 2024-01-01 and 2024-01-03: both rest extremes are 1, not
    2. *)
Theorem C2_rest_gap_a_day_short :
  (let zone := HostZone.America_New_York_2024 in
   let now := JsDate.UTC 2024 10 5 18 0 in
   let keys := uniqueDayStrings new_york_two_days in
   let s := HostZone.dayStats zone new_york_two_days now in
   let s' := computeStats (-18000000) new_york_two_days now in
   map (fun l => HostZone.localDate zone (date l)) new_york_two_days
   = [(2024, 11, 5); (2024, 11, 2)]
   /\ map JsDate.isoDateText keys = ["2024-11-05"; "2024-11-02"]
   /\ map (fun p => HostZone.differenceInDays zone
                      (JsDate.ofDateString (fst p))
                      (JsDate.ofDateString (snd p)))
          (adjacentPairs keys) = [2]
   /\ HostZone.restGapsOf zone keys = [1]
   /\ HostZone.maxStreak s = 1 /\ HostZone.streakBreaks s = 1
   /\ HostZone.maxRestStreak s = 1 /\ HostZone.minRestStreak s = 1
   /\ HostZone.restBreaks s = 2
   /\ maxRestStreak s' = 2 /\ minRestStreak s' = 2)
  /\ (let now := JsDate.UTC 2024 0 4 13 0 in
      let s := computeStats UTC_plus_8 early_second_day now in
      map (fun l => localDate UTC_plus_8 (date l)) early_second_day
      = [(2024, 1, 4); (2024, 1, 1)]
      /\ map JsDate.isoDateText (uniqueDayStrings early_second_day)
         = ["2024-01-03"; "2024-01-01"]
      /\ maxStreak s = 1 /\ streakBreaks s = 1
      /\ maxRestStreak s = 1 /\ minRestStreak s = 1 /\ restBreaks s = 2).
Proof. vm_compute. repeat split. Qed.

(** With a clock change the elapsed days and the rest gaps leave what
    holds for a constant offset: in New York an entry of 9 March 2024,
    noon, read 23 hours later at noon of 10 March, is one day old; and
    the three days of November above give a streak break without a rest
    gap. *)
Example clock_change_figures :
  let zone := HostZone.America_New_York_2024 in
  let entry_time := JsDate.UTC 2024 2 9 17 0 in
  let now := JsDate.UTC 2024 2 10 16 0 in
  let s := HostZone.dayStats zone new_york_march now in
  let s' := HostZone.dayStats zone new_york_three_days
              (JsDate.UTC 2024 10 4 18 0) in
  now - entry_time = 23 * 3600000
  /\ HostZone.daysSinceLastFlight s = 1
  /\ HostZone.streakBreaks s' = 1
  /\ HostZone.restGapsOf zone (uniqueDayStrings new_york_three_days) = []
  /\ HostZone.maxRestStreak s' = 0.
Proof. vm_compute. repeat split. Qed.
End ClockChanges.

(** ** Sums of binary64 durations *)

Section Binary64Shifts.
Import Binary64Units.

(** *** Digits and shifts *)

Lemma digits2_size (p : positive) : digits2_pos p = Pos.size p.
Proof. induction p as [p IH | p IH |]; cbn; now rewrite ?IH. Qed.

Lemma digits2_log2 (p : positive) :
  Z.pos (digits2_pos p) = Z.log2 (Z.pos p) + 1.
Proof.
  rewrite digits2_size. destruct p as [p | p |]; cbn [Z.log2 Pos.size]; lia.
Qed.

Lemma iter_xO (m d : positive) :
  Z.pos (Pos.iter xO m d) = Z.pos m * 2 ^ Z.pos d.
Proof.
  induction d as [| d IH] using Pos.peano_ind.
  - cbn. lia.
  - rewrite Pos.iter_succ, Pos2Z.inj_succ, Z.pow_succ_r by lia.
    rewrite Pos2Z.inj_xO, IH. lia.
Qed.

Lemma iter_pos_nat {A : Type} (f : A -> A) (p : positive) (x : A) :
  iter_pos f p x = Nat.iter (Pos.to_nat p) f x.
Proof.
  revert x. induction p as [p IH | p IH |]; intros x; cbn [iter_pos].
  - rewrite !IH, Pos2Nat.inj_xI.
    replace (S (2 * Pos.to_nat p))%nat
      with (Pos.to_nat p + (Pos.to_nat p + 1))%nat by lia.
    rewrite !Nat.iter_add. reflexivity.
  - rewrite !IH, Pos2Nat.inj_xO.
    replace (2 * Pos.to_nat p)%nat with (Pos.to_nat p + Pos.to_nat p)%nat
      by lia.
    rewrite Nat.iter_add. reflexivity.
  - reflexivity.
Qed.

(** One step of [shr_1] on a non-negative mantissa. *)
Lemma shr_1_step (m : Z) (r s : bool) :
  0 <= m ->
  shr_1 {| shr_m := m; shr_r := r; shr_s := s |}
  = {| shr_m := m / 2; shr_r := Z.odd m; shr_s := r || s |}.
Proof.
  intros Hm. destruct m as [| p | p]; [reflexivity | | lia].
  destruct p as [p | p |]; cbn [shr_1 Z.odd].
  - rewrite Pos2Z.inj_xI.
    replace (2 * Z.pos p + 1) with (1 + Z.pos p * 2) by lia.
    rewrite Z.div_add by lia. reflexivity.
  - rewrite Pos2Z.inj_xO.
    replace (2 * Z.pos p) with (0 + Z.pos p * 2) by lia.
    rewrite Z.div_add by lia. reflexivity.
  - reflexivity.
Qed.

(** The remainder by [2 * h] against the half [h]. *)
Lemma half_cases (m h : Z) :
  0 <= m -> 0 < h ->
  Z.odd (m / h) = (h <=? m mod (2 * h))
  /\ (m mod h =? 0) = ((m mod (2 * h) =? 0) || (m mod (2 * h) =? h)).
Proof.
  intros Hm Hh.
  pose proof (Z.div_mod m h ltac:(lia)) as E1.
  pose proof (Z.mod_pos_bound m h Hh) as B1.
  pose proof (Z.div_mod m (2 * h) ltac:(lia)) as E2.
  pose proof (Z.mod_pos_bound m (2 * h) ltac:(lia)) as B2.
  set (q1 := m / h) in *. set (r1 := m mod h) in *.
  set (q2 := m / (2 * h)) in *. set (r2 := m mod (2 * h)) in *.
  destruct (Z.odd q1) eqn:Eo.
  - apply Z.odd_spec in Eo. destruct Eo as [c Ec].
    assert (q2 = c) by nia.
    split.
    + symmetry. apply Z.leb_le. nia.
    + destruct (Z.eqb_spec r1 0), (Z.eqb_spec r2 0), (Z.eqb_spec r2 h);
        cbn [orb]; try reflexivity; nia.
  - assert (Ev : Z.even q1 = true) by (rewrite <- Z.negb_odd, Eo; reflexivity).
    apply Z.even_spec in Ev. destruct Ev as [c Ec].
    assert (q2 = c) by nia.
    split.
    + symmetry. apply Z.leb_gt. nia.
    + destruct (Z.eqb_spec r1 0), (Z.eqb_spec r2 0), (Z.eqb_spec r2 h);
        cbn [orb]; try reflexivity; nia.
Qed.

(** [k + 1] steps of [shr_1] from an exact mantissa. *)
Lemma shr_steps (m : Z) (k : nat) :
  0 <= m ->
  Nat.iter (S k) shr_1 {| shr_m := m; shr_r := false; shr_s := false |}
  = {| shr_m := m / 2 ^ Z.of_nat (S k);
       shr_r := Z.odd (m / 2 ^ Z.of_nat k);
       shr_s := negb (m mod 2 ^ Z.of_nat k =? 0) |}.
Proof.
  intros Hm. induction k as [| k IH].
  - cbn [Nat.iter]. rewrite shr_1_step by exact Hm.
    change (Z.of_nat 1) with 1. change (Z.of_nat 0) with 0.
    rewrite Z.pow_1_r, Z.pow_0_r, Z.div_1_r, Z.mod_1_r. reflexivity.
  - change (Nat.iter (S (S k)) shr_1 ?x)
      with (shr_1 (Nat.iter (S k) shr_1 x)).
    rewrite IH.
    assert (HP : 0 < 2 ^ Z.of_nat k) by (apply Z.pow_pos_nonneg; lia).
    assert (E1 : 2 ^ Z.of_nat (S k) = 2 * 2 ^ Z.of_nat k)
      by (rewrite Nat2Z.inj_succ, Z.pow_succ_r; lia).
    assert (E2 : 2 ^ Z.of_nat (S (S k)) = 2 ^ Z.of_nat (S k) * 2)
      by (rewrite (Nat2Z.inj_succ (S k)), Z.pow_succ_r; lia).
    rewrite shr_1_step by (apply Z.div_pos; lia).
    rewrite Z.div_div by lia. rewrite <- E2.
    f_equal.
    destruct (half_cases m (2 ^ Z.of_nat k) Hm HP) as [Ho Hz].
    rewrite Ho, Hz, E1.
    pose proof (Z.mod_pos_bound m (2 * 2 ^ Z.of_nat k) ltac:(lia)) as B.
    destruct (Z.leb_spec (2 ^ Z.of_nat k) (m mod (2 * 2 ^ Z.of_nat k))),
      (Z.eqb_spec (m mod (2 * 2 ^ Z.of_nat k)) 0),
      (Z.eqb_spec (m mod (2 * 2 ^ Z.of_nat k)) (2 ^ Z.of_nat k));
      cbn [orb negb]; try reflexivity; lia.
Qed.

(** Shifting an exact mantissa right by [n > 0] and rounding it. *)
Lemma shr_round (m : Z) (p : positive) :
  0 <= m ->
  let mrs := iter_pos shr_1 p
               {| shr_m := m; shr_r := false; shr_s := false |} in
  round_nearest_even (shr_m mrs) (loc_of_shr_record mrs)
  = nearestEven m (Z.pos p).
Proof.
  intros Hm mrs. unfold mrs. rewrite iter_pos_nat.
  destruct (Pos2Nat.is_succ p) as [k Ek]. rewrite Ek.
  rewrite shr_steps by exact Hm.
  assert (En : Z.pos p = Z.of_nat (S k)) by lia.
  rewrite En. unfold nearestEven. cbv zeta.
  replace (Z.of_nat (S k) - 1) with (Z.of_nat k) by lia.
  assert (HP : 0 < 2 ^ Z.of_nat k) by (apply Z.pow_pos_nonneg; lia).
  assert (E1 : 2 ^ Z.of_nat (S k) = 2 * 2 ^ Z.of_nat k)
    by (rewrite Nat2Z.inj_succ, Z.pow_succ_r; lia).
  destruct (half_cases m (2 ^ Z.of_nat k) Hm HP) as [Ho Hz].
  rewrite Ho, Hz, E1.
  set (h := 2 ^ Z.of_nat k) in *.
  set (r := m mod (2 * h)). set (q := m / (2 * h)).
  cbn [shr_m].
  destruct (Z.leb_spec h r), (Z.eqb_spec r 0), (Z.eqb_spec r h),
    (Z.ltb_spec h r); cbn [orb negb andb loc_of_shr_record round_nearest_even];
    try lia; try reflexivity.
  rewrite <- Z.negb_odd. destruct (Z.odd q); reflexivity.
Qed.

End Binary64Shifts.

Section Binary64Rounding.
Import Binary64Units.

Lemma fexp_eq (x : Z) : fexp prec emax x = Z.max (x - 53) (-1074).
Proof. reflexivity. Qed.

Lemma pow2_pos (k : Z) : 0 <= k -> 0 < 2 ^ k.
Proof. intros. apply Z.pow_pos_nonneg; lia. Qed.

Lemma digits2_bounds (p : positive) :
  2 ^ (Z.pos (digits2_pos p) - 1) <= Z.pos p < 2 ^ Z.pos (digits2_pos p).
Proof.
  rewrite digits2_log2.
  pose proof (Z.log2_spec (Z.pos p) ltac:(lia)) as L.
  replace (Z.log2 (Z.pos p) + 1 - 1) with (Z.log2 (Z.pos p)) by lia.
  replace (Z.log2 (Z.pos p) + 1) with (Z.succ (Z.log2 (Z.pos p))) by lia.
  exact L.
Qed.

(** The digits of a positive number are determined by the powers of 2
    around it. *)
Lemma digits2_unique (p : positive) (d : Z) :
  2 ^ (d - 1) <= Z.pos p < 2 ^ d -> Z.pos (digits2_pos p) = d.
Proof.
  intros [Hl Hu]. rewrite digits2_log2.
  assert (Hd : 0 < d).
  { destruct (Z.lt_ge_cases 0 d) as [H | H]; [exact H |].
    destruct (Z.eq_dec d 0) as [-> | Hne].
    - cbn in Hu. lia.
    - rewrite Z.pow_neg_r in Hu by lia. lia. }
  assert (E : Z.log2 (Z.pos p) = d - 1).
  { apply Z.log2_unique; [lia |].
    replace (Z.succ (d - 1)) with d by lia. split; assumption. }
  lia.
Qed.

(** A mantissa that needs no shift is kept. *)
Lemma round_aligned (mz : positive) (ez : Z) :
  fexp prec emax (Z.pos (digits2_pos mz) + ez) = ez ->
  binary_round_aux prec emax false (Z.pos mz) ez loc_Exact
  = if ez <=? 971 then S754_finite false mz ez else S754_infinity false.
Proof.
  intros Hc. unfold binary_round_aux, shr_fexp.
  cbn [Zdigits2 shr_record_of_loc]. rewrite Hc, Z.sub_diag.
  cbn [shr shr_m loc_of_shr_record round_nearest_even Zdigits2
       shr_record_of_loc].
  rewrite Hc, Z.sub_diag. cbn [shr shr_m]. reflexivity.
Qed.


Lemma quotient_bounds (M sh : Z) :
  0 < sh -> 2 ^ (52 + sh) <= M < 2 ^ (53 + sh) ->
  2 ^ 52 <= M / 2 ^ sh < 2 ^ 53.
Proof.
  intros Hsh [Hl Hu].
  rewrite Z.pow_add_r in Hl, Hu by lia.
  assert (HP : 0 < 2 ^ sh) by (apply pow2_pos; lia).
  split.
  - apply Z.div_le_lower_bound; lia.
  - apply Z.div_lt_upper_bound; lia.
Qed.

Lemma nearestEven_bounds (M sh : Z) :
  M / 2 ^ sh <= nearestEven M sh <= M / 2 ^ sh + 1.
Proof.
  unfold nearestEven. cbv zeta.
  destruct ((2 ^ (sh - 1) <? M mod 2 ^ sh)
            || ((M mod 2 ^ sh =? 2 ^ (sh - 1)) && Z.odd (M / 2 ^ sh))); lia.
Qed.

(** A mantissa of more than 53 digits is shifted and rounded; the result
    [(m', e')] is finite when [e' <= 971]. *)
Lemma round_shifted (M : positive) (e : Z) :
  53 < Z.pos (digits2_pos M) -> -1074 <= e ->
  exists (m' : positive) (e' : Z),
    binary_round_aux prec emax false (Z.pos M) e loc_Exact
    = (if e' <=? 971 then S754_finite false m' e' else S754_infinity false)
    /\ Z.pos m' * 2 ^ (e' + 1074)
       = nearestEven (Z.pos M) (Z.pos (digits2_pos M) - 53)
         * 2 ^ (Z.pos (digits2_pos M) - 53 + (e + 1074))
    /\ -1074 <= e' /\ 2 ^ 52 <= Z.pos m' < 2 ^ 53.
Proof.
  intros Hd He.
  set (dM := Z.pos (digits2_pos M)) in *.
  pose proof (digits2_bounds M) as BM. fold dM in BM.
  destruct (dM - 53) as [| sh | sh] eqn:Esh; try lia.
  assert (Hsh : dM = 53 + Z.pos sh) by lia.
  assert (Bq : 2 ^ 52 <= Z.pos M / 2 ^ Z.pos sh < 2 ^ 53).
  { apply quotient_bounds; [lia |].
    replace (52 + Z.pos sh) with (dM - 1) by lia.
    replace (53 + Z.pos sh) with dM by lia. exact BM. }
  pose proof (nearestEven_bounds (Z.pos M) (Z.pos sh)) as Bn.
  pose proof (shr_round (Z.pos M) sh ltac:(lia)) as R. cbv zeta in R.
  unfold binary_round_aux, shr_fexp.
  cbn [Zdigits2 shr_record_of_loc]. fold dM.
  rewrite fexp_eq.
  replace (Z.max (dM + e - 53) (-1074) - e) with (Z.pos sh) by lia.
  cbn [shr]. rewrite R.
  set (q' := nearestEven (Z.pos M) (Z.pos sh)) in *.
  destruct q' as [| q | q] eqn:Eq'; try lia.
  cbn [Zdigits2 shr_record_of_loc].
  assert (P52 : 0 < 2 ^ 52) by (apply pow2_pos; lia).
  destruct (Z.eq_dec (Z.pos q) (2 ^ 53)) as [E53 | N53].
  - (* the rounded mantissa has 54 digits *)
    assert (Dq : Z.pos (digits2_pos q) = 54).
    { apply digits2_unique. rewrite E53.
      split; [lia |]. apply Z.pow_lt_mono_r; lia. }
    rewrite Dq, fexp_eq.
    replace (Z.max (54 + (e + Z.pos sh) - 53) (-1074) - (e + Z.pos sh))
      with 1 by lia.
    cbn [shr iter_pos]. rewrite shr_1_step by lia. cbn [shr_m].
    rewrite E53.
    replace (2 ^ 53 / 2) with (2 ^ 52) by reflexivity.
    exists (Z.to_pos (2 ^ 52)), (e + Z.pos sh + 1).
    replace (2 ^ 52) with (Z.pos (Z.to_pos (2 ^ 52))) at 1 by reflexivity.
    split; [reflexivity |].
    split.
    + rewrite Z2Pos.id by exact P52.
      replace (e + Z.pos sh + 1 + 1074) with (1 + (Z.pos sh + (e + 1074)))
        by lia.
      rewrite (Z.pow_add_r 2 1) by lia.
      replace (2 ^ 53) with (2 ^ 52 * 2 ^ 1) by reflexivity. ring.
    + split; [lia |]. rewrite Z2Pos.id by exact P52.
      split; [lia |]. apply Z.pow_lt_mono_r; lia.
  - assert (Dq : Z.pos (digits2_pos q) = 53).
    { apply digits2_unique. replace (53 - 1) with 52 by lia. lia. }
    rewrite Dq, fexp_eq.
    replace (Z.max (53 + (e + Z.pos sh) - 53) (-1074) - (e + Z.pos sh))
      with 0 by lia.
    cbn [shr shr_m].
    exists q, (e + Z.pos sh).
    split; [reflexivity |].
    split; [f_equal; f_equal; lia |].
    split; lia.
Qed.

End Binary64Rounding.

Section Binary64Values.
Import Binary64Units.

Lemma TOP_pos : 0 < TOP.
Proof. unfold TOP. apply pow2_pos. lia. Qed.

(** A mantissa below [2 ^ 53] at an exponent of a finite number stays
    below [TOP]; a mantissa from [2 ^ 52] on at a larger exponent reaches
    it. *)
Lemma finite_below_top (m e : Z) :
  0 <= m < 2 ^ 53 -> -1074 <= e <= 971 -> m * 2 ^ (e + 1074) < TOP.
Proof.
  intros Hm He.
  assert (HP : 0 < 2 ^ (e + 1074)) by (apply pow2_pos; lia).
  apply Z.lt_le_trans with (2 ^ 53 * 2 ^ (e + 1074)).
  - apply Z.mul_lt_mono_pos_r; [exact HP | apply Hm].
  - unfold TOP. rewrite <- Z.pow_add_r by lia.
    apply Z.pow_le_mono_r; lia.
Qed.

Lemma overflow_at_top (m e : Z) :
  2 ^ 52 <= m -> 971 < e -> TOP <= m * 2 ^ (e + 1074).
Proof.
  intros Hm He.
  assert (HP : 0 < 2 ^ (e + 1074)) by (apply pow2_pos; lia).
  apply Z.le_trans with (2 ^ 52 * 2 ^ (e + 1074)).
  - unfold TOP. rewrite <- Z.pow_add_r by lia.
    apply Z.pow_le_mono_r; lia.
  - apply Z.mul_le_mono_nonneg_r; [lia | exact Hm].
Qed.

Lemma nearestEven_exact (m k : Z) :
  0 < k -> nearestEven (m * 2 ^ k) k = m.
Proof.
  intros Hk. unfold nearestEven. cbv zeta.
  assert (HP : 0 < 2 ^ k) by (apply pow2_pos; lia).
  assert (HH : 0 < 2 ^ (k - 1)) by (apply pow2_pos; lia).
  rewrite Z.div_mul, Z.mod_mul by lia.
  destruct (Z.ltb_spec (2 ^ (k - 1)) 0); [lia |].
  destruct (Z.eqb_spec 0 (2 ^ (k - 1))); [lia |]. reflexivity.
Qed.

Lemma nearestEven_scale (M sh s : Z) :
  0 < sh -> 0 <= s ->
  nearestEven (M * 2 ^ s) (sh + s) = nearestEven M sh.
Proof.
  intros Hsh Hs. unfold nearestEven. cbv zeta.
  assert (HP : 0 < 2 ^ s) by (apply pow2_pos; lia).
  assert (HQ : 0 < 2 ^ sh) by (apply pow2_pos; lia).
  assert (HH : 0 < 2 ^ (sh - 1)) by (apply pow2_pos; lia).
  rewrite Z.pow_add_r by lia.
  rewrite Z.div_mul_cancel_r by lia.
  rewrite Z.mul_mod_distr_r by lia.
  replace (sh + s - 1) with (sh - 1 + s) by lia.
  rewrite Z.pow_add_r by lia.
  set (h := 2 ^ (sh - 1)) in *. set (r := M mod 2 ^ sh).
  set (P := 2 ^ s) in *.
  replace (h * P <? r * P) with (h <? r)
    by (destruct (Z.ltb_spec h r), (Z.ltb_spec (h * P) (r * P));
        try reflexivity; nia).
  replace (r * P =? h * P) with (r =? h)
    by (destruct (Z.eqb_spec r h), (Z.eqb_spec (r * P) (h * P));
        try reflexivity; nia).
  reflexivity.
Qed.

Lemma log2_units (M : positive) (s : Z) :
  0 <= s ->
  Z.log2 (Z.pos M * 2 ^ s) + 1 = Z.pos (digits2_pos M) + s.
Proof.
  intros Hs. rewrite Z.log2_mul_pow2 by lia. rewrite digits2_log2. lia.
Qed.

(** The outcome of rounding a positive mantissa: the number nearest to
    its value. *)
Lemma binary_round_value (M : positive) (e : Z) :
  -1074 <= e ->
  nonNegative (binary_round prec emax false M e) = true
  /\ units (binary_round prec emax false M e)
     = Z.min TOP (round53 (Z.pos M * 2 ^ (e + 1074))).
Proof.
  intros He.
  set (dM := Z.pos (digits2_pos M)).
  pose proof (digits2_bounds M) as BM. fold dM in BM.
  assert (HdM : 0 < dM) by (unfold dM; lia).
  pose proof TOP_pos as HT.
  unfold round53. cbv zeta.
  rewrite log2_units by lia. fold dM.
  unfold binary_round. fold dM. rewrite fexp_eq.
  destruct (Z.leb_spec dM 53) as [Hd | Hd].
  - (* at most 53 digits: the mantissa is aligned, not rounded *)
    set (fe := Z.max (dM + e - 53) (-1074)).
    assert (Hfe : -1074 <= fe <= e) by (unfold fe; lia).
    assert (Aligned :
      exists mz : positive,
        shl_align M e fe = (mz, fe)
        /\ Z.pos mz = Z.pos M * 2 ^ (e - fe)).
    { unfold shl_align. destruct (fe - e) as [| d | d] eqn:Ed; try lia.
      - exists M. assert (fe = e) by lia. subst fe.
        split; [now rewrite H |].
        replace (e - Z.max (dM + e - 53) (-1074)) with 0 by lia.
        rewrite Z.pow_0_r. lia.
      - exists (Pos.iter xO M d). split; [reflexivity |].
        rewrite iter_xO. f_equal. f_equal. lia. }
    destruct Aligned as [mz [Eal Emz]]. rewrite Eal.
    assert (Dz : Z.pos (digits2_pos mz) = dM + (e - fe)).
    { apply digits2_unique. rewrite Emz.
      replace (dM + (e - fe) - 1) with (dM - 1 + (e - fe)) by lia.
      rewrite !Z.pow_add_r by lia.
      assert (0 < 2 ^ (e - fe)) by (apply pow2_pos; lia). nia. }
    rewrite round_aligned by (rewrite Dz, fexp_eq; unfold fe; lia).
    assert (Eval : Z.pos mz * 2 ^ (fe + 1074) = Z.pos M * 2 ^ (e + 1074)).
    { rewrite Emz. replace (e + 1074) with (e - fe + (fe + 1074)) by lia.
      rewrite (Z.pow_add_r 2 (e - fe)) by lia. ring. }
    assert (Bz : 2 ^ (Z.pos (digits2_pos mz) - 1) <= Z.pos mz
                 < 2 ^ Z.pos (digits2_pos mz)) by apply digits2_bounds.
    assert (Ernd :
      (if dM + (e + 1074) <=? 53 then Z.pos M * 2 ^ (e + 1074)
       else nearestEven (Z.pos M * 2 ^ (e + 1074)) (dM + (e + 1074) - 53)
            * 2 ^ (dM + (e + 1074) - 53))
      = Z.pos M * 2 ^ (e + 1074)).
    { destruct (Z.leb_spec (dM + (e + 1074)) 53) as [Hs | Hs];
        [reflexivity |].
      assert (Efe : fe = dM + e - 53) by (unfold fe; lia).
      replace (dM + (e + 1074) - 53) with (fe + 1074) by lia.
      rewrite <- Eval. rewrite nearestEven_exact by lia. reflexivity. }
    rewrite Ernd, <- Eval.
    assert (P53 : Z.pos mz < 2 ^ 53).
    { eapply Z.lt_le_trans; [apply Bz |].
      apply Z.pow_le_mono_r; unfold fe in *; lia. }
    destruct (Z.leb_spec fe 971) as [Hfin | Hinf].
    + cbn [nonNegative negb units]. split; [reflexivity |].
      rewrite Z.min_r; [reflexivity |].
      apply Z.lt_le_incl, finite_below_top; lia.
    + cbn [nonNegative negb units]. split; [reflexivity |].
      rewrite Z.min_l; [reflexivity |].
      assert (Efe : fe = dM + e - 53) by (unfold fe; lia).
      assert (P52 : 2 ^ 52 <= Z.pos mz).
      { eapply Z.le_trans; [| apply Bz].
        apply Z.pow_le_mono_r; lia. }
      apply overflow_at_top; [exact P52 | lia].
  - (* more than 53 digits: the mantissa is shifted and rounded *)
    assert (Eal : shl_align M e (Z.max (dM + e - 53) (-1074)) = (M, e)).
    { unfold shl_align.
      destruct (Z.max (dM + e - 53) (-1074) - e) eqn:Ed; try reflexivity.
      lia. }
    rewrite Eal.
    destruct (round_shifted M e Hd He) as [m' [e' [Er [Ev [He' Bm]]]]].
    fold dM in Ev. rewrite Er.
    destruct (Z.leb_spec (dM + (e + 1074)) 53) as [Hs | Hs]; [lia |].
    replace (dM + (e + 1074) - 53) with (dM - 53 + (e + 1074)) by lia.
    rewrite nearestEven_scale by lia. rewrite <- Ev.
    destruct (Z.leb_spec e' 971) as [Hfin | Hinf].
    + cbn [nonNegative negb units]. split; [reflexivity |].
      rewrite Z.min_r; [reflexivity |].
      apply Z.lt_le_incl, finite_below_top; lia.
    + cbn [nonNegative negb units]. split; [reflexivity |].
      rewrite Z.min_l; [reflexivity |].
      apply overflow_at_top; lia.
Qed.

End Binary64Values.

Section Binary64Monotone.
Import Binary64Units.

(** *** Rounding is monotone *)

Lemma nearestEven_mono (n n' k : Z) :
  0 < k -> 0 <= n <= n' -> nearestEven n k <= nearestEven n' k.
Proof.
  intros Hk [Hn Hnn]. unfold nearestEven. cbv zeta.
  assert (HP : 0 < 2 ^ k) by (apply pow2_pos; lia).
  pose proof (Z.div_mod n (2 ^ k) ltac:(lia)) as E1.
  pose proof (Z.mod_pos_bound n (2 ^ k) HP) as B1.
  pose proof (Z.div_mod n' (2 ^ k) ltac:(lia)) as E2.
  pose proof (Z.mod_pos_bound n' (2 ^ k) HP) as B2.
  set (q := n / 2 ^ k) in *. set (r := n mod 2 ^ k) in *.
  set (q' := n' / 2 ^ k) in *. set (r' := n' mod 2 ^ k) in *.
  set (h := 2 ^ (k - 1)).
  assert (Hq : q <= q') by nia.
  destruct (Z.eq_dec q q') as [Eq | Nq].
  - rewrite <- Eq in *. assert (Hr : r <= r') by nia.
    destruct (Z.ltb_spec h r), (Z.ltb_spec h r'), (Z.eqb_spec r h),
      (Z.eqb_spec r' h), (Z.odd q); cbn [orb andb]; lia.
  - destruct ((h <? r) || ((r =? h) && Z.odd q)),
      ((h <? r') || ((r' =? h) && Z.odd q')); lia.
Qed.

(** A number of more than 53 bits is rounded within its binade. *)
Lemma round53_binade (n : Z) :
  0 < n -> 53 < Z.log2 n + 1 ->
  2 ^ Z.log2 n <= round53 n <= 2 ^ (Z.log2 n + 1).
Proof.
  intros Hn Hd. unfold round53. cbv zeta.
  destruct (Z.leb_spec (Z.log2 n + 1) 53) as [H | _]; [lia |].
  set (k := Z.log2 n + 1 - 53).
  pose proof (Z.log2_spec n Hn) as L.
  replace (Z.succ (Z.log2 n)) with (53 + k) in L by (unfold k; lia).
  replace (Z.log2 n) with (52 + k) in L at 1 by (unfold k; lia).
  assert (Hk : 0 < k) by (unfold k; lia).
  pose proof (quotient_bounds n k Hk L) as Bq.
  pose proof (nearestEven_bounds n k) as Bn.
  replace (Z.log2 n) with (52 + k) by (unfold k; lia).
  replace (52 + k + 1) with (53 + k) by lia.
  rewrite !Z.pow_add_r by lia.
  assert (HP : 0 < 2 ^ k) by (apply pow2_pos; lia).
  nia.
Qed.

Lemma round53_mono (n n' : Z) :
  0 <= n <= n' -> round53 n <= round53 n'.
Proof.
  intros [Hn Hnn].
  destruct (Z.eq_dec n 0) as [-> | Hn0].
  { change (round53 0) with 0.
    destruct (Z.eq_dec n' 0) as [-> | Hn0']; [reflexivity |].
    unfold round53. cbv zeta.
    destruct (Z.leb_spec (Z.log2 n' + 1) 53); [lia |].
    pose proof (round53_binade n' ltac:(lia) ltac:(lia)) as B.
    unfold round53 in B. cbv zeta in B.
    destruct (Z.leb_spec (Z.log2 n' + 1) 53); [lia |].
    assert (0 < 2 ^ Z.log2 n') by (apply pow2_pos, Z.log2_nonneg). lia. }
  assert (Hp : 0 < n) by lia. assert (Hp' : 0 < n') by lia.
  pose proof (Z.log2_le_mono n n' Hnn) as Hlog.
  pose proof (Z.log2_spec n Hp) as L. pose proof (Z.log2_spec n' Hp') as L'.
  destruct (Z.leb_spec (Z.log2 n' + 1) 53) as [Hs' | Hs'].
  - unfold round53. cbv zeta.
    destruct (Z.leb_spec (Z.log2 n + 1) 53); [| lia].
    destruct (Z.leb_spec (Z.log2 n' + 1) 53); lia.
  - pose proof (round53_binade n' Hp' Hs') as B'.
    destruct (Z.leb_spec (Z.log2 n + 1) 53) as [Hs | Hs].
    + assert (E : round53 n = n).
      { unfold round53. cbv zeta.
        destruct (Z.leb_spec (Z.log2 n + 1) 53); [reflexivity | lia]. }
      rewrite E.
      assert (2 ^ Z.succ (Z.log2 n) <= 2 ^ Z.log2 n')
        by (apply Z.pow_le_mono_r; lia).
      lia.
    + pose proof (round53_binade n Hp Hs) as B.
      destruct (Z.eq_dec (Z.log2 n) (Z.log2 n')) as [El | Nl].
      * unfold round53. cbv zeta. rewrite <- El.
        destruct (Z.leb_spec (Z.log2 n + 1) 53); [lia |].
        apply Z.mul_le_mono_nonneg_r;
          [apply Z.lt_le_incl, pow2_pos; lia |].
        apply nearestEven_mono; lia.
      * assert (2 ^ (Z.log2 n + 1) <= 2 ^ Z.log2 n')
          by (apply Z.pow_le_mono_r; lia).
        lia.
Qed.

Lemma roundUnits_mono (n n' : Z) :
  0 <= n <= n' -> roundUnits n <= roundUnits n'.
Proof.
  intros H. unfold roundUnits.
  pose proof (round53_mono n n' H).
  destruct (Z.leb_spec TOP n), (Z.leb_spec TOP n'); lia.
Qed.

End Binary64Monotone.

Section Binary64Compare.
Import Binary64Units.

(** *** Valid numbers *)

(** A valid finite number: at most 53 digits, exactly 53 above the
    smallest exponent. *)
Lemma valid_finite (s : bool) (m : positive) (e : Z) :
  valid_binary (S754_finite s m e) = true ->
  -1074 <= e <= 971
  /\ Z.pos (digits2_pos m) <= 53
  /\ (-1074 < e -> Z.pos (digits2_pos m) = 53).
Proof.
  cbn [SpecFloat.valid_binary]. unfold bounded, canonical_mantissa.
  rewrite fexp_eq. intros H. apply andb_prop in H. destruct H as [Hc Hb].
  apply Z.eqb_eq in Hc. apply Z.leb_le in Hb.
  change (emax - prec) with 971 in Hb. lia.
Qed.

Lemma valid_mantissa (s : bool) (m : positive) (e : Z) :
  valid_binary (S754_finite s m e) = true ->
  Z.pos m < 2 ^ 53 /\ (-1074 < e -> 2 ^ 52 <= Z.pos m).
Proof.
  intros V. destruct (valid_finite s m e V) as [He [Hd Hn]].
  pose proof (digits2_bounds m) as B. split.
  - eapply Z.lt_le_trans; [apply B |]. apply Z.pow_le_mono_r; lia.
  - intros Hlt. rewrite (Hn Hlt) in B. apply B.
Qed.

Lemma units_finite_bounds (s : bool) (m : positive) (e : Z) :
  valid_binary (S754_finite s m e) = true ->
  0 < units (S754_finite s m e) < TOP.
Proof.
  intros V. destruct (valid_finite s m e V) as [He _].
  destruct (valid_mantissa s m e V) as [Hm _].
  cbn [units].
  assert (0 < 2 ^ (e + 1074)) by (apply pow2_pos; lia).
  split; [apply Z.mul_pos_pos; lia |].
  apply finite_below_top; lia.
Qed.

Lemma units_range (x : spec_float) :
  valid_binary x = true -> 0 <= units x <= TOP.
Proof.
  intros V. pose proof TOP_pos.
  destruct x as [s | s | | s m e]; cbn [units]; try lia.
  pose proof (units_finite_bounds s m e V) as B. cbn [units] in B. lia.
Qed.

(** *** The order *)

Lemma SFleb_units (x y : spec_float) :
  valid_binary x = true -> valid_binary y = true ->
  nonNegative x = true -> nonNegative y = true ->
  (SFleb x y = true <-> units x <= units y).
Proof.
  intros Vx Vy Nx Ny. pose proof TOP_pos as HT.
  destruct x as [sx | sx | | sx mx ex], y as [sy | sy | | sy my ey];
    cbn [nonNegative] in Nx, Ny; try discriminate;
    try (apply negb_true_iff in Nx; subst sx);
    try (apply negb_true_iff in Ny; subst sy);
    try pose proof (units_finite_bounds false mx ex Vx) as Bx;
    try pose proof (units_finite_bounds false my ey Vy) as By;
    unfold SFleb; cbn [SFcompare units] in *;
    try (split; [intros _; lia | reflexivity]);
    try (split; [discriminate | intros; lia]).
  destruct (valid_finite false mx ex Vx) as [Hex _].
  destruct (valid_finite false my ey Vy) as [Hey _].
  destruct (valid_mantissa false mx ex Vx) as [Ux Lx].
  destruct (valid_mantissa false my ey Vy) as [Uy Ly].
  assert (Px : 0 < 2 ^ (ex + 1074)) by (apply pow2_pos; lia).
  assert (Py : 0 < 2 ^ (ey + 1074)) by (apply pow2_pos; lia).
  destruct (Z.compare_spec ex ey) as [E | Hlt | Hgt].
  - subst ey. rewrite Pos.compare_cont_spec. cbn [Pos.switch_Eq].
    destruct (Pos.compare_spec mx my) as [E | Hm | Hm].
    + subst my. split; [intros _; lia | reflexivity].
    + split; [intros _; nia | reflexivity].
    + split; [discriminate | intros; nia].
  - split; [intros _ | reflexivity].
    specialize (Ly ltac:(lia)).
    replace (ey + 1074) with (ey - ex - 1 + (1 + (ex + 1074))) by lia.
    rewrite (Z.pow_add_r 2 (ey - ex - 1) (1 + (ex + 1074))),
      (Z.pow_add_r 2 1 (ex + 1074)) by lia.
    assert (0 < 2 ^ (ey - ex - 1)) by (apply pow2_pos; lia).
    change (2 ^ 53) with (2 * 2 ^ 52) in Ux. change (2 ^ 1) with 2.
    assert (0 < 2 ^ 52) by (apply pow2_pos; lia).
    set (A := 2 ^ (ex + 1074)) in *. set (B := 2 ^ (ey - ex - 1)) in *.
    set (c := 2 ^ 52) in *.
    assert (S1 : Z.pos mx * A <= 2 * c * A) by nia.
    assert (S2 : 2 * c * A <= Z.pos my * (2 * A)) by nia.
    assert (S3 : Z.pos my * (2 * A) <= Z.pos my * (B * (2 * A))) by nia.
    lia.
  - split; [discriminate | intros Hle; exfalso].
    specialize (Lx ltac:(lia)).
    replace (ex + 1074) with (ex - ey - 1 + (1 + (ey + 1074))) in Hle
      by lia.
    rewrite (Z.pow_add_r 2 (ex - ey - 1) (1 + (ey + 1074))),
      (Z.pow_add_r 2 1 (ey + 1074)) in Hle by lia.
    assert (0 < 2 ^ (ex - ey - 1)) by (apply pow2_pos; lia).
    change (2 ^ 53) with (2 * 2 ^ 52) in Uy. change (2 ^ 1) with 2 in Hle.
    assert (0 < 2 ^ 52) by (apply pow2_pos; lia).
    set (A := 2 ^ (ey + 1074)) in *. set (B := 2 ^ (ex - ey - 1)) in *.
    set (c := 2 ^ 52) in *.
    assert (S1 : Z.pos my * A < 2 * c * A) by nia.
    assert (S2 : 2 * c * A <= Z.pos mx * (2 * A)) by nia.
    assert (S3 : Z.pos mx * (2 * A) <= Z.pos mx * (B * (2 * A))) by nia.
    lia.
Qed.

End Binary64Compare.

Section Binary64Addition.
Import Binary64Units.

Lemma round53_zero : round53 0 = 0.
Proof. reflexivity. Qed.

(** A valid number is its own rounding. *)
Lemma roundUnits_fixed (x : spec_float) :
  valid_binary x = true -> nonNegative x = true ->
  roundUnits (units x) = units x.
Proof.
  intros V Nn. pose proof TOP_pos as HT. unfold roundUnits.
  destruct x as [s | s | | s m e]; cbn [units nonNegative] in *;
    try discriminate.
  - destruct (Z.leb_spec TOP 0); [lia |]. rewrite round53_zero. lia.
  - rewrite Z.leb_refl. reflexivity.
  - pose proof (units_finite_bounds s m e V) as B. cbn [units] in B.
    destruct (valid_finite s m e V) as [He [Hd Hn]].
    destruct (Z.leb_spec TOP (Z.pos m * 2 ^ (e + 1074))); [lia |].
    assert (E : round53 (Z.pos m * 2 ^ (e + 1074))
                = Z.pos m * 2 ^ (e + 1074)).
    { unfold round53. cbv zeta. rewrite log2_units by lia.
      destruct (Z.leb_spec (Z.pos (digits2_pos m) + (e + 1074)) 53);
        [reflexivity |].
      rewrite Hn by lia.
      replace (53 + (e + 1074) - 53) with (e + 1074) by lia.
      rewrite nearestEven_exact by lia. reflexivity. }
    rewrite E. lia.
Qed.

Lemma shl_align_units (mx : positive) (ex ez : Z) :
  -1074 <= ez <= ex ->
  Z.pos (fst (shl_align mx ex ez)) * 2 ^ (ez + 1074)
  = Z.pos mx * 2 ^ (ex + 1074).
Proof.
  intros H. unfold shl_align.
  destruct (ez - ex) as [| d | d] eqn:Ed; cbn [fst]; try lia.
  - replace ez with ex by lia. reflexivity.
  - rewrite iter_xO.
    replace (ex + 1074) with (Z.pos d + (ez + 1074)) by lia.
    rewrite (Z.pow_add_r 2 (Z.pos d)) by lia. ring.
Qed.

Lemma round53_top (n : Z) : TOP <= n -> TOP <= round53 n.
Proof.
  intros Hn. pose proof TOP_pos as HT.
  assert (Hlog : 2098 <= Z.log2 n).
  { apply Z.log2_le_pow2; [lia | exact Hn]. }
  pose proof (round53_binade n ltac:(lia) ltac:(lia)) as B.
  assert (TOP <= 2 ^ Z.log2 n)
    by (unfold TOP; apply Z.pow_le_mono_r; lia).
  lia.
Qed.

(** The sum of two non-negative numbers is the rounding of the exact
    sum. *)
Lemma add_units (x y : spec_float) :
  valid_binary x = true -> valid_binary y = true ->
  nonNegative x = true -> nonNegative y = true ->
  nonNegative (SF64add x y) = true
  /\ units (SF64add x y) = roundUnits (units x + units y).
Proof.
  intros Vx Vy Nx Ny.
  destruct x as [sx | sx | | sx mx ex], y as [sy | sy | | sy my ey];
    cbn [nonNegative] in Nx, Ny; try discriminate;
    try (apply negb_true_iff in Nx; subst sx);
    try (apply negb_true_iff in Ny; subst sy);
    pose proof TOP_pos as HT;
    (match goal with
     | |- context [SF64add ?x ?y] =>
         pose proof (units_range x Vx) as Rx;
         pose proof (units_range y Vy) as Ry;
         pose proof (roundUnits_fixed x Vx eq_refl) as Fx;
         pose proof (roundUnits_fixed y Vy eq_refl) as Fy
     end);
    assert (Top : forall n, TOP <= n -> roundUnits n = TOP)
      by (intros n Hn; unfold roundUnits;
          destruct (Z.leb_spec TOP n); [reflexivity | lia]).
  - (* zero + zero *)
    cbn [units] in *. rewrite Z.add_0_r, Fx.
    destruct sx, sy; split; reflexivity.
  - (* zero + infinity *)
    cbn [units] in *. rewrite Z.add_0_l, Fy.
    destruct sx; split; reflexivity.
  - (* zero + finite *)
    cbn [units] in *. rewrite Z.add_0_l, Fy.
    destruct sx; split; reflexivity.
  - (* infinity + zero *)
    cbn [units] in *. rewrite Z.add_0_r, Fx.
    destruct sy; split; reflexivity.
  - (* infinity + infinity *)
    unfold SF64add. cbn [SFadd nonNegative negb units] in *.
    rewrite Top by lia. split; reflexivity.
  - (* infinity + finite *)
    unfold SF64add. cbn [SFadd nonNegative negb units] in *.
    rewrite Top by lia. split; reflexivity.
  - (* finite + zero *)
    cbn [units] in *. rewrite Z.add_0_r, Fx.
    destruct sy; split; reflexivity.
  - (* finite + infinity *)
    unfold SF64add. cbn [SFadd nonNegative negb units] in *.
    rewrite Top by lia. split; reflexivity.
  - (* finite + finite *)
    destruct (valid_finite false mx ex Vx) as [Hex _].
    destruct (valid_finite false my ey Vy) as [Hey _].
    unfold SF64add. cbn [SFadd cond_Zopp]. cbv zeta.
    set (ez := Z.min ex ey).
    pose proof (shl_align_units mx ex ez ltac:(unfold ez; lia)) as Ax.
    pose proof (shl_align_units my ey ez ltac:(unfold ez; lia)) as Ay.
    cbn [Z.add binary_normalize].
    destruct (binary_round_value
                (fst (shl_align mx ex ez) + fst (shl_align my ey ez)) ez
                ltac:(unfold ez; lia)) as [Nn Ev].
    split; [exact Nn |]. rewrite Ev.
    rewrite Pos2Z.inj_add, Z.mul_add_distr_r, Ax, Ay.
    cbn [units]. unfold roundUnits.
    destruct (Z.leb_spec TOP (Z.pos mx * 2 ^ (ex + 1074)
                              + Z.pos my * 2 ^ (ey + 1074))) as [H | H];
      [| reflexivity].
    apply round53_top in H. lia.
Qed.

(** *** The order of sums of primitive numbers *)

Lemma float_nonneg (a : float) :
  PrimFloat.leb 0 a = true -> nonNegative (Prim2SF a) = true.
Proof.
  rewrite FloatAxioms.leb_spec. change (Prim2SF 0) with (S754_zero false).
  destruct (Prim2SF a) as [s | s | | s m e]; unfold SFleb;
    cbn [SFcompare nonNegative]; try discriminate; try reflexivity;
    destruct s; try discriminate; reflexivity.
Qed.

Lemma float_le_units (a b : float) :
  PrimFloat.leb 0 a = true -> PrimFloat.leb 0 b = true ->
  (PrimFloat.leb a b = true
   <-> units (Prim2SF a) <= units (Prim2SF b)).
Proof.
  intros Ha Hb. rewrite FloatAxioms.leb_spec.
  apply SFleb_units; try apply Prim2SF_valid; now apply float_nonneg.
Qed.

Lemma float_add_units (a x : float) :
  PrimFloat.leb 0 a = true -> PrimFloat.leb 0 x = true ->
  PrimFloat.leb 0 (a + x) = true
  /\ units (Prim2SF (a + x))
     = roundUnits (units (Prim2SF a) + units (Prim2SF x)).
Proof.
  intros Ha Hx. rewrite FloatAxioms.add_spec.
  destruct (add_units (Prim2SF a) (Prim2SF x)
              (Prim2SF_valid a) (Prim2SF_valid x)
              (float_nonneg a Ha) (float_nonneg x Hx)) as [Nn Ev].
  split; [| exact Ev].
  rewrite FloatAxioms.leb_spec, FloatAxioms.add_spec.
  change (Prim2SF 0) with (S754_zero false).
  destruct (SF64add (Prim2SF a) (Prim2SF x)) as [s | s | | s m e];
    unfold SFleb; cbn [SFcompare nonNegative] in *; try discriminate;
    try reflexivity; destruct s; try discriminate; reflexivity.
Qed.

(** Adding a non-negative number does not make a non-negative sum
    smaller. *)
Lemma float_add_nonneg (a x : float) :
  PrimFloat.leb 0 a = true -> PrimFloat.leb 0 x = true ->
  PrimFloat.leb a (a + x) = true.
Proof.
  intros Ha Hx. destruct (float_add_units a x Ha Hx) as [Hs Ev].
  apply float_le_units; [exact Ha | exact Hs |]. rewrite Ev.
  rewrite <- (roundUnits_fixed (Prim2SF a) (Prim2SF_valid a)
                (float_nonneg a Ha)) at 1.
  pose proof (units_range _ (Prim2SF_valid a)).
  pose proof (units_range _ (Prim2SF_valid x)).
  apply roundUnits_mono. lia.
Qed.

(** Binary64 addition of non-negative numbers is monotone. *)
Lemma float_add_mono (a b x : float) :
  PrimFloat.leb 0 a = true -> PrimFloat.leb a b = true ->
  PrimFloat.leb 0 x = true ->
  PrimFloat.leb (a + x) (b + x) = true.
Proof.
  intros Ha Hab Hx.
  assert (Hb : PrimFloat.leb 0 b = true).
  { rewrite FloatAxioms.leb_spec in *. revert Ha Hab.
    change (Prim2SF 0) with (S754_zero false).
    destruct (Prim2SF a) as [sa | sa | | sa ma ea],
      (Prim2SF b) as [sb | sb | | sb mb eb];
      unfold SFleb; cbn [SFcompare]; try discriminate; try reflexivity;
      destruct sa, sb; try discriminate; reflexivity. }
  destruct (float_add_units a x Ha Hx) as [Hs Ev].
  destruct (float_add_units b x Hb Hx) as [Hs' Ev'].
  apply float_le_units; [exact Hs | exact Hs' |]. rewrite Ev, Ev'.
  pose proof (units_range _ (Prim2SF_valid a)).
  pose proof (units_range _ (Prim2SF_valid x)).
  apply (proj1 (float_le_units a b Ha Hb)) in Hab.
  apply roundUnits_mono. lia.
Qed.

End Binary64Addition.

(** Binary64 addition of non-negative numbers is monotone. *)
Lemma float_le_monotone : MonotoneAddition float_le.
Proof.
  split; unfold float_le; cbn [num_zero num_add Binary64.number].
  - reflexivity.
  - intros a b c. apply float_le_trans.
  - intros a x. apply float_add_nonneg.
  - intros a b x. apply float_add_mono.
Qed.

Section StoredInOrder.
Context {N : Type} `{JsNumber N}.

(** Sorting a list that is stored most recent first changes nothing. *)
Lemma sort_stored_in_order (l : list (FlightLog N)) :
  StronglySorted (fun a b => date b <= date a) l ->
  JsArray.sort byDateDesc l = l.
Proof.
  induction 1 as [| x xs Hs IH Hall]; [reflexivity |].
  cbn [JsArray.sort fold_right].
  change (fold_right (JsArray.insert_by byDateDesc) [] xs)
    with (JsArray.sort byDateDesc xs).
  rewrite IH. destruct xs as [| y ys]; [reflexivity |].
  cbn [JsArray.insert_by]. unfold byDateDesc at 1.
  inversion Hall as [| ? ? Hy _]; subst.
  destruct (Z.leb_spec (date y - date x) 0); [reflexivity | lia].
Qed.
End StoredInOrder.

(** The sums of a period and of the whole log, for non-negative binary64
    durations stored most recent first. *)
Lemma hours_filter_total_stored (tz : Z) (logs : list (FlightLog float))
      (p : FlightLog float -> bool) :
  (forall l, In l logs -> isNight l = false -> float_le 0 (flightTime l)) ->
  StronglySorted (fun a b => date b <= date a) (validLogs logs) ->
  float_le (sumHours (filter p (JsArray.sort byDateDesc (validLogs logs))))
           (sumHours (validLogs logs)).
Proof.
  intros Hpos Hsorted. rewrite (sort_stored_in_order _ Hsorted).
  rewrite <- (filter_all (fun _ => true) (validLogs logs)) at 2
    by (apply Forall_forall; reflexivity).
  unfold sumHours.
  apply (fold_add_mono float_le float_le_monotone p (fun _ => true)).
  - reflexivity.
  - intros l Hin. apply filter_In in Hin. destruct Hin as [Hin Hn].
    apply Hpos; [exact Hin | now apply negb_true_iff].
  - reflexivity.
  - reflexivity.
Qed.

(** C10: the period counts are monotone under containment of the periods,
    for every number type.  For non-negative durations the hour sums of
    today, this week, this month and this year are monotone in binary64
    as they are without rounding; [hoursThisYear <= totalHours] holds
    without rounding, and in binary64 when the entries other than
    incidents are stored most recent first. *)
Theorem C10_period_monotone :
  forall (tz now : Z),
    (forall (N : Type) (num : JsNumber N) (logs : list (FlightLog N)),
        let s := computeStats tz logs now in
        (flightsToday s <= flightsThisWeek s
         /\ flightsToday s <= flightsThisMonth s
         /\ flightsThisMonth s <= flightsThisYear s
         /\ flightsThisYear s <= totalFlights s)
        /\ (soloFlightsToday s <= soloFlightsThisWeek s
            /\ soloFlightsToday s <= soloFlightsThisMonth s
            /\ soloFlightsThisMonth s <= soloFlightsThisYear s
            /\ soloFlightsThisYear s <= totalSoloFlights s)
        /\ (multiFlightsToday s <= multiFlightsThisWeek s
            /\ multiFlightsToday s <= multiFlightsThisMonth s
            /\ multiFlightsThisMonth s <= multiFlightsThisYear s
            /\ multiFlightsThisYear s <= totalMultiFlights s))
    /\ (forall logs : list (FlightLog float),
           (forall l, In l logs -> isNight l = false ->
                      float_le 0 (flightTime l)) ->
           let s := computeStats tz logs now in
           float_le (hoursToday s) (hoursThisWeek s)
           /\ float_le (hoursToday s) (hoursThisMonth s)
           /\ float_le (hoursThisMonth s) (hoursThisYear s)
           /\ (StronglySorted (fun a b => date b <= date a)
                 (validLogs logs) ->
               float_le (hoursThisYear s) (totalHours s)))
    /\ (forall logs : list (FlightLog Q),
           (forall l, In l logs -> isNight l = false ->
                      (0 <= flightTime l)%Q) ->
           let s := computeStats tz logs now in
           (hoursToday s <= hoursThisWeek s)%Q
           /\ (hoursToday s <= hoursThisMonth s)%Q
           /\ (hoursThisMonth s <= hoursThisYear s)%Q
           /\ (hoursThisYear s <= totalHours s)%Q).
Proof.
  intros tz now. split; [| split].
  - intros N num logs s. subst s.
    split; [| split]; apply getCounts_monotone.
  - intros logs Hpos s. subst s.
    cbn [computeStats hoursToday hoursThisWeek hoursThisMonth hoursThisYear
         totalHours].
    split; [apply (hours_mono_sorted float_le float_le_monotone);
            [apply inToday_inWeek | exact Hpos] |].
    split; [apply (hours_mono_sorted float_le float_le_monotone);
            [apply inToday_inMonth | exact Hpos] |].
    split; [apply (hours_mono_sorted float_le float_le_monotone);
            [apply inMonth_inYear | exact Hpos] |].
    intros Hsorted. apply hours_filter_total_stored; assumption.
  - intros logs Hpos s. subst s.
    cbn [computeStats hoursToday hoursThisWeek hoursThisMonth hoursThisYear
         totalHours].
    split; [apply hours_filter_mono; [exact Hpos | apply inToday_inWeek] |].
    split; [apply hours_filter_mono; [exact Hpos | apply inToday_inMonth] |].
    split; [apply hours_filter_mono; [exact Hpos | apply inMonth_inYear] |].
    apply hours_filter_total. exact Hpos.
Qed.

(** Stored oldest first, the three entries of 0.3 h, 0.2 h and 0.1 h add up
    to more in date order than in stored order. *)
Lemma C10_counterexample :
  let s := computeStats UTC_plus_8 rounding_logs (JsDate.UTC 2024 0 3 13 0) in
  forallb (fun l => PrimFloat.leb 0 (flightTime l)) rounding_logs = true
  /\ flightsThisYear s = 3
  /\ hoursThisYear s = 0.6000000000000001%float
  /\ totalHours s = 0.6%float
  /\ PrimFloat.ltb (totalHours s) (hoursThisYear s) = true.
Proof. vm_compute. repeat split. Qed.

Lemma rounding_logs_nonneg :
  forall l, In l rounding_logs -> isNight l = false ->
            float_le 0 (flightTime l).
Proof.
  intros l [<- | [<- | [<- | []]]] _; reflexivity.
Qed.

Lemma exact_logs_nonneg :
  forall l, In l exact_logs -> isNight l = false -> (0 <= flightTime l)%Q.
Proof.
  intros l [<- | [<- | [<- | []]]] _; vm_compute; discriminate.
Qed.

(** The three entries of 0.3 h, 0.2 h and 0.1 h, in binary64 and without
    rounding. *)
Lemma C10_period_monotone_witness :
  let now := JsDate.UTC 2024 0 3 13 0 in
  let s := computeStats UTC_plus_8 rounding_logs now in
  let s' := computeStats UTC_plus_8 exact_logs now in
  (float_le (hoursToday s) (hoursThisWeek s)
   /\ float_le (hoursToday s) (hoursThisMonth s)
   /\ float_le (hoursThisMonth s) (hoursThisYear s))
  /\ ((hoursToday s' <= hoursThisWeek s')%Q
      /\ (hoursToday s' <= hoursThisMonth s')%Q
      /\ (hoursThisMonth s' <= hoursThisYear s')%Q
      /\ (hoursThisYear s' <= totalHours s')%Q).
Proof.
  intros now s s'.
  destruct (proj1 (proj2 (C10_period_monotone UTC_plus_8 now))
              rounding_logs rounding_logs_nonneg) as [A [B [C _]]].
  split; [split; [exact A |]; split; [exact B | exact C] |].
  exact (proj2 (proj2 (C10_period_monotone UTC_plus_8 now))
           exact_logs exact_logs_nonneg).
Defined.
